(** * AQI calculator of aqi-mqtt (main.go): a shallow embedding

    The Go program computes an air-quality index from two float64
    concentrations.  Every arithmetic step of [calculateAQI] is an IEEE-754
    binary64 operation, and several properties of the program depend on the
    exact rounding of those operations, so the embedding keeps them: a
    float64 is a [spec_float] of the standard library, and [*], [/], [+], [-]
    and the comparisons are the library's reference operations at precision
    53 and maximal exponent 1024 (round to nearest, ties to even).  The
    operations are evaluated one by one, as the amd64 compiler emits them
    (no fused multiply-add).

    The file has three parts: the program; a small theory of binary64
    rounding, which relates the results of the operations to the exact
    rational values of their operands; and the properties of
    [calculateAQI], [computeAQI] and [handleMessage]. *)

From Stdlib Require Import ZArith QArith Qpower Qround Qabs Bool List Lia Lqa.
From Stdlib Require Import Floats.SpecFloat.
From Stdlib Require Strings.String.
Import Strings.String.StringSyntax.
Import ListNotations.
Delimit Scope string_scope with string.

Local Open Scope Z_scope.

(** ** binary64 arithmetic *)

Module F64.

Definition prec : Z := 53.
Definition emax : Z := 1024.

Definition float64 : Type := spec_float.

(** The values a Go float64 variable can hold: NaN, the infinities, the
    zeros and the finite numbers in canonical form (53-bit mantissa, or the
    least exponent for subnormal numbers). *)
Definition valid (x : float64) : bool := valid_binary prec emax x.

Definition mul (x y : float64) : float64 := SFmul prec emax x y.
Definition div (x y : float64) : float64 := SFdiv prec emax x y.
Definition add (x y : float64) : float64 := SFadd prec emax x y.
Definition sub (x y : float64) : float64 := SFsub prec emax x y.

(** Go's [x <= y] and [x >= y] on float64: false as soon as one side is NaN. *)
Definition le (x y : float64) : bool := SFleb x y.
Definition ge (x y : float64) : bool := SFleb y x.
Definition lt (x y : float64) : bool := SFltb x y.

(** [float64(n)] for an integer [n]: the nearest binary64 number. *)
Definition ofZ (n : Z) : float64 := binary_normalize prec emax n 0 false.

(** A decimal literal with one fractional digit, [n/10], is the binary64
    number nearest to that quotient; the correctly rounded division of the
    two exactly representable integers is that number. *)
Definition dec1 (n : Z) : float64 := div (ofZ n) (ofZ 10).

(** The same with two fractional digits ([35.49] is [dec2 3549]). *)
Definition dec2 (n : Z) : float64 := div (ofZ n) (ofZ 100).

(** [math.Floor]: the greatest integer value less than or equal to [x];
    zeros, infinities and NaN are returned unchanged. *)
Definition Floor (x : float64) : float64 :=
  match x with
  | S754_finite s m e =>
      if 0 <=? e then x
      else ofZ (cond_Zopp s (Zpos m) / 2 ^ (- e))
  | _ => x
  end.

(** [math.Round]: the nearest integer, halves rounded away from zero; a
    result of magnitude zero keeps the sign of [x]. *)
Definition Round (x : float64) : float64 :=
  match x with
  | S754_finite s m e =>
      if 0 <=? e then x
      else
        let q := (Zpos m + 2 ^ (- e - 1)) / 2 ^ (- e) in
        if q =? 0 then S754_zero s else ofZ (cond_Zopp s q)
  | _ => x
  end.

(** [int(x)] on a 64-bit target: the fractional part is discarded.  The Go
    specification leaves the result open when [x] is NaN, infinite or out of
    range; amd64 yields the most negative int64 there. *)
Definition int_min : Z := - 2 ^ 63.

Definition toInt (x : float64) : Z :=
  match x with
  | S754_zero _ => 0
  | S754_finite s m e =>
      let n := if 0 <=? e then Zpos m * 2 ^ e else Zpos m / 2 ^ (- e) in
      if n <? 2 ^ 63 then cond_Zopp s n else int_min
  | _ => int_min
  end.

End F64.

Import F64.

(** ** The program *)

(** [type AQIBreakpoint struct] *)
Record AQIBreakpoint : Type := mkBP {
  ConcLow : float64;
  ConcHigh : float64;
  AQILow : Z;
  AQIHigh : Z
}.

(** [var pm25Breakpoints] *)
Definition pm25Breakpoints : list AQIBreakpoint :=
  [ mkBP (dec1 0) (dec1 120) 0 50;
    mkBP (dec1 121) (dec1 354) 51 100;
    mkBP (dec1 355) (dec1 554) 101 150;
    mkBP (dec1 555) (dec1 1504) 151 200;
    mkBP (dec1 1505) (dec1 2504) 201 300;
    mkBP (dec1 2505) (dec1 3504) 301 400;
    mkBP (dec1 3505) (dec1 5004) 401 500 ].

(** [var pm10Breakpoints] *)
Definition pm10Breakpoints : list AQIBreakpoint :=
  [ mkBP (ofZ 0) (ofZ 54) 0 50;
    mkBP (ofZ 55) (ofZ 154) 51 100;
    mkBP (ofZ 155) (ofZ 254) 101 150;
    mkBP (ofZ 255) (ofZ 354) 151 200;
    mkBP (ofZ 355) (ofZ 424) 201 300;
    mkBP (ofZ 425) (ofZ 504) 301 400;
    mkBP (ofZ 505) (ofZ 604) 401 500 ].

(** The first statement of [calculateAQI]:
    [concentration = math.Floor(concentration*10) / 10]. *)
Definition truncate (concentration : float64) : float64 :=
  div (Floor (mul concentration (ofZ 10))) (ofZ 10).

(** The test of the [if] inside the loop. *)
Definition in_tier (concentration : float64) (bp : AQIBreakpoint) : bool :=
  ge concentration (ConcLow bp) && le concentration (ConcHigh bp).

(** The float64 value [aqi] computed inside the [if]. *)
Definition interpolate (concentration : float64) (bp : AQIBreakpoint) : float64 :=
  add (mul (div (ofZ (AQIHigh bp - AQILow bp)) (sub (ConcHigh bp) (ConcLow bp)))
           (sub concentration (ConcLow bp)))
      (ofZ (AQILow bp)).

(** The [for ... range breakpoints] loop with its fall-through [return 500]. *)
Fixpoint scan (concentration : float64) (breakpoints : list AQIBreakpoint) : Z :=
  match breakpoints with
  | [] => 500
  | bp :: rest =>
      if in_tier concentration bp
      then toInt (Round (interpolate concentration bp))
      else scan concentration rest
  end.

(** [func calculateAQI(concentration float64, breakpoints []AQIBreakpoint) int] *)
Definition calculateAQI (concentration : float64) (breakpoints : list AQIBreakpoint) : Z :=
  scan (truncate concentration) breakpoints.

(** [func computeAQI(pm25, pm10 float64) int] *)
Definition computeAQI (pm25 pm10 : float64) : Z :=
  let aqiPM25 := calculateAQI pm25 pm25Breakpoints in
  let aqiPM10 := calculateAQI pm10 pm10Breakpoints in
  if aqiPM25 >? aqiPM10 then aqiPM25 else aqiPM10.

(** ** Exact values and integer roundings used to state the properties *)

(** Powers of two and dyadic numbers [m * 2^e] as rationals. *)
Definition bpow (e : Z) : Q := ((2 # 1) ^ e)%Q.

Definition valQ (m : Z) (e : Z) : Q := (inject_Z m * bpow e)%Q.

(** The rational number a finite binary64 value stands for. *)
Definition SF2Q (x : float64) : Q :=
  match x with
  | S754_finite s m e => valQ (cond_Zopp s (Zpos m)) e
  | _ => 0%Q
  end.

Definition is_finite (x : float64) : bool :=
  match x with
  | S754_zero _ | S754_finite _ _ _ => true
  | _ => false
  end.

(** Nearest integer, ties to the even neighbour. *)
Definition round_half_even (q : Q) : Z :=
  let f := Qfloor q in
  match (q - inject_Z f ?= 1 # 2)%Q with
  | Lt => f
  | Gt => f + 1
  | Eq => if Z.even f then f else f + 1
  end.

(** Nearest integer, ties away from zero. *)
Definition round_half_away (q : Q) : Z :=
  if Qle_bool 0 q then Qfloor (q + (1 # 2)) else - Qfloor (- q + (1 # 2)).

(** The tier the loop of [calculateAQI] stops at, if any. *)
Definition find_tier (concentration : float64) (breakpoints : list AQIBreakpoint)
  : option AQIBreakpoint :=
  find (in_tier concentration) breakpoints.

(** ** Vocabulary of the rounding proofs *)

(** Mantissa and exponent of a binary64 number in canonical form: a normal
    number has a 53-bit mantissa, a subnormal one the least exponent. *)
Definition canon (m : positive) (e : Z) : Prop :=
  Zpos m < 2 ^ 53 /\ (e = -1074 \/ 2 ^ 52 <= Zpos m) /\ -1074 <= e <= 971.

(** Zeros and canonical finite numbers. *)
Definition fin_valid (x : float64) : Prop :=
  match x with
  | S754_zero _ => True
  | S754_finite _ m e => canon m e
  | _ => False
  end.

(** Position of an exact value [x] with respect to the integer [m] and to
    the midpoint [m + 1/2], as the rounding functions record it. *)
Definition inbetween (m : Z) (l : location) (x : Q) : Prop :=
  match l with
  | loc_Exact => x == inject_Z m
  | loc_Inexact Lt => inject_Z m < x /\ x < inject_Z m + (1 # 2)
  | loc_Inexact Eq => x == inject_Z m + (1 # 2)
  | loc_Inexact Gt => inject_Z m + (1 # 2) < x /\ x < inject_Z m + 1
  end%Q.

Definition below_all (v : Q) : Prop :=
  forall mT eT, canon mT eT -> (v < valQ (Zpos mT) eT)%Q.

Definition above_all (v : Q) : Prop :=
  forall mT eT, canon mT eT -> (valQ (Zpos mT) eT < v)%Q.

(** [m * 2^e] is one of the two binary64 neighbours of the positive value
    [v]: no binary64 number lies strictly between them. *)
Definition faithful (v : Q) (m : positive) (e : Z) : Prop :=
  canon m e /\
  (forall mT eT, canon mT eT ->
     (valQ (Zpos mT) eT <= v)%Q -> (valQ (Zpos mT) eT <= valQ (Zpos m) e)%Q) /\
  (forall mT eT, canon mT eT ->
     (v <= valQ (Zpos mT) eT)%Q -> (valQ (Zpos m) e <= valQ (Zpos mT) eT)%Q).

(** [r] is an admissible rounding, with sign [s], of the magnitude [v]. *)
Definition rounded (s : bool) (v : Q) (r : float64) : Prop :=
  match r with
  | S754_zero s' => s' = s /\ below_all v
  | S754_finite s' m e => s' = s /\ faithful v m e
  | S754_infinity s' => s' = s /\ above_all v
  | S754_nan => False
  end.

(** ** A computable certificate for one tier

    [tier_ok] checks, by evaluation, what the bounds on [interpolate] need
    of a tier: the shape of its constants, and three thresholds, in units of
    [1/64], which dominate the width of the tier, the product with the slope
    and the final sum, the last one staying below [AQIHigh + 1/2]. *)

Definition is_nonneg_finite (x : float64) : bool :=
  match x with
  | S754_zero _ | S754_finite false _ _ => true
  | _ => false
  end.

Definition is_pos_finite (x : float64) : bool :=
  match x with
  | S754_finite false _ _ => true
  | _ => false
  end.

Definition tier_slope (bp : AQIBreakpoint) : float64 :=
  div (ofZ (AQIHigh bp - AQILow bp)) (sub (ConcHigh bp) (ConcLow bp)).

Definition tier_K1 (bp : AQIBreakpoint) : Z :=
  Qceiling ((SF2Q (ConcHigh bp) - SF2Q (ConcLow bp)) * inject_Z 64).

Definition tier_K2 (bp : AQIBreakpoint) : Z :=
  Qceiling (SF2Q (tier_slope bp) * inject_Z (tier_K1 bp)).

Definition tier_K3 (bp : AQIBreakpoint) : Z := tier_K2 bp + 64 * AQILow bp.

Definition tier_ok (bp : AQIBreakpoint) : bool :=
  valid (ConcLow bp) && is_nonneg_finite (ConcLow bp) &&
  valid (ConcHigh bp) && is_finite (ConcHigh bp) &&
  valid (tier_slope bp) && is_pos_finite (tier_slope bp) &&
  (0 <=? AQILow bp) && (AQILow bp <? 2 ^ 53) &&
  (0 <? tier_K1 bp) && (tier_K1 bp <? 2 ^ 53) &&
  (0 <? tier_K2 bp) && (tier_K2 bp <? 2 ^ 53) &&
  (tier_K3 bp <? 2 ^ 53) && (tier_K3 bp <? 64 * AQIHigh bp + 32).

(** ** Readings bounded away from zero *)

(** [x] is [+Inf] or a finite number of value at least [T]. *)
Definition at_least (T : Q) (x : float64) : Prop :=
  x = S754_infinity false \/ (fin_valid x /\ (T <= SF2Q x)%Q).

(** [x] is [-Inf] or a negative finite number of magnitude at least [T]. *)
Definition neg_at_least (T : Q) (x : float64) : Prop :=
  x = S754_infinity true \/
  exists m e, x = S754_finite true m e /\ canon m e /\ (T <= valQ (Zpos m) e)%Q.

(** ** Integer-valued binary64 numbers *)

Definition integral (m : positive) (e : Z) : Prop :=
  0 <= e \/ Zpos m mod 2 ^ (- e) = 0.

(** ** Ordered tables *)

(** The tiers of a table are finite intervals, each lying strictly below
    all the tiers that follow it. *)
Fixpoint tiers_sorted (breakpoints : list AQIBreakpoint) : bool :=
  match breakpoints with
  | [] => true
  | bp :: rest =>
      valid (ConcLow bp) && is_finite (ConcLow bp) &&
      valid (ConcHigh bp) && is_finite (ConcHigh bp) &&
      le (ConcLow bp) (ConcHigh bp) &&
      forallb (fun bp' => lt (ConcHigh bp) (ConcLow bp')) rest &&
      tiers_sorted rest
  end.

(** The index ranges of the tiers follow each other. *)
Fixpoint indices_sorted (breakpoints : list AQIBreakpoint) : bool :=
  match breakpoints with
  | [] => true
  | bp :: rest =>
      forallb (fun bp' => AQIHigh bp <=? AQILow bp') rest && indices_sorted rest
  end.

(** ** Rounding to nearest as a function of the exact value *)

(** The binary64 number of mantissa [N] and exponent [e1], where the
    mantissa may have been rounded up to [2^53]. *)
Definition round_pack (s : bool) (N e1 : Z) : float64 :=
  let M := if N =? 2 ^ 53 then 2 ^ 52 else N in
  let E := if N =? 2 ^ 53 then e1 + 1 else e1 in
  match M with
  | Z0 => S754_zero s
  | Zpos p => if E <=? 971 then S754_finite s p E else S754_infinity s
  | Zneg _ => S754_nan
  end.

(** [r] is the magnitude [v] rounded to nearest, ties to even, with sign
    [s]: [e1] is the exponent at which [v] has at most 53 digits. *)
Definition nearest (s : bool) (v : Q) (r : float64) : Prop :=
  exists e1,
    -1074 <= e1 /\ (0 <= v)%Q /\
    (v * bpow (- e1) < inject_Z (2 ^ 53))%Q /\
    (e1 = -1074 \/ (inject_Z (2 ^ 52) <= v * bpow (- e1))%Q) /\
    r = round_pack s (round_half_even (v * bpow (- e1))) e1.

(** Zeros, positive finite numbers and [+Inf]. *)
Definition nonneg (x : float64) : Prop :=
  match x with
  | S754_zero _ => True
  | S754_finite false m e => canon m e
  | S754_infinity false => True
  | _ => False
  end.

(** ** The lookup in exact arithmetic

    The loop and the formula of [calculateAQI], evaluated on rational
    numbers: the bounds of the tiers are the decimal numbers written in the
    source, the operations are exact, and the result is rounded to the
    nearest integer, halves away from zero, as [math.Round] does. *)

Record ExactBreakpoint : Type := mkExact {
  BPLo : Q;
  BPHi : Q;
  ILo : Z;
  IHi : Z
}.

Definition pm25Exact : list ExactBreakpoint :=
  [ mkExact 0.0 12.0 0 50;
    mkExact 12.1 35.4 51 100;
    mkExact 35.5 55.4 101 150;
    mkExact 55.5 150.4 151 200;
    mkExact 150.5 250.4 201 300;
    mkExact 250.5 350.4 301 400;
    mkExact 350.5 500.4 401 500 ].

Definition pm10Exact : list ExactBreakpoint :=
  [ mkExact 0 54 0 50;
    mkExact 55 154 51 100;
    mkExact 155 254 101 150;
    mkExact 255 354 151 200;
    mkExact 355 424 201 300;
    mkExact 425 504 301 400;
    mkExact 505 604 401 500 ].

Definition exact_index (Cp : Q) (breakpoints : list ExactBreakpoint) : Z :=
  match find (fun bp => Qle_bool (BPLo bp) Cp && Qle_bool Cp (BPHi bp)) breakpoints with
  | Some bp =>
      round_half_away
        (((inject_Z (IHi bp - ILo bp) / (BPHi bp - BPLo bp)) * (Cp - BPLo bp)) +
         inject_Z (ILo bp))
  | None => 500
  end.

(** The float64 lookup and the exact one agree on the one-decimal readings
    [k/10] for the first [n] integers [k]. *)
Fixpoint agree_upto (n : nat) : bool :=
  match n with
  | O => true
  | S n' =>
      let k := Z.of_nat n' in
      (scan (dec1 k) pm25Breakpoints =? exact_index (inject_Z k / 10) pm25Exact) &&
      (scan (dec1 k) pm10Breakpoints =? exact_index (inject_Z k / 10) pm10Exact) &&
      agree_upto n'
  end.

(** ** The message handler

    [handleMessage] decodes a reading, computes its AQI and publishes the
    reading extended with it.  Its collaborators are library code:
    [json.Unmarshal], [json.Marshal] and the MQTT client.  The embedding
    takes them as parameters and returns what the handler does with them,
    as the list of its log lines and publications, in order. *)

(** [type SensorReading struct] *)
Record SensorReading : Type := mkSensorReading {
  PM01 : float64;
  PM02 : float64;
  PM10 : float64;
  PM01Standard : float64;
  PM02Standard : float64;
  PM10Standard : float64;
  PM003Count : float64;
  PM005Count : float64;
  PM01Count : float64;
  PM02Count : float64;
  Atmp : float64;
  AtmpCompensated : float64;
  Rhum : float64;
  RhumCompensated : float64;
  PM02Compensated : float64;
  RCO2 : float64;
  TVOCIndex : float64;
  TVOCRaw : float64;
  NOXIndex : float64;
  NOXRaw : float64;
  Boot : Z;
  BootCount : Z;
  Wifi : Z;
  SerialNo : String.string;
  Firmware : String.string;
  Model : String.string
}.

(** [type AQIReading struct]: the embedded [SensorReading] and the index. *)
Record AQIReading : Type := mkAQIReading {
  Reading : SensorReading;
  AQI : Z
}.

(** What the handler needs of an [mqtt.Message]. *)
Record Message : Type := mkMessage {
  Topic : String.string;
  Payload : String.string
}.

(** The calls of [log.Printf] and of [client.Publish], with their
    arguments. *)
Inductive Event : Type :=
| LogProcessing (topic : String.string)
| LogParseError (err : String.string)
| LogMarshalError (err : String.string)
| Publish (topic : String.string) (qos : Z) (retained : bool) (payload : String.string)
| LogPublishError (topic err : String.string)
| LogPublished (aqi : Z) (topic : String.string).

Definition is_publish (ev : Event) : bool :=
  match ev with
  | Publish _ _ _ _ => true
  | _ => false
  end.

Section Handler.

(** [json.Unmarshal(msg.Payload(), &reading)]: the decoded reading, or
    the error. *)
Variable Unmarshal : String.string -> SensorReading + String.string.

(** [json.Marshal(aqiReading)]: the encoded message, or the error. *)
Variable Marshal : AQIReading -> String.string + String.string.

(** [token.Error()] of the token of [client.Publish], once [token.Wait()]
    has returned. *)
Variable PublishError : String.string -> Z -> bool -> String.string -> option String.string.

(** [func handleMessage(client mqtt.Client, msg mqtt.Message, outputTopic string)] *)
Definition handleMessage (msg : Message) (outputTopic : String.string) : list Event :=
  LogProcessing (Topic msg) ::
  match Unmarshal (Payload msg) with
  | inr err => [LogParseError err]
  | inl reading =>
      let aqi := computeAQI (PM02Standard reading) (PM10Standard reading) in
      let aqiReading := mkAQIReading reading aqi in
      match Marshal aqiReading with
      | inr err => [LogMarshalError err]
      | inl outputJSON =>
          Publish outputTopic 1 false outputJSON ::
          match PublishError outputTopic 1 false outputJSON with
          | Some err => [LogPublishError outputTopic err]
          | None => [LogPublished aqi outputTopic]
          end
      end
  end.

End Handler.

(** The reading of [TestEndToEndHappyPath], and collaborators that decode
    every message to it, encode every reading to a fixed text and publish
    without error. *)
Definition testInput : SensorReading :=
  mkSensorReading
    (ofZ 2) (ofZ 4) (ofZ 4)
    (ofZ 2) (dec1 357) (ofZ 45)
    (dec1 3035) (dec2 24967) (dec1 395) (ofZ 2)
    (dec1 241) (dec2 2335) (dec1 607) (dec2 8376) (dec2 261)
    (ofZ 417) (ofZ 48) (dec2 3252083) (ofZ 2) (dec2 1773108)
    2378 2378 (-69)
    "d83bda1d7660"%string "3.2.0"%string "O-1PST"%string.

Definition testUnmarshal (_ : String.string) : SensorReading + String.string :=
  inl testInput.

Definition testMarshal (_ : AQIReading) : String.string + String.string :=
  inl "{}"%string.

Definition testPublishError (_ : String.string) (_ : Z) (_ : bool) (_ : String.string)
  : option String.string := None.


(** * Rounding to binary64

    The standard library specifies the operations; the lemmas below relate
    their results to the exact rational values of the operands. *)

(** *** Powers of two and numbers of digits *)

Lemma bpow_pos e : (0 < bpow e)%Q.
Proof. apply Qpower_0_lt. reflexivity. Qed.

Lemma bpow_add a b : (bpow (a + b) == bpow a * bpow b)%Q.
Proof. apply Qpower_plus. discriminate. Qed.

Lemma bpow_Z e : 0 <= e -> (bpow e == inject_Z (2 ^ e))%Q.
Proof. intros H. unfold bpow. rewrite Zpower_Qpower by assumption. reflexivity. Qed.


Lemma bpow_le a b : a <= b -> (bpow a <= bpow b)%Q.
Proof. intros H. apply Qpower_le_compat_l; [assumption | discriminate]. Qed.

Lemma bpow_lt a b : a < b -> (bpow a < bpow b)%Q.
Proof. intros H. apply Qpower_lt_compat_l; [assumption | reflexivity]. Qed.

Lemma digits2_pos_bounds p :
  2 ^ (Zpos (digits2_pos p) - 1) <= Zpos p < 2 ^ Zpos (digits2_pos p).
Proof.
  induction p as [p IH|p IH|]; simpl digits2_pos.
  - rewrite Pos2Z.inj_succ, Z.pow_succ_r by lia.
    replace (Z.succ (Zpos (digits2_pos p)) - 1) with (Z.succ (Zpos (digits2_pos p) - 1)) by lia.
    rewrite Z.pow_succ_r by lia. lia.
  - rewrite Pos2Z.inj_succ, Z.pow_succ_r by lia.
    replace (Z.succ (Zpos (digits2_pos p)) - 1) with (Z.succ (Zpos (digits2_pos p) - 1)) by lia.
    rewrite Z.pow_succ_r by lia. lia.
  - simpl. lia.
Qed.

Lemma digits2_pos_le p k : 0 <= k -> (Zpos (digits2_pos p) <= k <-> Zpos p < 2 ^ k).
Proof.
  intros Hk. pose proof (digits2_pos_bounds p) as [Hl Hu]. split; intros H.
  - apply Z.lt_le_trans with (1 := Hu). apply Z.pow_le_mono_r; lia.
  - destruct (Z_le_gt_dec (Zpos (digits2_pos p)) k) as [|Hgt]; [assumption|].
    exfalso. assert (2 ^ k <= 2 ^ (Zpos (digits2_pos p) - 1)) by (apply Z.pow_le_mono_r; lia).
    lia.
Qed.

Lemma bounded_canon m e : bounded 53 1024 m e = true <-> canon m e.
Proof.
  unfold bounded, canonical_mantissa, fexp, emin, canon.
  rewrite andb_true_iff, Z.eqb_eq, Z.leb_le.
  pose proof (digits2_pos_le m 53 ltac:(lia)) as H53.
  pose proof (digits2_pos_le m 52 ltac:(lia)) as H52.
  change (3 - 1024 - 53) with (-1074). change (1024 - 53) with 971.
  split.
  - intros [Hc He]. lia.
  - intros (Hm & Hn & He). lia.
Qed.

(** *** Shifting a mantissa to the right *)

Lemma inbetween_ext m l x y : (x == y)%Q -> inbetween m l x -> inbetween m l y.
Proof.
  intros E. destruct l as [|[| |]]; unfold inbetween; rewrite E; trivial.
Qed.

Lemma inject_Z_xO p : (inject_Z (Zpos p~0) == 2 * inject_Z (Zpos p))%Q.
Proof. rewrite Pos2Z.inj_xO, inject_Z_mult. reflexivity. Qed.

Lemma inject_Z_xI p : (inject_Z (Zpos p~1) == 2 * inject_Z (Zpos p) + 1)%Q.
Proof. rewrite Pos2Z.inj_xI, inject_Z_plus, inject_Z_mult. reflexivity. Qed.

Lemma loc_of_shr_record_of_loc m l :
  loc_of_shr_record (shr_record_of_loc m l) = l.
Proof. destruct l as [|[| |]]; reflexivity. Qed.

Lemma shr_m_record_of_loc m l : shr_m (shr_record_of_loc m l) = m.
Proof. destruct l as [|[| |]]; reflexivity. Qed.

Lemma shr_1_inbetween (r : shr_record) (x : Q) :
  0 <= shr_m r ->
  inbetween (shr_m r) (loc_of_shr_record r) x ->
  0 <= shr_m (shr_1 r) /\
  shr_m (shr_1 r) = shr_m r / 2 /\
  inbetween (shr_m (shr_1 r)) (loc_of_shr_record (shr_1 r)) (x * (1 # 2)).
Proof.
  destruct r as [m r s]. simpl shr_m at 1 2. intros Hm Hx.
  destruct m as [|[p|p|]|]; try lia.
  - change (inject_Z 0) with 0%Q in *.
    destruct r, s; simpl in *; change (inject_Z 0) with 0%Q in *;
      repeat split; try lia; try lra.
  - pose proof (inject_Z_xI p) as E.
    assert (Zpos p~1 / 2 = Zpos p) as D
      by (rewrite Pos2Z.inj_xI; symmetry; apply Z.div_unique with 1; lia).
    destruct r, s; simpl in *; rewrite ?D; repeat split; try lia; try lra.
  - pose proof (inject_Z_xO p) as E.
    assert (Zpos p~0 / 2 = Zpos p) as D
      by (rewrite Pos2Z.inj_xO; symmetry; apply Z.div_unique with 0; lia).
    destruct r, s; simpl in *; rewrite ?D; repeat split; try lia; try lra.
  - destruct r, s; simpl in *;
      change (inject_Z 0) with 0%Q in *; change (inject_Z 1) with 1%Q in *;
      repeat split; try lia; try lra.
Qed.

Lemma iter_pos_shr_1 (p : positive) :
  forall (r : shr_record) (x : Q),
  0 <= shr_m r ->
  inbetween (shr_m r) (loc_of_shr_record r) x ->
  0 <= shr_m (iter_pos shr_1 p r) /\
  shr_m (iter_pos shr_1 p r) = shr_m r / 2 ^ Zpos p /\
  inbetween (shr_m (iter_pos shr_1 p r)) (loc_of_shr_record (iter_pos shr_1 p r))
            (x * bpow (- Zpos p)).
Proof.
  assert (Hhalf : forall a b, 0 < a -> 0 < b -> forall m, m / a / b = m / (a * b)).
  { intros a b Ha Hb m. apply Z.div_div; lia. }
  induction p as [p IH|p IH|]; intros r x Hm Hx; simpl iter_pos.
  - destruct (shr_1_inbetween r x Hm Hx) as (H1 & E1 & I1).
    destruct (IH _ _ H1 I1) as (H2 & E2 & I2).
    destruct (IH _ _ H2 I2) as (H3 & E3 & I3).
    split; [assumption|]. split.
    + assert (2 ^ Zpos p~1 = 2 * (2 ^ Zpos p * 2 ^ Zpos p)) as P.
      { rewrite Pos2Z.inj_xI.
        replace (2 * Zpos p + 1) with (1 + Zpos p + Zpos p) by lia.
        rewrite !Z.pow_add_r by lia. change (2 ^ 1) with 2. ring. }
      rewrite E3, E2, E1, !Hhalf, P by lia. reflexivity.
    + assert ((x * (1 # 2) * bpow (- Zpos p) * bpow (- Zpos p) == x * bpow (- Zpos p~1))%Q) as E.
      { rewrite Pos2Z.inj_xI.
        replace (- (2 * Zpos p + 1)) with (-1 + (- Zpos p + - Zpos p)) by lia.
        rewrite !bpow_add. change (bpow (-1)) with (1 # 2)%Q. ring. }
      exact (inbetween_ext _ _ _ _ E I3).
  - destruct (IH _ _ Hm Hx) as (H2 & E2 & I2).
    destruct (IH _ _ H2 I2) as (H3 & E3 & I3).
    split; [assumption|]. split.
    + assert (2 ^ Zpos p~0 = 2 ^ Zpos p * 2 ^ Zpos p) as P.
      { replace (Zpos p~0) with (Zpos p + Zpos p) by lia.
        rewrite Z.pow_add_r by lia. reflexivity. }
      rewrite E3, E2, !Hhalf, P by lia. reflexivity.
    + assert ((x * bpow (- Zpos p) * bpow (- Zpos p) == x * bpow (- Zpos p~0))%Q) as E.
      { rewrite Pos2Z.inj_xO.
        replace (- (2 * Zpos p)) with (- Zpos p + - Zpos p) by lia.
        rewrite !bpow_add. ring. }
      exact (inbetween_ext _ _ _ _ E I3).
  - destruct (shr_1_inbetween r x Hm Hx) as (H1 & E1 & I1).
    split; [assumption|]. split; [exact E1|]. exact I1.
Qed.

(** *** Dyadic values and canonical numbers *)

Lemma Zdigits2_bounds m :
  0 <= m -> 0 <= Zdigits2 m /\ m < 2 ^ Zdigits2 m /\ (0 < m -> 2 ^ (Zdigits2 m - 1) <= m).
Proof.
  intros Hm. destruct m as [|p|p]; try lia.
  - simpl. lia.
  - pose proof (digits2_pos_bounds p). simpl Zdigits2. lia.
Qed.

Lemma valQ_shift m e k : 0 <= k -> (valQ (m * 2 ^ k) e == valQ m (e + k))%Q.
Proof.
  intros Hk. unfold valQ. rewrite inject_Z_mult, <- bpow_Z, bpow_add by assumption. ring.
Qed.

Lemma valQ_le_mono m1 m2 e : m1 <= m2 -> (valQ m1 e <= valQ m2 e)%Q.
Proof.
  intros H. unfold valQ. apply Qmult_le_compat_r.
  - rewrite <- Zle_Qle. assumption.
  - apply Qlt_le_weak, bpow_pos.
Qed.

Lemma valQ_le_inv m1 m2 e : (valQ m1 e <= valQ m2 e)%Q -> m1 <= m2.
Proof.
  unfold valQ. intros H. apply Qmult_le_r in H; [|apply bpow_pos].
  rewrite Zle_Qle. assumption.
Qed.

Lemma valQ_lt_inv m1 m2 e : (valQ m1 e < valQ m2 e)%Q -> m1 < m2.
Proof.
  unfold valQ. intros H. apply Qmult_lt_r in H; [|apply bpow_pos].
  rewrite Zlt_Qlt. assumption.
Qed.

(** A canonical number with a smaller exponent lies below every number
    of the next binade. *)
Lemma canon_below_binade mT eT m1 e1 :
  canon mT eT -> eT < e1 -> 2 ^ 52 <= m1 ->
  (valQ (Zpos mT) eT < valQ m1 e1)%Q.
Proof.
  intros (HmT & _ & _) He Hm1. unfold valQ.
  assert (bpow eT <= bpow (e1 - 1))%Q as B1 by (apply bpow_le; lia).
  assert (bpow e1 == 2 * bpow (e1 - 1))%Q as B2.
  { replace e1 with (1 + (e1 - 1)) at 1 by lia. rewrite bpow_add. reflexivity. }
  pose proof (bpow_pos eT) as P1. pose proof (bpow_pos (e1 - 1)) as P2.
  assert (inject_Z (Zpos mT) < inject_Z (2 ^ 53))%Q as Q1 by (rewrite <- Zlt_Qlt; assumption).
  assert (inject_Z (2 ^ 52) <= inject_Z m1)%Q as Q2 by (rewrite <- Zle_Qle; assumption).
  assert (0 < inject_Z (Zpos mT))%Q as Q3 by (change 0%Q with (inject_Z 0); rewrite <- Zlt_Qlt; lia).
  assert (inject_Z (2 ^ 53) == 2 * inject_Z (2 ^ 52))%Q as Q4 by reflexivity.
  rewrite B2.
  apply Qlt_le_trans with (inject_Z (2 ^ 53) * bpow (e1 - 1))%Q.
  - apply Qle_lt_trans with (inject_Z (Zpos mT) * bpow (e1 - 1))%Q.
    + apply Qmult_le_l; assumption.
    + apply Qmult_lt_r; assumption.
  - rewrite Q4.
    setoid_replace (2 * inject_Z (2 ^ 52) * bpow (e1 - 1))%Q
      with (inject_Z (2 ^ 52) * (2 * bpow (e1 - 1)))%Q by ring.
    apply Qmult_le_r; [lra | assumption].
Qed.

Lemma lattice_below mT eT m1 e1 x1 :
  canon mT eT -> -1074 <= e1 -> (e1 = -1074 \/ 2 ^ 52 <= m1) ->
  (x1 < inject_Z m1 + 1)%Q ->
  (valQ (Zpos mT) eT <= x1 * bpow e1)%Q ->
  (valQ (Zpos mT) eT <= valQ m1 e1)%Q.
Proof.
  intros HT He1 Hn Hx Hle.
  destruct (Z_le_gt_dec e1 eT) as [Hge|Hlt].
  - assert (valQ (Zpos mT) eT == valQ (Zpos mT * 2 ^ (eT - e1)) e1)%Q as E.
    { rewrite valQ_shift by lia. replace (e1 + (eT - e1)) with eT by lia. reflexivity. }
    rewrite E in *. apply valQ_le_mono.
    assert (Zpos mT * 2 ^ (eT - e1) < m1 + 1); [|lia].
    rewrite Zlt_Qlt, inject_Z_plus.
    unfold valQ in Hle. apply Qmult_le_r in Hle; [|apply bpow_pos].
    change (inject_Z 1) with 1%Q. lra.
  - apply Qlt_le_weak, canon_below_binade; try assumption; try lia.
    destruct HT as (_ & _ & ?). lia.
Qed.

Lemma lattice_above mT eT m1 e1 x1 :
  canon mT eT -> -1074 <= e1 -> (e1 = -1074 \/ 2 ^ 52 <= m1) ->
  (inject_Z m1 < x1)%Q ->
  (x1 * bpow e1 <= valQ (Zpos mT) eT)%Q ->
  (valQ (m1 + 1) e1 <= valQ (Zpos mT) eT)%Q.
Proof.
  intros HT He1 Hn Hx Hle.
  destruct (Z_le_gt_dec e1 eT) as [Hge|Hlt].
  - assert (valQ (Zpos mT) eT == valQ (Zpos mT * 2 ^ (eT - e1)) e1)%Q as E.
    { rewrite valQ_shift by lia. replace (e1 + (eT - e1)) with eT by lia. reflexivity. }
    rewrite E in *. apply valQ_le_mono.
    assert (m1 < Zpos mT * 2 ^ (eT - e1)); [|lia].
    rewrite Zlt_Qlt.
    unfold valQ in Hle. apply Qmult_le_r in Hle; [|apply bpow_pos].
    lra.
  - exfalso.
    assert (2 ^ 52 <= m1) as Hm1 by (destruct HT as (_ & _ & ?); lia).
    pose proof (canon_below_binade mT eT m1 e1 HT ltac:(lia) Hm1) as Hc.
    unfold valQ in *.
    assert (inject_Z m1 * bpow e1 < x1 * bpow e1)%Q
      by (apply Qmult_lt_r; [apply bpow_pos | assumption]).
    lra.
Qed.

(** *** Alignment on the canonical exponent *)

Lemma fexp64 z : fexp 53 1024 z = Z.max (z - 53) (-1074).
Proof. reflexivity. Qed.

Lemma shr_fexp_exact m e l x :
  0 <= m -> inbetween m l x -> e <= fexp 53 1024 (Zdigits2 m + e) ->
  snd (shr_fexp 53 1024 m e l) = fexp 53 1024 (Zdigits2 m + e) /\
  inbetween (shr_m (fst (shr_fexp 53 1024 m e l)))
            (loc_of_shr_record (fst (shr_fexp 53 1024 m e l)))
            (x * bpow (e - fexp 53 1024 (Zdigits2 m + e))) /\
  0 <= shr_m (fst (shr_fexp 53 1024 m e l)) < 2 ^ 53 /\
  (fexp 53 1024 (Zdigits2 m + e) = -1074 \/
   2 ^ 52 <= shr_m (fst (shr_fexp 53 1024 m e l))).
Proof.
  intros Hm Hx He. unfold shr_fexp. rewrite fexp64 in *.
  destruct (Zdigits2_bounds m Hm) as (Hd0 & Hdu & Hdl).
  set (d := Zdigits2 m) in *.
  remember (Z.max (d + e - 53) (-1074) - e) as n eqn:En.
  destruct n as [|p|p]; [| |lia].
  - (* no shift *)
    cbn [shr fst snd]. rewrite shr_m_record_of_loc, loc_of_shr_record_of_loc.
    split; [lia|]. split.
    { apply inbetween_ext with (2 := Hx).
      replace (e - Z.max (d + e - 53) (-1074)) with 0 by lia.
      change (bpow 0) with 1%Q. ring. }
    assert (d <= 53) by lia.
    assert (2 ^ d <= 2 ^ 53) by (apply Z.pow_le_mono_r; lia).
    split; [lia|].
    destruct (Z_le_gt_dec e (-1074)) as [|Hgt]; [left; lia|right].
    assert (d = 53) as Ed by lia. rewrite Ed in Hdl.
    apply Hdl. destruct (Z.eq_dec m 0) as [->|]; [|lia]. cbn in Ed. lia.
  - (* shift by p *)
    cbn [shr fst snd].
    destruct (iter_pos_shr_1 p (shr_record_of_loc m l) x) as (H0 & E & I).
    { rewrite shr_m_record_of_loc. assumption. }
    { rewrite shr_m_record_of_loc, loc_of_shr_record_of_loc. assumption. }
    rewrite shr_m_record_of_loc in E.
    split; [lia|]. split.
    { replace (e - Z.max (d + e - 53) (-1074)) with (- Zpos p) by lia. assumption. }
    rewrite E.
    assert (0 < 2 ^ Zpos p) as Hpp by (apply Z.pow_pos_nonneg; lia).
    assert (m / 2 ^ Zpos p < 2 ^ 53) as Hub.
    { apply Z.div_lt_upper_bound; [assumption|].
      rewrite <- Z.pow_add_r by lia.
      apply Z.lt_le_trans with (1 := Hdu). apply Z.pow_le_mono_r; lia. }
    split; [split; [apply Z.div_pos; lia | assumption]|].
    destruct (Z_le_gt_dec (d + e - 53) (-1074)) as [|Hgt]; [left; lia|right].
    assert (Zpos p = d - 53) as Ep by lia.
    apply Z.div_le_lower_bound; [assumption|].
    rewrite <- Z.pow_add_r, Ep by lia.
    replace (d - 53 + 52) with (d - 1) by lia.
    apply Hdl. destruct (Z.eq_dec m 0) as [->|]; [|lia]. cbn in d. lia.
Qed.

Lemma shr_fexp_spec m e l x :
  0 <= m -> inbetween m l x -> e <= fexp 53 1024 (Zdigits2 m + e) ->
  exists x1,
    inbetween (shr_m (fst (shr_fexp 53 1024 m e l)))
              (loc_of_shr_record (fst (shr_fexp 53 1024 m e l))) x1 /\
    (x1 * bpow (snd (shr_fexp 53 1024 m e l)) == x * bpow e)%Q /\
    0 <= shr_m (fst (shr_fexp 53 1024 m e l)) < 2 ^ 53 /\
    -1074 <= snd (shr_fexp 53 1024 m e l) /\
    (snd (shr_fexp 53 1024 m e l) = -1074 \/
     2 ^ 52 <= shr_m (fst (shr_fexp 53 1024 m e l))).
Proof.
  intros Hm Hx He.
  destruct (shr_fexp_exact m e l x Hm Hx He) as (E1 & I1 & B1 & N1).
  exists (x * bpow (e - fexp 53 1024 (Zdigits2 m + e)))%Q.
  rewrite E1. split; [assumption|]. split.
  { rewrite <- Qmult_assoc, <- bpow_add.
    replace (e - fexp 53 1024 (Zdigits2 m + e) + fexp 53 1024 (Zdigits2 m + e)) with e by lia.
    reflexivity. }
  split; [assumption|]. split; [rewrite fexp64; lia | assumption].
Qed.

Lemma shr_fexp_renorm m2 e1 :
  0 <= m2 <= 2 ^ 53 -> -1074 <= e1 ->
  (valQ (shr_m (fst (shr_fexp 53 1024 m2 e1 loc_Exact)))
        (snd (shr_fexp 53 1024 m2 e1 loc_Exact)) == valQ m2 e1)%Q /\
  (m2 < 2 ^ 53 ->
     shr_m (fst (shr_fexp 53 1024 m2 e1 loc_Exact)) = m2 /\
     snd (shr_fexp 53 1024 m2 e1 loc_Exact) = e1) /\
  (m2 = 2 ^ 53 ->
     shr_m (fst (shr_fexp 53 1024 m2 e1 loc_Exact)) = 2 ^ 52 /\
     snd (shr_fexp 53 1024 m2 e1 loc_Exact) = e1 + 1).
Proof.
  intros Hm He.
  destruct (Z.eq_dec m2 (2 ^ 53)) as [->|Hne].
  - unfold shr_fexp. rewrite fexp64. change (Zdigits2 (2 ^ 53)) with 54.
    replace (Z.max (54 + e1 - 53) (-1074) - e1) with 1 by lia.
    simpl fst. simpl snd. change (shr_m _) with (2 ^ 52).
    split; [|split; [lia | intros _; split; reflexivity]].
    unfold valQ. rewrite bpow_add. change (bpow 1) with 2%Q.
    change (inject_Z (2 ^ 53)) with (2 * inject_Z (2 ^ 52))%Q. ring.
  - assert (m2 < 2 ^ 53) as Hlt by lia.
    destruct (Zdigits2_bounds m2 ltac:(lia)) as (Hd0 & Hdu & Hdl).
    assert (Zdigits2 m2 <= 53) as Hd.
    { destruct (Z.eq_dec m2 0) as [->|]; [simpl; lia|].
      destruct (Z_le_gt_dec (Zdigits2 m2) 53); [assumption|exfalso].
      assert (2 ^ 53 <= 2 ^ (Zdigits2 m2 - 1)) by (apply Z.pow_le_mono_r; lia).
      specialize (Hdl ltac:(lia)). lia. }
    unfold shr_fexp. rewrite fexp64.
    remember (Z.max (Zdigits2 m2 + e1 - 53) (-1074) - e1) as n eqn:En.
    destruct n as [|p|p]; [| lia |]; simpl; (split; [reflexivity|]); split; try lia;
      intros _; split; reflexivity.
Qed.

(** *** [binary_round_aux] returns a neighbour of the exact value *)

Lemma rounded_ext s v w r : (v == w)%Q -> rounded s v r -> rounded s w r.
Proof.
  intros E. destruct r as [s'|s'| |s' m e]; simpl; trivial.
  - intros [? H]; split; [assumption|]. intros mT eT HT. rewrite <- E. auto.
  - intros [? H]; split; [assumption|]. intros mT eT HT. rewrite <- E. auto.
  - intros [? (Hc & Hl & Hu)]; split; [assumption|]. split; [assumption|].
    split; intros mT eT HT; rewrite <- E; auto.
Qed.

Lemma inbetween_bounds m l x :
  inbetween m l x -> (inject_Z m <= x /\ x < inject_Z m + 1)%Q.
Proof. destruct l as [|[| |]]; simpl; intros H; lra. Qed.

Lemma round_nearest_even_cases m l x :
  inbetween m l x ->
  round_nearest_even m l = m \/
  (round_nearest_even m l = m + 1 /\ (inject_Z m < x)%Q).
Proof.
  destruct l as [|[| |]]; simpl; intros H; auto.
  - destruct (Z.even m); [left; reflexivity | right; split; [reflexivity | lra]].
  - right. split; [reflexivity | lra].
Qed.

Lemma canon_ge_min mT eT : canon mT eT -> (bpow (-1074) <= valQ (Zpos mT) eT)%Q.
Proof.
  intros (_ & _ & He). unfold valQ.
  assert (bpow (-1074) <= bpow eT)%Q by (apply bpow_le; lia).
  assert (1 <= inject_Z (Zpos mT))%Q by (change 1%Q with (inject_Z 1); rewrite <- Zle_Qle; lia).
  pose proof (bpow_pos eT). pose proof (bpow_pos (-1074)).
  apply Qle_trans with (1 * bpow eT)%Q; [lra|].
  apply Qmult_le_compat_r; lra.
Qed.

Lemma binary_round_aux_rounded s m e l x :
  0 <= m -> inbetween m l x -> e <= fexp 53 1024 (Zdigits2 m + e) ->
  rounded s (x * bpow e) (binary_round_aux 53 1024 s m e l).
Proof.
  intros Hm Hx He. unfold binary_round_aux.
  destruct (shr_fexp_spec m e l x Hm Hx He) as (x1 & I1 & V1 & B1 & E1 & N1).
  destruct (shr_fexp 53 1024 m e l) as [r1 e1]. cbn [fst snd] in *.
  set (m1 := shr_m r1) in *. set (l1 := loc_of_shr_record r1) in *.
  apply rounded_ext with (1 := V1).
  destruct (inbetween_bounds _ _ _ I1) as [Lx Ux].
  pose proof (round_nearest_even_cases m1 l1 x1 I1) as R.
  set (m2 := round_nearest_even m1 l1) in *.
  assert (forall mT eT, canon mT eT ->
            (valQ (Zpos mT) eT <= x1 * bpow e1)%Q ->
            (valQ (Zpos mT) eT <= valQ m2 e1)%Q) as TB.
  { intros mT eT HT Hle.
    apply Qle_trans with (valQ m1 e1).
    - apply lattice_below with x1; assumption.
    - apply valQ_le_mono. lia. }
  assert (forall mT eT, canon mT eT ->
            (x1 * bpow e1 <= valQ (Zpos mT) eT)%Q ->
            (valQ m2 e1 <= valQ (Zpos mT) eT)%Q) as TA.
  { intros mT eT HT Hle. destruct R as [->|[-> Hlt]].
    - apply Qle_trans with (2 := Hle). unfold valQ.
      apply Qmult_le_compat_r; [assumption | apply Qlt_le_weak, bpow_pos].
    - apply lattice_above with x1; assumption. }
  destruct (shr_fexp_renorm m2 e1 ltac:(lia) E1) as (V3 & S3 & S3').
  destruct (shr_fexp 53 1024 m2 e1 loc_Exact) as [r3 e3]. cbn [fst snd] in *.
  assert (0 <= shr_m r3 < 2 ^ 53 /\ -1074 <= e3 /\ (e3 = -1074 \/ 2 ^ 52 <= shr_m r3) /\
          (shr_m r3 = 0 -> m1 = 0)) as (B3 & E3 & N3 & Z3).
  { destruct (Z.eq_dec m2 (2 ^ 53)) as [Eq|Ne].
    - destruct (S3' Eq) as [-> ->]. lia.
    - destruct (S3 ltac:(lia)) as [-> ->]. lia. }
  destruct (shr_m r3) as [|m3|m3] eqn:M3; [| |lia].
  - (* underflow to zero *)
    split; [reflexivity|]. intros mT eT HT.
    apply Qlt_le_trans with (2 := canon_ge_min _ _ HT).
    specialize (Z3 eq_refl). rewrite Z3 in Ux, N1.
    assert (e1 = -1074) as -> by lia.
    change (inject_Z 0) with 0%Q in Ux.
    setoid_replace (bpow (-1074)) with (1 * bpow (-1074))%Q at 2 by ring.
    apply Qmult_lt_r; [apply bpow_pos | lra].
  - destruct (Z.leb_spec e3 (1024 - 53)) as [Hfin|Hovf].
    + split; [reflexivity|]. split; [unfold canon; lia|].
      split; intros mT eT HT Hle; rewrite V3; auto.
    + split; [reflexivity|]. intros mT eT HT.
      apply Qnot_le_lt. intros Hle.
      specialize (TA _ _ HT Hle). rewrite <- V3 in TA.
      assert (valQ (Zpos mT) eT < valQ (Zpos m3) e3)%Q.
      { apply canon_below_binade; try assumption; destruct HT as (_ & _ & ?); lia. }
      lra.
Qed.

(** *** Multiplication and normalisation *)

Lemma Zdigits2_ge m k : 0 <= k -> 2 ^ k <= m -> k + 1 <= Zdigits2 m.
Proof.
  intros Hk Hm.
  assert (0 < 2 ^ k) by (apply Z.pow_pos_nonneg; lia).
  destruct (Zdigits2_bounds m ltac:(lia)) as (Hd0 & Hdu & _).
  destruct (Z_le_gt_dec (k + 1) (Zdigits2 m)); [assumption|exfalso].
  assert (2 ^ Zdigits2 m <= 2 ^ k) by (apply Z.pow_le_mono_r; lia). lia.
Qed.

Lemma inbetween_exact m : inbetween m loc_Exact (inject_Z m).
Proof. simpl. reflexivity. Qed.

Lemma mul_rounded sx mx ex sy my ey :
  canon mx ex -> canon my ey ->
  rounded (xorb sx sy) (valQ (Zpos mx) ex * valQ (Zpos my) ey)
          (SFmul 53 1024 (S754_finite sx mx ex) (S754_finite sy my ey)).
Proof.
  intros (Hx1 & Hx2 & Hx3) (Hy1 & Hy2 & Hy3). cbn [SFmul].
  apply rounded_ext with (inject_Z (Zpos (mx * my)) * bpow (ex + ey))%Q.
  { unfold valQ. rewrite Pos2Z.inj_mul, inject_Z_mult, bpow_add. ring. }
  apply binary_round_aux_rounded; [lia | apply inbetween_exact |].
  rewrite fexp64.
  destruct (Z_le_gt_dec (ex + ey) (-1074)) as [|Hgt]; [lia|].
  assert (2 ^ 52 <= Zpos (mx * my)) as Hm.
  { rewrite Pos2Z.inj_mul. destruct Hx2 as [->|Hx2]; [destruct Hy2 as [->|Hy2]; [lia|]|]; nia. }
  pose proof (Zdigits2_ge _ 52 ltac:(lia) Hm). lia.
Qed.

Lemma digits2_pos_iter_xO m k :
  Zpos (digits2_pos (Pos.iter xO m k)) = Zpos (digits2_pos m) + Zpos k /\
  Zpos (Pos.iter xO m k) = Zpos m * 2 ^ Zpos k.
Proof.
  induction k as [|k IH] using Pos.peano_ind.
  - simpl. split; [lia|]. rewrite Pos2Z.inj_xO. lia.
  - rewrite Pos.iter_succ. destruct IH as [IH1 IH2]. cbn [digits2_pos]. split.
    + rewrite Pos2Z.inj_succ, IH1. lia.
    + rewrite Pos2Z.inj_xO, IH2, Pos2Z.inj_succ, Z.pow_succ_r by lia. ring.
Qed.

Lemma binary_round_rounded s m e :
  rounded s (valQ (Zpos m) e) (binary_round 53 1024 s m e).
Proof.
  unfold binary_round, shl_align. rewrite fexp64.
  remember (Z.max (Zpos (digits2_pos m) + e - 53) (-1074) - e) as n eqn:En.
  destruct n as [|p|p].
  - apply rounded_ext with (inject_Z (Zpos m) * bpow e)%Q; [reflexivity|].
    apply binary_round_aux_rounded; [lia | apply inbetween_exact |].
    rewrite fexp64. cbn [Zdigits2]. lia.
  - apply rounded_ext with (inject_Z (Zpos m) * bpow e)%Q; [reflexivity|].
    apply binary_round_aux_rounded; [lia | apply inbetween_exact |].
    rewrite fexp64. cbn [Zdigits2]. lia.
  - destruct (digits2_pos_iter_xO m p) as [D V].
    apply rounded_ext with (inject_Z (Zpos (Pos.iter xO m p)) *
                            bpow (Z.max (Zpos (digits2_pos m) + e - 53) (-1074)))%Q.
    { rewrite V. fold (valQ (Zpos m * 2 ^ Zpos p) (Z.max (Zpos (digits2_pos m) + e - 53) (-1074))).
      rewrite valQ_shift by lia.
      replace (Z.max (Zpos (digits2_pos m) + e - 53) (-1074) + Zpos p) with e by lia.
      reflexivity. }
    apply binary_round_aux_rounded; [lia | apply inbetween_exact |].
    rewrite fexp64. cbn [Zdigits2]. rewrite D. lia.
Qed.

Lemma canon_unique m1 e1 m2 e2 :
  canon m1 e1 -> canon m2 e2 ->
  (valQ (Zpos m1) e1 == valQ (Zpos m2) e2)%Q -> m1 = m2 /\ e1 = e2.
Proof.
  intros H1 H2 E.
  assert (e1 = e2) as ->.
  { destruct (Z.lt_trichotomy e1 e2) as [L|[?|L]]; [exfalso|assumption|exfalso].
    - pose proof (canon_below_binade m1 e1 (Zpos m2) e2 H1 L) as C.
      destruct H1 as (_ & _ & ?), H2 as (_ & ? & _). specialize (C ltac:(lia)). lra.
    - pose proof (canon_below_binade m2 e2 (Zpos m1) e1 H2 L) as C.
      destruct H2 as (_ & _ & ?), H1 as (_ & ? & _). specialize (C ltac:(lia)). lra. }
  split; [|reflexivity].
  assert (Zpos m1 <= Zpos m2) by (apply valQ_le_inv with e2; lra).
  assert (Zpos m2 <= Zpos m1) by (apply valQ_le_inv with e2; lra).
  lia.
Qed.

(** Rounding a representable value returns it. *)
Lemma rounded_representable s mT eT r :
  canon mT eT -> rounded s (valQ (Zpos mT) eT) r -> r = S754_finite s mT eT.
Proof.
  intros HT. destruct r as [s'|s'| |s' m e]; simpl.
  - intros [_ H]. specialize (H _ _ HT). lra.
  - intros [_ H]. specialize (H _ _ HT). lra.
  - intros [].
  - intros [-> (Hc & Hl & Hu)].
    specialize (Hl _ _ HT ltac:(lra)). specialize (Hu _ _ HT ltac:(lra)).
    destruct (canon_unique m e mT eT Hc HT ltac:(lra)) as [-> ->]. reflexivity.
Qed.

(** *** Division *)

Lemma new_location_inbetween q nb k :
  0 < nb -> 0 <= k < nb ->
  inbetween q (new_location nb k) (inject_Z q + inject_Z k / inject_Z nb).
Proof.
  intros Hnb Hk.
  assert (0 < inject_Z nb)%Q as Pn by (change 0%Q with (inject_Z 0); rewrite <- Zlt_Qlt; lia).
  assert (0 <= inject_Z k)%Q as Pk by (change 0%Q with (inject_Z 0); rewrite <- Zle_Qle; lia).
  assert (inject_Z k < inject_Z nb)%Q as Pkn by (rewrite <- Zlt_Qlt; lia).
  set (f := (inject_Z k / inject_Z nb)%Q).
  assert (f * inject_Z nb == inject_Z k)%Q as Ef by (unfold f; field; lra).
  assert (forall c, (inject_Z (2 * k) ?= inject_Z nb)%Q = c ->
            match c with
            | Lt => (f < 1 # 2)%Q
            | Eq => (f == 1 # 2)%Q
            | Gt => (1 # 2 < f)%Q
            end) as Hc.
  { intros c Hcmp. rewrite inject_Z_mult in Hcmp. change (inject_Z 2) with 2%Q in Hcmp.
    destruct c.
    - apply Qeq_alt in Hcmp. nra.
    - apply Qlt_alt in Hcmp. nra.
    - apply Qgt_alt in Hcmp. nra. }
  assert (k <> 0 -> (0 < f)%Q) as Hf0.
  { intros Hk0. assert (0 < inject_Z k)%Q
      by (change 0%Q with (inject_Z 0); rewrite <- Zlt_Qlt; lia). nra. }
  assert (f < 1)%Q as Hf1 by nra.
  assert (forall a b, (inject_Z a ?= inject_Z b)%Q = (a ?= b)) as Hinj.
  { intros a b. unfold Qcompare. simpl. rewrite !Z.mul_1_r. reflexivity. }
  destruct (Z.eqb_spec k 0) as [E0|Hk0].
  - assert (new_location nb k = loc_Exact) as ->.
    { unfold new_location, new_location_even, new_location_odd.
      destruct (Z.even nb); rewrite E0; reflexivity. }
    cbn [inbetween]. unfold f. rewrite E0. change (inject_Z 0) with 0%Q. field. lra.
  - specialize (Hf0 Hk0). clearbody f.
    apply Z.eqb_neq in Hk0. unfold new_location.
    destruct (Z.even nb) eqn:Ev.
    + unfold new_location_even. rewrite Hk0.
      specialize (Hc (2 * k ?= nb)). rewrite Hinj in Hc. specialize (Hc eq_refl).
      destruct (2 * k ?= nb); cbn [inbetween]; lra.
    + unfold new_location_odd. rewrite Hk0.
      assert (2 * k <> nb) as Hodd.
      { intros <-. rewrite Z.even_mul in Ev. discriminate. }
      specialize (Hc (2 * k ?= nb)). rewrite Hinj in Hc. specialize (Hc eq_refl).
      destruct (Z.compare_spec (2 * k + 1) nb) as [E|L|G]; cbn [inbetween].
      * assert ((2 * k ?= nb) = Lt) as C by (apply Z.compare_lt_iff; lia).
        rewrite C in Hc. lra.
      * assert ((2 * k ?= nb) = Lt) as C by (apply Z.compare_lt_iff; lia).
        rewrite C in Hc. lra.
      * assert ((2 * k ?= nb) = Gt) as C by (apply Z.compare_gt_iff; lia).
        rewrite C in Hc. lra.
Qed.

Lemma div_rounded sx mx ex sy my ey :
  rounded (xorb sx sy) (valQ (Zpos mx) ex / valQ (Zpos my) ey)
          (SFdiv 53 1024 (S754_finite sx mx ex) (S754_finite sy my ey)).
Proof.
  cbn [SFdiv]. unfold SFdiv_core_binary. rewrite fexp64. cbn [Zdigits2].
  pose proof (digits2_pos_bounds mx) as [Hxl Hxu].
  pose proof (digits2_pos_bounds my) as [Hyl Hyu].
  set (d1 := Zpos (digits2_pos mx)) in *. set (d2 := Zpos (digits2_pos my)) in *.
  set (e' := Z.min (Z.max (d1 + ex - (d2 + ey) - 53) (-1074)) (ex - ey)).
  set (s := ex - ey - e').
  assert (0 <= s) as Hs by (unfold s, e'; lia).
  assert (match s with Z.pos _ => Z.shiftl (Zpos mx) s | 0 => Zpos mx | Z.neg _ => 0 end
          = Zpos mx * 2 ^ s) as ->.
  { destruct s; [lia | rewrite Z.shiftl_mul_pow2; lia | lia]. }
  pose proof (Z_div_mod (Zpos mx * 2 ^ s) (Zpos my) ltac:(lia)) as DM.
  destruct (Z.div_eucl (Zpos mx * 2 ^ s) (Zpos my)) as [q r]. destruct DM as [DM Hr].
  assert (0 < 2 ^ s) as Hps by (apply Z.pow_pos_nonneg; lia).
  assert (0 <= q) as Hq by nia.
  assert (0 < inject_Z (Zpos my))%Q as Py
    by (change 0%Q with (inject_Z 0); rewrite <- Zlt_Qlt; lia).
  apply rounded_ext with ((inject_Z q + inject_Z r / inject_Z (Zpos my)) * bpow e')%Q.
  { unfold valQ.
    assert (bpow ex == bpow s * bpow e' * bpow ey)%Q as Eb.
    { rewrite <- !bpow_add. replace (s + e' + ey) with ex by (unfold s; lia). reflexivity. }
    assert (inject_Z (Zpos mx) * bpow s == inject_Z (Zpos my) * inject_Z q + inject_Z r)%Q as Em.
    { rewrite bpow_Z by assumption. rewrite <- !inject_Z_mult, <- inject_Z_plus, DM.
      reflexivity. }
    pose proof (bpow_pos ey). rewrite Eb.
    setoid_replace (inject_Z (Zpos mx) * (bpow s * bpow e' * bpow ey))%Q
      with ((inject_Z (Zpos mx) * bpow s) * bpow e' * bpow ey)%Q by ring.
    rewrite Em. field. split; lra. }
  apply binary_round_aux_rounded; [assumption | apply new_location_inbetween; lia |].
  rewrite fexp64.
  destruct (Z_le_gt_dec e' (-1074)) as [|Hgt]; [lia|].
  assert (d2 + 52 <= d1 + s - 1) as Hd by (unfold s, e' in *; lia).
  assert (2 ^ 52 <= q) as Hq52.
  { replace q with ((Zpos mx * 2 ^ s) / Zpos my)
      by (symmetry; apply Z.div_unique with r; [lia | assumption]).
    apply Z.div_le_lower_bound; [lia|].
    assert (2 ^ (d2 + 52) <= 2 ^ (d1 + s - 1)) as Hp by (apply Z.pow_le_mono_r; lia).
    rewrite Z.pow_add_r in Hp by lia.
    replace (d1 + s - 1) with ((d1 - 1) + s) in Hp by lia. rewrite Z.pow_add_r in Hp by lia.
    nia. }
  pose proof (Zdigits2_ge q 52 ltac:(lia) Hq52). lia.
Qed.

(** *** Comparisons *)

Lemma valQ_opp m e : (valQ (- m) e == - valQ m e)%Q.
Proof. unfold valQ. rewrite inject_Z_opp. ring. Qed.

Lemma valQ_pos m e : 0 < m -> (0 < valQ m e)%Q.
Proof.
  intros H. unfold valQ. apply Qmult_lt_0_compat; [|apply bpow_pos].
  change 0%Q with (inject_Z 0). rewrite <- Zlt_Qlt. assumption.
Qed.

Lemma valQ_plus m n e : (valQ (m + n) e == valQ m e + valQ n e)%Q.
Proof. unfold valQ. rewrite inject_Z_plus. ring. Qed.

Lemma valQ_compare m1 m2 e : (valQ m1 e ?= valQ m2 e)%Q = (m1 ?= m2).
Proof.
  destruct (Z.compare_spec m1 m2) as [->|L|G].
  - apply -> Qeq_alt. reflexivity.
  - apply -> Qlt_alt. unfold valQ. apply Qmult_lt_r; [apply bpow_pos|]. rewrite <- Zlt_Qlt. assumption.
  - apply -> Qgt_alt. unfold valQ. apply Qmult_lt_r; [apply bpow_pos|]. rewrite <- Zlt_Qlt. assumption.
Qed.

Lemma canon_compare m1 e1 m2 e2 :
  canon m1 e1 -> canon m2 e2 ->
  (valQ (Zpos m1) e1 ?= valQ (Zpos m2) e2)%Q =
  match e1 ?= e2 with
  | Lt => Lt
  | Gt => Gt
  | Eq => Pos.compare_cont Eq m1 m2
  end.
Proof.
  intros H1 H2. destruct (Z.compare_spec e1 e2) as [->|L|G].
  - rewrite valQ_compare. reflexivity.
  - apply -> Qlt_alt. apply canon_below_binade; try assumption.
    destruct H1 as (_ & _ & ?), H2 as (_ & ? & _). lia.
  - apply -> Qgt_alt. apply canon_below_binade; try assumption.
    destruct H2 as (_ & _ & ?), H1 as (_ & ? & _). lia.
Qed.

Lemma Qcompare_opp x y : (- x ?= - y)%Q = CompOpp (x ?= y)%Q.
Proof.
  destruct (x ?= y)%Q eqn:C; simpl.
  - apply Qeq_alt in C. apply -> Qeq_alt. lra.
  - apply Qlt_alt in C. apply -> Qgt_alt. lra.
  - apply Qgt_alt in C. apply -> Qlt_alt. lra.
Qed.

Lemma SFcompare_Q x y :
  fin_valid x -> fin_valid y ->
  SFcompare x y = Some (SF2Q x ?= SF2Q y)%Q.
Proof.
  destruct x as [sx|sx| |sx mx ex], y as [sy|sy| |sy my ey]; simpl; try tauto; intros Hx Hy.
  - f_equal. symmetry. destruct sy; cbn [cond_Zopp].
    + apply -> Qgt_alt. pose proof (valQ_pos (Zpos my) ey ltac:(lia)).
      pose proof (valQ_opp (Zpos my) ey). cbn [Z.opp] in *. lra.
    + apply -> Qlt_alt. apply valQ_pos. lia.
  - f_equal. symmetry. destruct sx; cbn [cond_Zopp].
    + apply -> Qlt_alt. pose proof (valQ_pos (Zpos mx) ex ltac:(lia)).
      pose proof (valQ_opp (Zpos mx) ex). cbn [Z.opp] in *. lra.
    + apply -> Qgt_alt. apply valQ_pos. lia.
  - f_equal. symmetry.
    pose proof (valQ_pos (Zpos mx) ex ltac:(lia)) as Px.
    pose proof (valQ_pos (Zpos my) ey ltac:(lia)) as Py.
    pose proof (valQ_opp (Zpos mx) ex) as Ox. pose proof (valQ_opp (Zpos my) ey) as Oy.
    cbn [Z.opp] in Ox, Oy.
    destruct sx, sy; cbn [cond_Zopp Z.opp].
    + rewrite Ox, Oy, Qcompare_opp, canon_compare by assumption.
      destruct (ex ?= ey); reflexivity.
    + apply -> Qlt_alt. lra.
    + apply -> Qgt_alt. lra.
    + apply canon_compare; assumption.
Qed.

Lemma SFleb_Q x y :
  fin_valid x -> fin_valid y -> (SFleb x y = true <-> (SF2Q x <= SF2Q y)%Q).
Proof.
  intros Hx Hy. unfold SFleb. rewrite (SFcompare_Q x y Hx Hy), Qle_alt.
  destruct (SF2Q x ?= SF2Q y)%Q; split; intros; congruence.
Qed.

Lemma SFltb_Q x y :
  fin_valid x -> fin_valid y -> (SFltb x y = true <-> (SF2Q x < SF2Q y)%Q).
Proof.
  intros Hx Hy. unfold SFltb. rewrite (SFcompare_Q x y Hx Hy), Qlt_alt.
  destruct (SF2Q x ?= SF2Q y)%Q; split; intros; congruence.
Qed.

Lemma valid_fin_valid x :
  valid_binary 53 1024 x = true ->
  fin_valid x \/ x = S754_nan \/ exists s, x = S754_infinity s.
Proof.
  destruct x as [s|s| |s m e]; simpl; intros H.
  - left. exact I.
  - right. right. exists s. reflexivity.
  - right. left. reflexivity.
  - left. apply bounded_canon. assumption.
Qed.

(** *** Addition, subtraction and conversion from integers *)

Lemma shl_align_fst mx ex ez :
  ez <= ex -> Zpos (fst (shl_align mx ex ez)) = Zpos mx * 2 ^ (ex - ez).
Proof.
  intros H. unfold shl_align.
  remember (ez - ex) as n eqn:En. destruct n as [|p|p]; cbn [fst]; [|lia|].
  - replace (ex - ez) with 0 by lia. lia.
  - destruct (digits2_pos_iter_xO mx p) as [_ ->]. f_equal. f_equal. lia.
Qed.

Lemma cond_Zopp_mul s a b : cond_Zopp s (a * b) = cond_Zopp s a * b.
Proof. destruct s; unfold cond_Zopp; ring. Qed.

Lemma shl_align_valQ s m e ez :
  ez <= e ->
  (valQ (cond_Zopp s (Zpos (fst (shl_align m e ez)))) ez == valQ (cond_Zopp s (Zpos m)) e)%Q.
Proof.
  intros He. rewrite shl_align_fst, cond_Zopp_mul, valQ_shift by lia.
  replace (ez + (e - ez)) with e by lia. reflexivity.
Qed.

Lemma binary_normalize_rounded n e :
  match n with
  | 0 => binary_normalize 53 1024 n e false = S754_zero false
  | Zpos p => rounded false (valQ (Zpos p) e) (binary_normalize 53 1024 n e false)
  | Zneg p => rounded true (valQ (Zpos p) e) (binary_normalize 53 1024 n e false)
  end.
Proof. destruct n; cbn [binary_normalize]; [reflexivity| |]; apply binary_round_rounded. Qed.

Lemma add_finite sx mx ex sy my ey :
  exists n,
    add (S754_finite sx mx ex) (S754_finite sy my ey) =
      binary_normalize 53 1024 n (Z.min ex ey) false /\
    (valQ n (Z.min ex ey) ==
       SF2Q (S754_finite sx mx ex) + SF2Q (S754_finite sy my ey))%Q.
Proof.
  eexists. split; [reflexivity|]. cbn [SF2Q].
  rewrite valQ_plus.
  rewrite !shl_align_valQ by lia. reflexivity.
Qed.

Lemma sub_finite sx mx ex sy my ey :
  exists n,
    sub (S754_finite sx mx ex) (S754_finite sy my ey) =
      binary_normalize 53 1024 n (Z.min ex ey) false /\
    (valQ n (Z.min ex ey) ==
       SF2Q (S754_finite sx mx ex) - SF2Q (S754_finite sy my ey))%Q.
Proof.
  eexists. split; [reflexivity|]. cbn [SF2Q].
  unfold Z.sub at 1. rewrite valQ_plus, valQ_opp.
  rewrite !shl_align_valQ by lia. reflexivity.
Qed.

(** Every positive integer below [2^53] is a binary64 number. *)
Lemma Z_representable n :
  0 < n < 2 ^ 53 -> exists mT eT, canon mT eT /\ (valQ (Zpos mT) eT == inject_Z n)%Q.
Proof.
  intros Hn. destruct (Zdigits2_bounds n ltac:(lia)) as (Hd0 & Hdu & Hdl).
  specialize (Hdl ltac:(lia)). set (d := Zdigits2 n) in *.
  assert (1 <= d <= 53) as Hd.
  { split.
    - destruct (Z_le_gt_dec 1 d); [assumption|]. replace d with 0 in Hdu by lia. simpl in Hdu. lia.
    - destruct (Z_le_gt_dec d 53); [assumption|exfalso].
      assert (2 ^ 53 <= 2 ^ (d - 1)) by (apply Z.pow_le_mono_r; lia). lia. }
  assert (0 < 2 ^ (53 - d)) as Hp by (apply Z.pow_pos_nonneg; lia).
  assert (2 ^ 53 = 2 ^ d * 2 ^ (53 - d)) as P1
    by (rewrite <- Z.pow_add_r by lia; f_equal; lia).
  assert (2 ^ 52 = 2 ^ (d - 1) * 2 ^ (53 - d)) as P2
    by (rewrite <- Z.pow_add_r by lia; f_equal; lia).
  exists (Z.to_pos (n * 2 ^ (53 - d))), (d - 53).
  rewrite Z2Pos.id by nia. split.
  - unfold canon. rewrite P1, P2. nia.
  - rewrite valQ_shift by lia. replace (d - 53 + (53 - d)) with 0 by lia.
    unfold valQ. change (bpow 0) with 1%Q. ring.
Qed.

Lemma ofZ_exact n :
  0 < Z.abs n < 2 ^ 53 ->
  exists m e, ofZ n = S754_finite (n <? 0) m e /\ canon m e /\
              (valQ (Zpos m) e == inject_Z (Z.abs n))%Q.
Proof.
  intros Hn. destruct (Z_representable (Z.abs n) Hn) as (mT & eT & HT & VT).
  exists mT, eT. split; [|split; assumption].
  unfold ofZ. pose proof (binary_normalize_rounded n 0) as R.
  destruct n as [|p|p]; [simpl in Hn; lia| |]; cbn [Z.abs] in *.
  - apply rounded_representable; [assumption|].
    apply rounded_ext with (2 := R). rewrite VT. unfold valQ. change (bpow 0) with 1%Q. ring.
  - change (Zneg p <? 0) with true.
    apply rounded_representable; [assumption|].
    apply rounded_ext with (2 := R). rewrite VT. unfold valQ. change (bpow 0) with 1%Q. ring.
Qed.

(** *** Validity of results *)

Lemma rounded_valid s v r : rounded s v r -> valid r = true.
Proof.
  destruct r as [s'|s'| |s' m e]; simpl; intros H; try reflexivity.
  destruct H as [_ (Hc & _)]. apply bounded_canon. assumption.
Qed.

Lemma valid_finite_canon s m e : valid (S754_finite s m e) = true -> canon m e.
Proof. apply bounded_canon. Qed.

Lemma valid_mul x y : valid x = true -> valid y = true -> valid (mul x y) = true.
Proof.
  destruct x as [sx|sx| |sx mx ex], y as [sy|sy| |sy my ey]; try reflexivity.
  intros Hx Hy. apply valid_finite_canon in Hx, Hy.
  exact (rounded_valid _ _ _ (mul_rounded sx mx ex sy my ey Hx Hy)).
Qed.

Lemma valid_div x y : valid x = true -> valid y = true -> valid (div x y) = true.
Proof.
  destruct x as [sx|sx| |sx mx ex], y as [sy|sy| |sy my ey]; try reflexivity.
  intros _ _. exact (rounded_valid _ _ _ (div_rounded sx mx ex sy my ey)).
Qed.

Lemma valid_binary_normalize n e : valid (binary_normalize 53 1024 n e false) = true.
Proof.
  pose proof (binary_normalize_rounded n e) as R.
  destruct n; [rewrite R; reflexivity| |]; exact (rounded_valid _ _ _ R).
Qed.

Lemma valid_ofZ n : valid (ofZ n) = true.
Proof. apply valid_binary_normalize. Qed.

Lemma valid_add x y : valid x = true -> valid y = true -> valid (add x y) = true.
Proof.
  destruct x as [sx|sx| |sx mx ex], y as [sy|sy| |sy my ey]; try reflexivity;
    try (destruct sx, sy; reflexivity); try (intros; assumption).
  intros _ _. destruct (add_finite sx mx ex sy my ey) as (n & -> & _).
  apply valid_binary_normalize.
Qed.

Lemma valid_sub x y : valid x = true -> valid y = true -> valid (sub x y) = true.
Proof.
  destruct x as [sx|sx| |sx mx ex], y as [sy|sy| |sy my ey]; try reflexivity;
    try (destruct sx, sy; reflexivity); try (intros; assumption).
  intros _ _. destruct (sub_finite sx mx ex sy my ey) as (n & -> & _).
  apply valid_binary_normalize.
Qed.

Lemma valid_Floor x : valid x = true -> valid (Floor x) = true.
Proof.
  destruct x as [s|s| |s m e]; trivial. intros H. unfold Floor.
  destruct (0 <=? e); [assumption | apply valid_ofZ].
Qed.

Lemma valid_truncate c : valid c = true -> valid (truncate c) = true.
Proof.
  intros H. unfold truncate.
  apply valid_div; [|apply valid_ofZ]. apply valid_Floor, valid_mul; [assumption|apply valid_ofZ].
Qed.

(** *** Integers as binary64 numbers *)

Lemma SF2Q_ofZ n :
  Z.abs n < 2 ^ 53 -> fin_valid (ofZ n) /\ (SF2Q (ofZ n) == inject_Z n)%Q.
Proof.
  intros Hn. destruct (Z.eq_dec n 0) as [->|Hn0].
  - split; [exact I | reflexivity].
  - destruct (ofZ_exact n ltac:(lia)) as (m & e & -> & Hc & V).
    split; [exact Hc|]. cbn [SF2Q].
    destruct (Z.ltb_spec n 0); cbn [cond_Zopp].
    + change (Zneg m) with (- Zpos m). rewrite valQ_opp, V, <- inject_Z_opp.
      replace (- Z.abs n) with n by lia. reflexivity.
    + rewrite V. replace (Z.abs n) with n by lia. reflexivity.
Qed.

Lemma valQ_integer m e : 0 <= e -> (valQ m e == inject_Z (m * 2 ^ e))%Q.
Proof.
  intros He. rewrite <- (valQ_shift m 0 e He). unfold valQ. change (bpow 0) with 1%Q. ring.
Qed.

Lemma valQ_fraction m e :
  e < 0 -> (valQ m e == inject_Z m / inject_Z (2 ^ (- e)))%Q.
Proof.
  intros He. unfold valQ.
  assert (bpow e * bpow (- e) == 1)%Q as E.
  { rewrite <- bpow_add. replace (e + - e) with 0 by lia. reflexivity. }
  rewrite (bpow_Z (- e)) in E by lia.
  assert (0 < inject_Z (2 ^ (- e)))%Q as P.
  { change 0%Q with (inject_Z 0). rewrite <- Zlt_Qlt. apply Z.pow_pos_nonneg; lia. }
  setoid_replace (bpow e) with (/ inject_Z (2 ^ (- e)))%Q; [reflexivity|].
  apply Qmult_inj_r with (inject_Z (2 ^ (- e))); [lra|]. rewrite E. field. lra.
Qed.

Lemma Qfloor_valQ m e : e < 0 -> Qfloor (valQ m e) = m / 2 ^ (- e).
Proof.
  intros He. rewrite Zdiv_Qdiv.
  apply Z.le_antisymm; apply Qfloor_resp_le; rewrite valQ_fraction by assumption; lra.
Qed.

Lemma toInt_integer s m e n :
  0 < n < 2 ^ 63 -> (valQ (Zpos m) e == inject_Z n)%Q ->
  toInt (S754_finite s m e) = cond_Zopp s n.
Proof.
  intros Hn V. unfold toInt.
  destruct (Z.leb_spec 0 e) as [He|He].
  - rewrite valQ_integer in V by assumption.
    apply (proj1 (inject_Z_injective _ _)) in V. rewrite V.
    destruct (Z.ltb_spec n (2 ^ 63)); [reflexivity | lia].
  - assert (Zpos m / 2 ^ (- e) = n) as ->.
    { rewrite <- Qfloor_valQ by assumption.
      apply Z.le_antisymm.
      - rewrite <- (Qfloor_Z n). apply Qfloor_resp_le. lra.
      - rewrite <- (Qfloor_Z n) at 1. apply Qfloor_resp_le. lra. }
    destruct (Z.ltb_spec n (2 ^ 63)); [reflexivity | lia].
Qed.

(** *** [math.Floor], [math.Round] and [int] *)

Lemma canon_mantissa_lt m e : canon m e -> Zpos m < 2 ^ 53.
Proof. intros (H & _). exact H. Qed.

Lemma Floor_spec x :
  fin_valid x ->
  fin_valid (Floor x) /\ (SF2Q (Floor x) == inject_Z (Qfloor (SF2Q x)))%Q.
Proof.
  destruct x as [s|s| |s m e]; cbn [fin_valid]; try tauto.
  - intros _. split; [exact I | reflexivity].
  - intros Hc. unfold Floor. destruct (Z.leb_spec 0 e) as [He|He].
    + split; [exact Hc|]. cbn [SF2Q]. rewrite valQ_integer by assumption.
      rewrite Qfloor_Z. reflexivity.
    + cbn [SF2Q]. rewrite Qfloor_valQ by assumption.
      apply SF2Q_ofZ.
      pose proof (canon_mantissa_lt _ _ Hc) as Hm.
      assert (2 <= 2 ^ (- e)) as Hp.
      { change 2 with (2 ^ 1) at 1. apply Z.pow_le_mono_r; lia. }
      assert (- 2 ^ 53 < cond_Zopp s (Zpos m) / 2 ^ (- e) < 2 ^ 53); [|lia].
      split.
      * apply Z.lt_le_trans with (- 2 ^ 52); [lia|].
        apply Z.div_le_lower_bound; [lia|]. destruct s; cbn [cond_Zopp]; nia.
      * apply Z.div_lt_upper_bound; [lia|]. destruct s; cbn [cond_Zopp]; nia.
Qed.

Lemma Qfloor_half n : Qfloor (inject_Z n + (1 # 2)) = n.
Proof.
  pose proof (Qfloor_le (inject_Z n + (1 # 2))) as L.
  pose proof (Qlt_floor (inject_Z n + (1 # 2))) as U.
  set (f := Qfloor (inject_Z n + (1 # 2))) in *.
  rewrite inject_Z_plus in U. change (inject_Z 1) with 1%Q in U.
  assert (inject_Z f < inject_Z (n + 1))%Q as L'
    by (rewrite inject_Z_plus; change (inject_Z 1) with 1%Q; lra).
  assert (inject_Z n < inject_Z (f + 1))%Q as U'
    by (rewrite inject_Z_plus; change (inject_Z 1) with 1%Q; lra).
  rewrite <- Zlt_Qlt in L', U'. lia.
Qed.

Lemma Qfloor_valQ_half m e :
  e < 0 -> Qfloor (valQ m e + (1 # 2)) = (m + 2 ^ (- e - 1)) / 2 ^ (- e).
Proof.
  intros He. rewrite <- Qfloor_valQ by assumption.
  assert (valQ m e + (1 # 2) == valQ (m + 2 ^ (- e - 1)) e)%Q as E.
  { rewrite valQ_plus.
    assert (valQ (2 ^ (- e - 1)) e == 1 # 2)%Q as ->; [|reflexivity].
    unfold valQ. rewrite <- bpow_Z, <- bpow_add by lia.
    replace (- e - 1 + e) with (-1) by lia. reflexivity. }
  apply Z.le_antisymm; apply Qfloor_resp_le; lra.
Qed.

Lemma round_half_away_opp v : (0 < v)%Q -> round_half_away (- v) = - round_half_away v.
Proof.
  intros Hv. unfold round_half_away.
  assert (Qle_bool 0 (- v) = false) as ->.
  { destruct (Qle_bool 0 (- v)) eqn:E; [|reflexivity]. apply Qle_bool_iff in E. lra. }
  assert (Qle_bool 0 v = true) as -> by (apply Qle_bool_iff; lra).
  f_equal. apply Z.le_antisymm; apply Qfloor_resp_le; lra.
Qed.

Lemma round_half_away_ext v w : (v == w)%Q -> round_half_away v = round_half_away w.
Proof.
  intros E. unfold round_half_away.
  assert (Qle_bool 0 v = Qle_bool 0 w) as ->.
  { destruct (Qle_bool 0 w) eqn:W.
    - apply Qle_bool_iff. apply Qle_bool_iff in W. lra.
    - destruct (Qle_bool 0 v) eqn:V; [|reflexivity].
      apply Qle_bool_iff in V. assert (Qle_bool 0 w = true) by (apply Qle_bool_iff; lra).
      congruence. }
  destruct (Qle_bool 0 w); [|f_equal]; apply Z.le_antisymm; apply Qfloor_resp_le; lra.
Qed.

(** [int(math.Round(x))] is the nearest integer of the exact value of [x],
    halves rounded away from zero. *)
Lemma toInt_Round x :
  fin_valid x -> (Qabs (SF2Q x) < inject_Z (2 ^ 63))%Q ->
  toInt (Round x) = round_half_away (SF2Q x).
Proof.
  destruct x as [s|s| |s m e]; cbn [fin_valid]; try tauto.
  intros Hc Hb. cbn [SF2Q] in *.
    assert (round_half_away (valQ (cond_Zopp s (Zpos m)) e) =
            cond_Zopp s (round_half_away (valQ (Zpos m) e))) as ->.
    { destruct s; cbn [cond_Zopp]; [|reflexivity].
      rewrite <- round_half_away_opp by (apply valQ_pos; lia).
      apply round_half_away_ext. apply (valQ_opp (Zpos m) e). }
    assert (Qabs (valQ (cond_Zopp s (Zpos m)) e) == valQ (Zpos m) e)%Q as Ea.
    { pose proof (valQ_pos (Zpos m) e ltac:(lia)) as P.
      destruct s; cbn [cond_Zopp].
      - change (Zneg m) with (- Zpos m). rewrite valQ_opp, Qabs_opp. apply Qabs_pos. lra.
      - apply Qabs_pos. lra. }
    rewrite Ea in Hb. clear Ea.
    unfold round_half_away.
    assert (Qle_bool 0 (valQ (Zpos m) e) = true) as ->.
    { apply Qle_bool_iff. apply Qlt_le_weak, valQ_pos. lia. }
    unfold Round. destruct (Z.leb_spec 0 e) as [He|He].
    + rewrite valQ_integer in * by assumption. rewrite Qfloor_half.
      rewrite <- Zlt_Qlt in Hb.
      apply toInt_integer; [|apply valQ_integer; assumption].
      assert (0 < 2 ^ e) by (apply Z.pow_pos_nonneg; lia). nia.
    + rewrite Qfloor_valQ_half by assumption.
      set (q := (Zpos m + 2 ^ (- e - 1)) / 2 ^ (- e)).
      pose proof (canon_mantissa_lt _ _ Hc) as Hm.
      assert (0 <= q < 2 ^ 53) as Hq.
      { assert (2 ^ (- e) = 2 * 2 ^ (- e - 1)) as P.
        { rewrite <- Z.pow_succ_r by lia. f_equal. lia. }
        assert (0 < 2 ^ (- e - 1)) by (apply Z.pow_pos_nonneg; lia).
        unfold q. split.
        - apply Z.div_pos; lia.
        - apply Z.div_lt_upper_bound; [lia|]. nia. }
      destruct (Z.eqb_spec q 0) as [->|Hq0].
      * destruct s; reflexivity.
      * destruct (ofZ_exact (cond_Zopp s q)) as (m' & e' & -> & Hc' & V').
        { destruct s; cbn [cond_Zopp]; lia. }
        assert (Z.abs (cond_Zopp s q) = q) as Eq by (destruct s; cbn [cond_Zopp]; lia).
        rewrite Eq in V'.
        rewrite (toInt_integer _ m' e' q) by (try assumption; lia).
        destruct s; cbn [cond_Zopp].
        -- assert ((- q <? 0) = true) as -> by (apply Z.ltb_lt; lia). reflexivity.
        -- assert ((q <? 0) = false) as -> by (apply Z.ltb_ge; lia). reflexivity.
Qed.

(** * Ranges of the values computed by [calculateAQI] *)

(** *** Bounds carried through the operations *)

Lemma dyadic_representable K e :
  0 < K < 2 ^ 53 -> -1021 <= e <= 918 ->
  exists mT eT, canon mT eT /\ (valQ (Zpos mT) eT == valQ K e)%Q.
Proof.
  intros HK He. destruct (Zdigits2_bounds K ltac:(lia)) as (Hd0 & Hdu & Hdl).
  specialize (Hdl ltac:(lia)). set (d := Zdigits2 K) in *.
  assert (1 <= d <= 53) as Hd.
  { split.
    - destruct (Z_le_gt_dec 1 d); [assumption|]. replace d with 0 in Hdu by lia. simpl in Hdu. lia.
    - destruct (Z_le_gt_dec d 53); [assumption|exfalso].
      assert (2 ^ 53 <= 2 ^ (d - 1)) by (apply Z.pow_le_mono_r; lia). lia. }
  assert (0 < 2 ^ (53 - d)) as Hp by (apply Z.pow_pos_nonneg; lia).
  assert (2 ^ 53 = 2 ^ d * 2 ^ (53 - d)) as P1
    by (rewrite <- Z.pow_add_r by lia; f_equal; lia).
  assert (2 ^ 52 = 2 ^ (d - 1) * 2 ^ (53 - d)) as P2
    by (rewrite <- Z.pow_add_r by lia; f_equal; lia).
  exists (Z.to_pos (K * 2 ^ (53 - d))), (e + d - 53).
  rewrite Z2Pos.id by nia. split.
  - unfold canon. rewrite P1, P2. nia.
  - rewrite valQ_shift by lia. replace (e + d - 53 + (53 - d)) with e by lia. reflexivity.
Qed.

Lemma rounded_upper s v r mT eT :
  canon mT eT -> (v <= valQ (Zpos mT) eT)%Q -> rounded s v r ->
  r = S754_zero s \/
  exists m e, r = S754_finite s m e /\ canon m e /\
              (valQ (Zpos m) e <= valQ (Zpos mT) eT)%Q.
Proof.
  intros HT Hv. destruct r as [s'|s'| |s' m e]; simpl.
  - intros [-> _]. left. reflexivity.
  - intros [_ H]. specialize (H _ _ HT). lra.
  - intros [].
  - intros [-> (Hc & _ & Hu)]. right. exists m, e. auto.
Qed.

Lemma rounded_lower s v r mT eT :
  canon mT eT -> (valQ (Zpos mT) eT <= v)%Q -> rounded s v r ->
  r = S754_infinity s \/
  exists m e, r = S754_finite s m e /\ canon m e /\
              (valQ (Zpos mT) eT <= valQ (Zpos m) e)%Q.
Proof.
  intros HT Hv. destruct r as [s'|s'| |s' m e]; simpl.
  - intros [_ H]. specialize (H _ _ HT). lra.
  - intros [-> _]. left. reflexivity.
  - intros [].
  - intros [-> (Hc & Hl & _)]. right. exists m, e. auto.
Qed.

(** A finite number with a nonnegative value is a zero or a positive number. *)
Lemma fin_valid_nonneg x :
  fin_valid x -> (0 <= SF2Q x)%Q ->
  (exists s, x = S754_zero s) \/ (exists m e, x = S754_finite false m e /\ canon m e).
Proof.
  destruct x as [s|s| |s m e]; cbn [fin_valid SF2Q]; try tauto.
  - intros _ _. left. exists s. reflexivity.
  - intros Hc Hv. right. exists m, e. split; [|assumption].
    destruct s; [exfalso|reflexivity]. cbn [cond_Zopp Z.opp] in Hv.
    pose proof (valQ_pos (Zpos m) e ltac:(lia)) as P.
    pose proof (valQ_opp (Zpos m) e) as O. cbn [Z.opp] in O. lra.
Qed.

Lemma sub_bounded tc lo mT eT :
  fin_valid tc -> fin_valid lo ->
  (0 <= SF2Q lo)%Q -> (SF2Q lo <= SF2Q tc)%Q ->
  (SF2Q tc - SF2Q lo <= valQ (Zpos mT) eT)%Q -> canon mT eT ->
  fin_valid (sub tc lo) /\ (0 <= SF2Q (sub tc lo) <= valQ (Zpos mT) eT)%Q.
Proof.
  intros Htc Hlo Hlo0 Hle Hub HT.
  pose proof (valQ_pos (Zpos mT) eT ltac:(lia)) as PT.
  destruct (fin_valid_nonneg lo Hlo Hlo0) as [[s ->]|(ml & el & -> & Hcl)];
    destruct (fin_valid_nonneg tc Htc ltac:(lra)) as [[s' ->]|(mt & et & -> & Hct)].
  - assert (exists s'', sub (S754_zero s') (S754_zero s) = S754_zero s'') as [s'' ->]
      by (destruct s', s; eexists; reflexivity).
    split; [exact I|]. cbn [SF2Q]. lra.
  - change (sub (S754_finite false mt et) (S754_zero s)) with (S754_finite false mt et).
    split; [exact Hct|]. cbn [SF2Q] in *. lra.
  - exfalso. cbn [SF2Q cond_Zopp] in Hle.
    pose proof (valQ_pos (Zpos ml) el ltac:(lia)). lra.
  - destruct (sub_finite false mt et false ml el) as (n & -> & V).
    pose proof (binary_normalize_rounded n (Z.min et el)) as R.
    destruct n as [|p|p].
    + rewrite R. split; [exact I|]. cbn [SF2Q]. lra.
    + assert (valQ (Zpos p) (Z.min et el) <= valQ (Zpos mT) eT)%Q as Hv by lra.
      destruct (rounded_upper _ _ _ mT eT HT Hv R) as [->|(m & e & -> & Hc & Hb)].
      * split; [exact I|]. cbn [SF2Q]. lra.
      * split; [exact Hc|]. cbn [SF2Q cond_Zopp].
        pose proof (valQ_pos (Zpos m) e ltac:(lia)). lra.
    + exfalso. pose proof (valQ_pos (Zpos p) (Z.min et el) ltac:(lia)) as P.
      pose proof (valQ_opp (Zpos p) (Z.min et el)) as O. cbn [Z.opp] in O. lra.
Qed.

Lemma mul_bounded ms es d B mT eT :
  canon ms es -> fin_valid d -> (0 <= SF2Q d <= B)%Q ->
  (valQ (Zpos ms) es * B <= valQ (Zpos mT) eT)%Q -> canon mT eT ->
  fin_valid (mul (S754_finite false ms es) d) /\
  (0 <= SF2Q (mul (S754_finite false ms es) d) <= valQ (Zpos mT) eT)%Q.
Proof.
  intros Hs Hd Hd0 Hub HT.
  pose proof (valQ_pos (Zpos mT) eT ltac:(lia)) as PT.
  pose proof (valQ_pos (Zpos ms) es ltac:(lia)) as Ps.
  destruct (fin_valid_nonneg d Hd ltac:(lra)) as [[s ->]|(md & ed & -> & Hcd)].
  - unfold mul. cbn [SFmul]. split; [exact I|]. cbn [SF2Q]. lra.
  - pose proof (mul_rounded false ms es false md ed Hs Hcd) as R.
    cbn [SF2Q cond_Zopp] in Hd0.
    assert (valQ (Zpos ms) es * valQ (Zpos md) ed <= valQ (Zpos mT) eT)%Q as Hv.
    { apply Qle_trans with (2 := Hub). apply Qmult_le_l; lra. }
    destruct (rounded_upper _ _ _ mT eT HT Hv R) as [E|(m & e & E & Hc & Hb)];
      unfold mul, prec, emax; rewrite E.
    + split; [exact I|]. cbn [SF2Q]. lra.
    + split; [exact Hc|]. cbn [SF2Q cond_Zopp xorb].
      pose proof (valQ_pos (Zpos m) e ltac:(lia)). lra.
Qed.

Lemma add_bounded p n B mT eT :
  fin_valid p -> (0 <= SF2Q p <= B)%Q -> 0 <= n < 2 ^ 53 ->
  (B + inject_Z n <= valQ (Zpos mT) eT)%Q -> canon mT eT ->
  fin_valid (add p (ofZ n)) /\ (0 <= SF2Q (add p (ofZ n)) <= valQ (Zpos mT) eT)%Q.
Proof.
  intros Hp Hp0 Hn Hub HT.
  pose proof (valQ_pos (Zpos mT) eT ltac:(lia)) as PT.
  assert (0 <= inject_Z n)%Q as Pn by (change 0%Q with (inject_Z 0); rewrite <- Zle_Qle; lia).
  destruct (Z.eq_dec n 0) as [->|Hn0].
  - change (ofZ 0) with (S754_zero false).
    destruct (fin_valid_nonneg p Hp ltac:(lra)) as [[s ->]|(mp & ep & -> & Hcp)].
    + assert (exists s', add (S754_zero s) (S754_zero false) = S754_zero s') as [s' ->]
        by (destruct s; eexists; reflexivity).
      split; [exact I|]. cbn [SF2Q]. lra.
    + change (add (S754_finite false mp ep) (S754_zero false)) with (S754_finite false mp ep).
      split; [exact Hcp|]. change (inject_Z 0) with 0%Q in Hub. lra.
  - destruct (ofZ_exact n ltac:(lia)) as (mn & en & En & Hcn & Vn).
    replace (n <? 0) with false in En by (symmetry; apply Z.ltb_ge; lia).
    replace (Z.abs n) with n in Vn by lia. rewrite En.
    destruct (fin_valid_nonneg p Hp ltac:(lra)) as [[s ->]|(mp & ep & -> & Hcp)].
    + change (add (S754_zero s) (S754_finite false mn en)) with (S754_finite false mn en).
      split; [exact Hcn|]. cbn [SF2Q cond_Zopp] in *. lra.
    + destruct (add_finite false mp ep false mn en) as (k & -> & V).
      cbn [SF2Q cond_Zopp] in *.
      pose proof (valQ_pos (Zpos mp) ep ltac:(lia)) as Pp.
      pose proof (binary_normalize_rounded k (Z.min ep en)) as R.
      destruct k as [|q|q].
      * rewrite R. split; [exact I|]. cbn [SF2Q]. lra.
      * assert (valQ (Zpos q) (Z.min ep en) <= valQ (Zpos mT) eT)%Q as Hv by lra.
        destruct (rounded_upper _ _ _ mT eT HT Hv R) as [->|(m & e & -> & Hc & Hb)].
        -- split; [exact I|]. cbn [SF2Q]. lra.
        -- split; [exact Hc|]. cbn [SF2Q cond_Zopp].
           pose proof (valQ_pos (Zpos m) e ltac:(lia)). lra.
      * exfalso. pose proof (valQ_pos (Zpos q) (Z.min ep en) ltac:(lia)) as P.
        pose proof (valQ_opp (Zpos q) (Z.min ep en)) as O. cbn [Z.opp] in O. lra.
Qed.

(** *** The interpolated value on a tier *)

Lemma valid_is_finite x : valid x = true -> is_finite x = true -> fin_valid x.
Proof.
  destruct x as [s|s| |s m e]; cbn; try discriminate; intros H _;
    [exact I | apply bounded_canon; assumption].
Qed.

Lemma in_tier_bounds tc bp :
  valid tc = true -> fin_valid (ConcLow bp) -> fin_valid (ConcHigh bp) ->
  in_tier tc bp = true ->
  fin_valid tc /\ (SF2Q (ConcLow bp) <= SF2Q tc <= SF2Q (ConcHigh bp))%Q.
Proof.
  intros Hv Hlo Hhi Hin. unfold in_tier, ge, le in Hin.
  apply andb_true_iff in Hin. destruct Hin as [H1 H2].
  assert (fin_valid tc) as Hf.
  { destruct tc as [s|s| |s m e]; [exact I| | |apply bounded_canon; exact Hv].
    - exfalso. destruct (ConcLow bp) as [sl|sl| |sl ml el], (ConcHigh bp) as [sh|sh| |sh mh eh];
        cbn in Hlo, Hhi; try contradiction; destruct s; discriminate.
    - exfalso. destruct (ConcLow bp) as [sl|sl| |sl ml el]; discriminate. }
  split; [assumption|]. split; apply SFleb_Q; assumption.
Qed.

Lemma valQ_64 K : (valQ K (-6) == inject_Z K * (1 # 64))%Q.
Proof. reflexivity. Qed.

Lemma tier_interpolate bp tc :
  tier_ok bp = true -> valid tc = true -> in_tier tc bp = true ->
  fin_valid (interpolate tc bp) /\
  (0 <= SF2Q (interpolate tc bp) <= valQ (tier_K3 bp) (-6))%Q.
Proof.
  unfold tier_ok. rewrite !andb_true_iff.
  intros (((((((((((((Vlo & Nlo) & Vhi) & Fhi) & Vs) & Ps) & I0) & I1) & K1a) & K1b)
            & K2a) & K2b) & K3b) & K3c) Vtc Hin.
  apply Z.leb_le in I0. apply Z.ltb_lt in I1, K1a, K1b, K2a, K2b, K3b, K3c.
  assert (fin_valid (ConcLow bp) /\ (0 <= SF2Q (ConcLow bp))%Q) as [Flo Plo].
  { destruct (ConcLow bp) as [s|s| |s m e]; try discriminate.
    - split; [exact I | cbn; lra].
    - destruct s; [discriminate|]. split; [apply bounded_canon; exact Vlo|].
      cbn [SF2Q cond_Zopp]. apply Qlt_le_weak, valQ_pos. lia. }
  pose proof (valid_is_finite _ Vhi Fhi) as Fh.
  destruct (in_tier_bounds tc bp Vtc Flo Fh Hin) as (Ftc & Htc).
  destruct (dyadic_representable (tier_K1 bp) (-6) ltac:(lia) ltac:(lia)) as (m1 & e1 & C1 & V1).
  destruct (dyadic_representable (tier_K2 bp) (-6) ltac:(lia) ltac:(lia)) as (m2 & e2 & C2 & V2).
  assert (0 < tier_K3 bp) as K3a by (unfold tier_K3; lia).
  destruct (dyadic_representable (tier_K3 bp) (-6) ltac:(lia) ltac:(lia)) as (m3 & e3 & C3 & V3).
  pose proof (Qle_ceiling ((SF2Q (ConcHigh bp) - SF2Q (ConcLow bp)) * inject_Z 64)) as B1.
  fold (tier_K1 bp) in B1.
  pose proof (Qle_ceiling (SF2Q (tier_slope bp) * inject_Z (tier_K1 bp))) as B2.
  fold (tier_K2 bp) in B2.
  rewrite valQ_64 in V1, V2, V3 |- *.
  change (inject_Z 64) with 64%Q in *.
  destruct (sub_bounded tc (ConcLow bp) m1 e1 Ftc Flo Plo ltac:(lra)) as (Fd & Bd);
    [rewrite V1; lra | assumption |].
  unfold interpolate. fold (tier_slope bp).
  destruct (tier_slope bp) as [s|s| |s ms es] eqn:Es; try discriminate.
  destruct s; [discriminate|]. apply valid_finite_canon in Vs.
  cbn [SF2Q cond_Zopp] in B2.
  pose proof (valQ_pos (Zpos ms) es ltac:(lia)) as Pslope.
  destruct (mul_bounded ms es _ _ m2 e2 Vs Fd Bd) as (Fp & Bp); [|assumption|].
  { rewrite V1, V2.
    setoid_replace (valQ (Zpos ms) es * (inject_Z (tier_K1 bp) * (1 # 64)))%Q
      with ((valQ (Zpos ms) es * inject_Z (tier_K1 bp)) * (1 # 64))%Q by ring.
    lra. }
  destruct (add_bounded _ (AQILow bp) _ m3 e3 Fp Bp ltac:(lia)) as (Fa & Ba); [|assumption|].
  { rewrite V2, V3. unfold tier_K3. rewrite inject_Z_plus, inject_Z_mult.
    change (inject_Z 64) with 64%Q. lra. }
  split; [assumption|]. rewrite <- V3. exact Ba.
Qed.

Lemma tier_result bp tc :
  tier_ok bp = true -> valid tc = true -> in_tier tc bp = true ->
  toInt (Round (interpolate tc bp)) = round_half_away (SF2Q (interpolate tc bp)) /\
  0 <= toInt (Round (interpolate tc bp)) <= AQIHigh bp.
Proof.
  intros Hok Vtc Hin.
  destruct (tier_interpolate bp tc Hok Vtc Hin) as (Fa & Ba).
  unfold tier_ok in Hok. rewrite !andb_true_iff in Hok.
  destruct Hok as ((_ & K3b) & K3c). apply Z.ltb_lt in K3b, K3c.
  set (a := interpolate tc bp) in *.
  rewrite valQ_64 in Ba. change (inject_Z 64) with 64%Q in Ba.
  assert (inject_Z (tier_K3 bp) < inject_Z (64 * AQIHigh bp + 32))%Q as Q3
    by (rewrite <- Zlt_Qlt; assumption).
  rewrite inject_Z_plus, inject_Z_mult in Q3.
  change (inject_Z 64) with 64%Q in Q3. change (inject_Z 32) with 32%Q in Q3.
  assert (inject_Z (tier_K3 bp) < inject_Z (2 ^ 53))%Q as Q4
    by (rewrite <- Zlt_Qlt; assumption).
  assert (toInt (Round a) = round_half_away (SF2Q a)) as E.
  { apply toInt_Round; [assumption|]. rewrite Qabs_pos by lra.
    change (inject_Z (2 ^ 63)) with (9223372036854775808 # 1)%Q.
    change (inject_Z (2 ^ 53)) with (9007199254740992 # 1)%Q in Q4. lra. }
  split; [assumption|]. rewrite E. unfold round_half_away.
  assert (Qle_bool 0 (SF2Q a) = true) as -> by (apply Qle_bool_iff; lra).
  split.
  - change 0 with (Qfloor 0). apply Qfloor_resp_le. lra.
  - assert (Qfloor (SF2Q a + (1 # 2)) < AQIHigh bp + 1); [|lia].
    rewrite Zlt_Qlt. apply Qle_lt_trans with (1 := Qfloor_le _).
    rewrite inject_Z_plus. change (inject_Z 1) with 1%Q. lra.
Qed.

Lemma pm25_tiers_ok : forallb tier_ok pm25Breakpoints = true.
Proof. vm_compute. reflexivity. Qed.

Lemma pm10_tiers_ok : forallb tier_ok pm10Breakpoints = true.
Proof. vm_compute. reflexivity. Qed.

(** *** Readings above the tables *)

Lemma ofZ_10 : ofZ 10 = S754_finite false 5629499534213120 (-49).
Proof. reflexivity. Qed.

Lemma canon_10 : canon 5629499534213120 (-49).
Proof. apply bounded_canon. reflexivity. Qed.

Lemma valQ_10 : (valQ (Zpos 5629499534213120) (-49) == 10)%Q.
Proof. reflexivity. Qed.

Lemma le_at_least t x :
  fin_valid t -> valid x = true -> le t x = true -> at_least (SF2Q t) x.
Proof.
  intros Ht Hx Hle. unfold le in Hle.
  destruct (valid_fin_valid x Hx) as [Hf|[->|[s ->]]].
  - right. split; [assumption|]. apply SFleb_Q; assumption.
  - destruct t; discriminate.
  - destruct s; [|left; reflexivity]. destruct t; try discriminate; contradiction.
Qed.

Lemma mul_at_least T x my ey mT eT :
  (0 < T)%Q -> at_least T x -> canon my ey -> canon mT eT ->
  (valQ (Zpos mT) eT <= T * valQ (Zpos my) ey)%Q ->
  at_least (valQ (Zpos mT) eT) (mul x (S754_finite false my ey)).
Proof.
  intros HT [->|[Hf Hx]] Hy HcT Hb; [left; reflexivity|].
  pose proof (valQ_pos (Zpos my) ey ltac:(lia)) as Py.
  destruct (fin_valid_nonneg x Hf ltac:(lra)) as [[s ->]|(mx & ex & -> & Hcx)].
  - cbn [SF2Q] in Hx. lra.
  - cbn [SF2Q cond_Zopp] in Hx.
    pose proof (mul_rounded false mx ex false my ey Hcx Hy) as R.
    assert (valQ (Zpos mT) eT <= valQ (Zpos mx) ex * valQ (Zpos my) ey)%Q as Hv.
    { apply Qle_trans with (1 := Hb). apply Qmult_le_compat_r; lra. }
    destruct (rounded_lower _ _ _ mT eT HcT Hv R) as [E|(m & e & E & Hc & Hl)];
      unfold mul, prec, emax; rewrite E.
    + left. reflexivity.
    + right. split; [exact Hc | exact Hl].
Qed.

Lemma div_at_least T x my ey mT eT :
  (0 < T)%Q -> at_least T x -> canon my ey -> canon mT eT ->
  (valQ (Zpos mT) eT * valQ (Zpos my) ey <= T)%Q ->
  at_least (valQ (Zpos mT) eT) (div x (S754_finite false my ey)).
Proof.
  intros HT [->|[Hf Hx]] Hy HcT Hb; [left; reflexivity|].
  pose proof (valQ_pos (Zpos my) ey ltac:(lia)) as Py.
  destruct (fin_valid_nonneg x Hf ltac:(lra)) as [[s ->]|(mx & ex & -> & Hcx)].
  - cbn [SF2Q] in Hx. lra.
  - cbn [SF2Q cond_Zopp] in Hx.
    pose proof (div_rounded false mx ex false my ey) as R.
    assert (valQ (Zpos mT) eT <= valQ (Zpos mx) ex / valQ (Zpos my) ey)%Q as Hv.
    { apply Qle_shift_div_l; lra. }
    destruct (rounded_lower _ _ _ mT eT HcT Hv R) as [E|(m & e & E & Hc & Hl)];
      unfold div, prec, emax; rewrite E.
    + left. reflexivity.
    + right. split; [exact Hc | exact Hl].
Qed.

Lemma Floor_at_least K x :
  at_least (inject_Z K) x -> at_least (inject_Z K) (Floor x).
Proof.
  intros [->|[Hf Hx]]; [left; reflexivity|].
  destruct (Floor_spec x Hf) as [Hf' V]. right. split; [assumption|].
  rewrite V, <- Zle_Qle, <- (Qfloor_Z K). apply Qfloor_resp_le. assumption.
Qed.

Lemma at_least_not_in_tier T x bp :
  at_least T x -> fin_valid (ConcHigh bp) -> (SF2Q (ConcHigh bp) < T)%Q ->
  in_tier x bp = false.
Proof.
  intros Hx Hh Hlt. unfold in_tier. apply andb_false_iff. right. unfold le.
  destruct Hx as [->|[Hf Hx]].
  - destruct (ConcHigh bp); try contradiction; reflexivity.
  - destruct (SFleb x (ConcHigh bp)) eqn:E; [|reflexivity].
    apply SFleb_Q in E; try assumption. lra.
Qed.

Lemma scan_no_tier c bps :
  Forall (fun bp => in_tier c bp = false) bps -> scan c bps = 500.
Proof.
  induction 1 as [|bp rest Hbp _ IH]; cbn [scan]; [reflexivity|].
  rewrite Hbp. exact IH.
Qed.

(** *** Negative readings *)

Lemma lt_zero_neg x :
  valid x = true -> lt x (ofZ 0) = true -> neg_at_least (bpow (-1074)) x.
Proof.
  intros Hx Hlt. change (ofZ 0) with (S754_zero false) in Hlt. unfold lt in Hlt.
  destruct x as [s|s| |s m e]; try discriminate.
  - destruct s; [left; reflexivity | discriminate].
  - destruct s; [|discriminate]. right. exists m, e.
    apply valid_finite_canon in Hx. split; [reflexivity|]. split; [assumption|].
    apply canon_ge_min. assumption.
Qed.

Lemma rounded_nonzero s v r mT eT :
  canon mT eT -> (valQ (Zpos mT) eT <= v)%Q -> rounded s v r ->
  neg_at_least (valQ (Zpos mT) eT) (if s then r else SFopp r).
Proof.
  intros HT Hv R.
  destruct (rounded_lower _ _ _ _ _ HT Hv R) as [->|(m & e & -> & Hc & Hl)].
  - left. destruct s; reflexivity.
  - right. exists m, e. destruct s; auto.
Qed.

Lemma mul_neg_at_least T x my ey mT eT :
  (0 < T)%Q -> neg_at_least T x -> canon my ey -> canon mT eT ->
  (valQ (Zpos mT) eT <= T * valQ (Zpos my) ey)%Q ->
  neg_at_least (valQ (Zpos mT) eT) (mul x (S754_finite false my ey)).
Proof.
  intros HT [->|(mx & ex & -> & Hcx & Hx)] Hy HcT Hb; [left; reflexivity|].
  pose proof (valQ_pos (Zpos my) ey ltac:(lia)) as Py.
  pose proof (mul_rounded true mx ex false my ey Hcx Hy) as R.
  assert (valQ (Zpos mT) eT <= valQ (Zpos mx) ex * valQ (Zpos my) ey)%Q as Hv.
  { apply Qle_trans with (1 := Hb). apply Qmult_le_compat_r; lra. }
  exact (rounded_nonzero true _ _ mT eT HcT Hv R).
Qed.

Lemma div_neg_at_least T x my ey mT eT :
  (0 < T)%Q -> neg_at_least T x -> canon my ey -> canon mT eT ->
  (valQ (Zpos mT) eT * valQ (Zpos my) ey <= T)%Q ->
  neg_at_least (valQ (Zpos mT) eT) (div x (S754_finite false my ey)).
Proof.
  intros HT [->|(mx & ex & -> & Hcx & Hx)] Hy HcT Hb; [left; reflexivity|].
  pose proof (valQ_pos (Zpos my) ey ltac:(lia)) as Py.
  pose proof (div_rounded true mx ex false my ey) as R.
  assert (valQ (Zpos mT) eT <= valQ (Zpos mx) ex / valQ (Zpos my) ey)%Q as Hv.
  { apply Qle_shift_div_l; lra. }
  exact (rounded_nonzero true _ _ mT eT HcT Hv R).
Qed.

Lemma Floor_neg_at_least T x :
  neg_at_least T x -> neg_at_least 1 (Floor x).
Proof.
  intros [->|(m & e & -> & Hc & _)]; [left; reflexivity|].
  unfold Floor. destruct (Z.leb_spec 0 e) as [He|He].
  - right. exists m, e. split; [reflexivity|]. split; [assumption|].
    rewrite valQ_integer by assumption. change 1%Q with (inject_Z 1). rewrite <- Zle_Qle.
    assert (0 < 2 ^ e) by (apply Z.pow_pos_nonneg; lia). nia.
  - cbn [cond_Zopp Z.opp]. set (n := Zneg m / 2 ^ (- e)).
    pose proof (canon_mantissa_lt _ _ Hc) as Hm.
    assert (2 <= 2 ^ (- e)) as Hp.
    { change 2 with (2 ^ 1) at 1. apply Z.pow_le_mono_r; lia. }
    assert (- 2 ^ 53 < n < 0) as Hn.
    { unfold n. split.
      - apply Z.lt_le_trans with (- 2 ^ 52); [lia|]. apply Z.div_le_lower_bound; nia.
      - apply Z.div_lt_upper_bound; lia. }
    destruct (ofZ_exact n ltac:(lia)) as (m' & e' & -> & Hc' & V').
    right. exists m', e'. split; [|split; [assumption|]].
    + f_equal. apply Z.ltb_lt. lia.
    + rewrite V'. change 1%Q with (inject_Z 1). rewrite <- Zle_Qle. lia.
Qed.

Lemma neg_not_in_tier T x bp :
  neg_at_least T x -> is_nonneg_finite (ConcLow bp) = true -> in_tier x bp = false.
Proof.
  intros Hx Hlo. unfold in_tier. apply andb_false_iff. left. unfold ge.
  destruct (ConcLow bp) as [s|s| |s m e]; try discriminate.
  - destruct Hx as [->|(mx & ex & -> & _)]; reflexivity.
  - destruct s; [discriminate|]. destruct Hx as [->|(mx & ex & -> & _)]; reflexivity.
Qed.

(** *** The loop of [calculateAQI] *)

Lemma scan_find_tier (c : float64) (bps : list AQIBreakpoint) :
  scan c bps =
  match find_tier c bps with
  | Some bp => toInt (Round (interpolate c bp))
  | None => 500
  end.
Proof.
  unfold find_tier. induction bps as [|bp rest IH]; simpl; [reflexivity|].
  destruct (in_tier c bp); [reflexivity | exact IH].
Qed.

Lemma at_least_weaken T T' x : (T' <= T)%Q -> at_least T x -> at_least T' x.
Proof. intros H [->|[Hf Hx]]; [left; reflexivity | right; split; [assumption | lra]]. Qed.

Lemma neg_at_least_weaken T T' x : (T' <= T)%Q -> neg_at_least T x -> neg_at_least T' x.
Proof.
  intros H [->|(m & e & -> & Hc & Hx)]; [left; reflexivity|].
  right. exists m, e. split; [reflexivity|]. split; [assumption | lra].
Qed.

Lemma truncate_at_least c :
  at_least (1001 # 2) c -> at_least (1001 # 2) (truncate c).
Proof.
  intros Hc. unfold truncate. rewrite ofZ_10.
  destruct (Z_representable 5005 ltac:(lia)) as (m1 & e1 & C1 & V1).
  destruct (dyadic_representable 1001 (-1) ltac:(lia) ltac:(lia)) as (m2 & e2 & C2 & V2).
  change (inject_Z 5005) with (5005 # 1)%Q in V1.
  change (valQ 1001 (-1)) with (1001 # 2)%Q in V2.
  pose proof valQ_10 as V10. pose proof canon_10 as C10.
  assert (at_least (valQ (Zpos m1) e1)
            (mul c (S754_finite false 5629499534213120 (-49)))) as H1.
  { apply (mul_at_least (1001 # 2) c _ _ m1 e1); try assumption; [reflexivity|].
    rewrite V1, V10. lra. }
  assert (at_least (inject_Z 5005)
            (Floor (mul c (S754_finite false 5629499534213120 (-49))))) as H2.
  { apply Floor_at_least. apply at_least_weaken with (2 := H1).
    change (inject_Z 5005) with (5005 # 1)%Q. lra. }
  apply at_least_weaken with (valQ (Zpos m2) e2); [lra|].
  apply (div_at_least (inject_Z 5005) _ _ _ m2 e2); try assumption; [reflexivity|].
  rewrite V2, V10. change (inject_Z 5005) with (5005 # 1)%Q. lra.
Qed.

Lemma truncate_negative c :
  neg_at_least (bpow (-1074)) c -> neg_at_least (bpow (-1074)) (truncate c).
Proof.
  intros Hc. unfold truncate. rewrite ofZ_10.
  assert (canon 1 (-1074)) as Cm by (apply bounded_canon; reflexivity).
  assert (valQ 1 (-1074) == bpow (-1074))%Q as Vm by (unfold valQ; ring).
  pose proof valQ_10 as V10. pose proof canon_10 as C10.
  pose proof (bpow_pos (-1074)) as Pm.
  assert (bpow (-1074) <= 1 # 16)%Q as Small by (apply (bpow_le (-1074) (-4)); lia).
  assert (neg_at_least (valQ 1 (-1074))
            (mul c (S754_finite false 5629499534213120 (-49)))) as H1.
  { apply (mul_neg_at_least (bpow (-1074)) c _ _ 1 (-1074)); try assumption;
      try (rewrite Vm, V10; lra). }
  apply Floor_neg_at_least in H1.
  apply neg_at_least_weaken with (valQ 1 (-1074)); [lra|].
  apply (div_neg_at_least 1 _ _ _ 1 (-1074)); try assumption; try reflexivity;
    try (rewrite Vm, V10; lra).
Qed.

Lemma scan_range tc bps :
  forallb tier_ok bps = true -> Forall (fun bp => AQIHigh bp <= 500) bps ->
  valid tc = true -> 0 <= scan tc bps <= 500.
Proof.
  intros Hok Hhi Hv. induction Hhi as [|bp rest Hbp _ IH]; cbn [scan]; [lia|].
  cbn [forallb] in Hok. apply andb_true_iff in Hok. destruct Hok as [Hok1 Hok2].
  destruct (in_tier tc bp) eqn:Hin; [|exact (IH Hok2)].
  destruct (tier_result bp tc Hok1 Hv Hin) as [_ H]. lia.
Qed.

Lemma calculateAQI_range c bps :
  forallb tier_ok bps = true -> Forall (fun bp => AQIHigh bp <= 500) bps ->
  valid c = true -> 0 <= calculateAQI c bps <= 500.
Proof.
  intros Hok Hhi Hv. apply scan_range; try assumption. apply valid_truncate. assumption.
Qed.

Lemma pm25_AQIHigh : Forall (fun bp => AQIHigh bp <= 500) pm25Breakpoints.
Proof. repeat constructor; cbn; lia. Qed.

Lemma pm10_AQIHigh : Forall (fun bp => AQIHigh bp <= 500) pm10Breakpoints.
Proof. repeat constructor; cbn; lia. Qed.

Lemma calculateAQI_tier c bps bp :
  forallb tier_ok bps = true -> valid c = true ->
  find_tier (truncate c) bps = Some bp ->
  calculateAQI c bps = round_half_away (SF2Q (interpolate (truncate c) bp)).
Proof.
  intros Hok Hv Hf. unfold calculateAQI. rewrite scan_find_tier, Hf.
  apply find_some in Hf. destruct Hf as [Hin Ht].
  rewrite forallb_forall in Hok.
  exact (proj1 (tier_result bp _ (Hok _ Hin) (valid_truncate _ Hv) Ht)).
Qed.

Lemma computeAQI_max (a b : float64) :
  computeAQI a b =
  Z.max (calculateAQI a pm25Breakpoints) (calculateAQI b pm10Breakpoints).
Proof.
  unfold computeAQI.
  destruct (Z.gtb_spec (calculateAQI a pm25Breakpoints)
                       (calculateAQI b pm10Breakpoints)); lia.
Qed.

(** * Exact results of the truncation *)

(** *** Exact value of a correctly rounded result *)

Lemma inject_Z_sub a b : (inject_Z (a - b) == inject_Z a - inject_Z b)%Q.
Proof. unfold Z.sub. rewrite inject_Z_plus, inject_Z_opp. reflexivity. Qed.

Lemma Qfloor_unique q n :
  (inject_Z n <= q)%Q -> (q < inject_Z n + 1)%Q -> Qfloor q = n.
Proof.
  intros L U.
  pose proof (Qfloor_le q) as L'. pose proof (Qlt_floor q) as U'.
  rewrite inject_Z_plus in U'. change (inject_Z 1) with 1%Q in U'.
  assert (inject_Z (Qfloor q) < inject_Z (n + 1))%Q as A
    by (rewrite inject_Z_plus; change (inject_Z 1) with 1%Q; lra).
  assert (inject_Z n < inject_Z (Qfloor q + 1))%Q as B
    by (rewrite inject_Z_plus; change (inject_Z 1) with 1%Q; lra).
  rewrite <- Zlt_Qlt in A, B. lia.
Qed.

Lemma round_half_even_near q n :
  (inject_Z n - (1 # 2) < q)%Q -> (q < inject_Z n + (1 # 2))%Q ->
  round_half_even q = n.
Proof.
  intros L U. unfold round_half_even.
  destruct (Qlt_le_dec q (inject_Z n)) as [Hlt|Hge].
  - assert (Qfloor q = n - 1) as ->.
    { apply Qfloor_unique; rewrite ?inject_Z_sub, ?inject_Z_plus;
        change (inject_Z 1) with 1%Q; lra. }
    assert ((q - inject_Z (n - 1) ?= 1 # 2)%Q = Gt) as ->; [|lia].
    apply -> Qgt_alt. rewrite inject_Z_sub. change (inject_Z 1) with 1%Q. lra.
  - assert (Qfloor q = n) as -> by (apply Qfloor_unique; lra).
    assert ((q - inject_Z n ?= 1 # 2)%Q = Lt) as ->; [|reflexivity].
    apply -> Qlt_alt. lra.
Qed.

Lemma round_half_even_tie q n :
  (q == inject_Z n + (1 # 2))%Q ->
  round_half_even q = if Z.even n then n else n + 1.
Proof.
  intros E. unfold round_half_even.
  assert (Qfloor q = n) as -> by (apply Qfloor_unique; lra).
  assert ((q - inject_Z n ?= 1 # 2)%Q = Eq) as ->; [|reflexivity].
  apply -> Qeq_alt. lra.
Qed.

Lemma round_nearest_even_inbetween m l x :
  inbetween m l x -> round_nearest_even m l = round_half_even x.
Proof.
  destruct l as [|[| |]]; cbn [inbetween round_nearest_even]; intros H; symmetry.
  - apply round_half_even_near; lra.
  - apply round_half_even_tie. assumption.
  - apply round_half_even_near; lra.
  - unfold round_half_even.
    assert (Qfloor x = m) as -> by (apply Qfloor_unique; lra).
    assert ((x - inject_Z m ?= 1 # 2)%Q = Gt) as ->; [|reflexivity].
    apply -> Qgt_alt. lra.
Qed.

(** When the rounded mantissa stays below [2^53] and the exponent in range,
    the result of [binary_round_aux] is given by [round_half_even]. *)
Lemma binary_round_aux_exact s m e l x :
  0 <= m -> inbetween m l x -> e <= fexp 53 1024 (Zdigits2 m + e) ->
  fexp 53 1024 (Zdigits2 m + e) <= 971 ->
  0 < round_half_even (x * bpow (e - fexp 53 1024 (Zdigits2 m + e))) < 2 ^ 53 ->
  binary_round_aux 53 1024 s m e l =
  S754_finite s
    (Z.to_pos (round_half_even (x * bpow (e - fexp 53 1024 (Zdigits2 m + e)))))
    (fexp 53 1024 (Zdigits2 m + e)).
Proof.
  intros Hm Hx He Hmax HN. unfold binary_round_aux.
  destruct (shr_fexp_exact m e l x Hm Hx He) as (E1 & I1 & B1 & N1).
  destruct (shr_fexp 53 1024 m e l) as [r1 e1]. cbn [fst snd] in *. subst e1.
  set (e1 := fexp 53 1024 (Zdigits2 m + e)) in *.
  rewrite (round_nearest_even_inbetween _ _ _ I1).
  set (N := round_half_even (x * bpow (e - e1))) in *.
  assert (-1074 <= e1) as Hmin by (unfold e1; rewrite fexp64; lia).
  destruct (shr_fexp_renorm N e1 ltac:(lia) Hmin) as (_ & S3 & _).
  destruct (S3 ltac:(lia)) as [M3 E3].
  destruct (shr_fexp 53 1024 N e1 loc_Exact) as [r3 e3]. cbn [fst snd] in *.
  rewrite M3, E3. destruct N as [|p|p]; try lia.
  destruct (Z.leb_spec e1 (1024 - 53)); [reflexivity | lia].
Qed.

(** *** Multiplying and dividing by ten, exactly *)

Lemma Zdigits2_eq m k : 0 < k -> 2 ^ (k - 1) <= m < 2 ^ k -> Zdigits2 m = k.
Proof.
  intros Hk [Hl Hu].
  assert (0 < 2 ^ (k - 1)) by (apply Z.pow_pos_nonneg; lia).
  destruct (Zdigits2_bounds m ltac:(lia)) as (Hd0 & Hdu & Hdl). specialize (Hdl ltac:(lia)).
  pose proof (Zdigits2_ge m (k - 1) ltac:(lia) Hl).
  destruct (Z_le_gt_dec (Zdigits2 m) k); [lia|exfalso].
  assert (2 ^ k <= 2 ^ (Zdigits2 m - 1)) by (apply Z.pow_le_mono_r; lia). lia.
Qed.

Lemma SFdiv_unfold sx mx ex sy my ey :
  let e' := Z.min (fexp 53 1024 (Zdigits2 (Zpos mx) + ex - (Zdigits2 (Zpos my) + ey)))
                  (ex - ey) in
  let s := ex - ey - e' in
  SFdiv 53 1024 (S754_finite sx mx ex) (S754_finite sy my ey) =
  binary_round_aux 53 1024 (xorb sx sy)
    ((Zpos mx * 2 ^ s) / Zpos my) e' (new_location (Zpos my) ((Zpos mx * 2 ^ s) mod Zpos my)).
Proof.
  intros e' s. cbn [SFdiv]. unfold SFdiv_core_binary. fold e'. fold s.
  assert (0 <= s) as Hs by (unfold s, e'; lia).
  assert (match s with Z.pos _ => Z.shiftl (Zpos mx) s | 0 => Zpos mx | Z.neg _ => 0 end
          = Zpos mx * 2 ^ s) as ->.
  { destruct s; [lia | rewrite Z.shiftl_mul_pow2; lia | lia]. }
  unfold Z.div, Z.modulo.
  destruct (Z.div_eucl (Zpos mx * 2 ^ s) (Zpos my)) as [q r]. reflexivity.
Qed.

Lemma round_half_even_ext q q' : (q == q')%Q -> round_half_even q = round_half_even q'.
Proof.
  intros E. unfold round_half_even. rewrite (Qfloor_comp _ _ E).
  assert ((q - inject_Z (Qfloor q') ?= 1 # 2)%Q = (q' - inject_Z (Qfloor q') ?= 1 # 2)%Q) as ->
    by (rewrite E; reflexivity).
  reflexivity.
Qed.

Lemma round_half_even_between a b q :
  (inject_Z a <= q)%Q -> (q <= inject_Z b)%Q -> a <= round_half_even q <= b.
Proof.
  intros L U.
  assert (a <= Qfloor q) as Fa by (rewrite <- (Qfloor_Z a); apply Qfloor_resp_le; assumption).
  assert (Qfloor q <= b) as Fb by (rewrite <- (Qfloor_Z b); apply Qfloor_resp_le; assumption).
  pose proof (Qfloor_le q) as Fl.
  unfold round_half_even.
  destruct (Z.eq_dec (Qfloor q) b) as [E|NE].
  - rewrite E in *.
    assert ((q - inject_Z b ?= 1 # 2)%Q = Lt) as -> by (apply -> Qlt_alt; lra). lia.
  - destruct (q - inject_Z (Qfloor q) ?= 1 # 2)%Q; [destruct (Z.even (Qfloor q))| |]; lia.
Qed.

Lemma Qmake_mul k m d : (k * m # d == inject_Z m * (k # d))%Q.
Proof. unfold Qeq. cbn [Qnum Qden Qmult inject_Z]. rewrite Pos.mul_1_l. ring. Qed.

(** Rounding a multiple of [1/5]: there is no tie. *)
Lemma round_half_even_fifth a :
  -2 <= 5 * round_half_even (a # 5) - a <= 2.
Proof.
  pose proof (Z.div_mod a 5 ltac:(lia)) as DM.
  pose proof (Z.mod_pos_bound a 5 ltac:(lia)) as Hr.
  set (k := a / 5) in *. set (r := a mod 5) in *.
  assert (a # 5 == inject_Z k + inject_Z r * (1 # 5))%Q as E.
  { rewrite DM. unfold Qeq.
    cbn [Qnum Qden Qmult Qplus inject_Z]. rewrite ?Pos.mul_1_l. ring. }
  assert (0 <= inject_Z r <= 4)%Q as Qr.
  { split; [change 0%Q with (inject_Z 0) | change 4%Q with (inject_Z 4)];
      rewrite <- Zle_Qle; lia. }
  destruct (Z_le_gt_dec r 2) as [Hs|Hb].
  - assert (inject_Z r <= 2)%Q by (change 2%Q with (inject_Z 2); rewrite <- Zle_Qle; lia).
    rewrite (round_half_even_near (a # 5) k); [lia | lra | lra].
  - assert (3 <= inject_Z r)%Q by (change 3%Q with (inject_Z 3); rewrite <- Zle_Qle; lia).
    rewrite (round_half_even_near (a # 5) (k + 1));
      rewrite ?inject_Z_plus; change (inject_Z 1) with 1%Q; [lia | lra | lra].
Qed.

Lemma div_ten_exact mF eF :
  2 ^ 52 <= Zpos mF < 2 ^ 53 -> -1070 <= eF <= 971 ->
  div (S754_finite false mF eF) (ofZ 10) =
  if Zpos mF <? 5 * 2 ^ 50
  then S754_finite false (Z.to_pos (round_half_even (8 * Zpos mF # 5))) (eF - 4)
  else S754_finite false (Z.to_pos (round_half_even (4 * Zpos mF # 5))) (eF - 3).
Proof.
  intros Hm He. rewrite ofZ_10. unfold div, prec, emax. rewrite SFdiv_unfold.
  rewrite (Zdigits2_eq (Zpos mF) 53) by lia.
  change (Zdigits2 (Zpos 5629499534213120)) with 53. rewrite fexp64.
  replace (Z.min (Z.max (53 + eF - (53 + -49) - 53) (-1074)) (eF - -49)) with (eF - 4) by lia.
  replace (eF - -49 - (eF - 4)) with 53 by lia. cbn [xorb].
  set (a := Zpos mF * 2 ^ 53). set (b := Zpos 5629499534213120).
  assert (b = 5 * 2 ^ 50) as Eb by reflexivity.
  pose proof (Z.div_mod a b ltac:(lia)) as DM.
  pose proof (Z.mod_pos_bound a b ltac:(lia)) as Hr.
  set (q := a / b) in *. set (r := a mod b) in *.
  assert (0 <= q) as Hq0 by (apply Z.div_pos; unfold a; lia).
  set (x := (inject_Z q + inject_Z r / inject_Z b)%Q).
  assert (inbetween q (new_location b r) x) as Hx
    by (apply new_location_inbetween; lia).
  assert (x == inject_Z (Zpos mF) * (8 # 5))%Q as Ex.
  { assert (x * inject_Z b == inject_Z a)%Q as E1.
    { rewrite DM, inject_Z_plus, inject_Z_mult. unfold x. field.
      change (inject_Z b) with (5629499534213120 # 1)%Q. discriminate. }
    unfold a in E1. rewrite inject_Z_mult in E1.
    change (inject_Z (2 ^ 53)) with (9007199254740992 # 1)%Q in E1.
    change (inject_Z b) with (5629499534213120 # 1)%Q in E1. lra. }
  assert (inject_Z (2 ^ 52) <= inject_Z (Zpos mF) /\
          inject_Z (Zpos mF) <= inject_Z (2 ^ 53 - 1))%Q as [Ql Qu]
    by (rewrite <- !Zle_Qle; lia).
  change (inject_Z (2 ^ 52)) with (4503599627370496 # 1)%Q in Ql.
  change (inject_Z (2 ^ 53 - 1)) with (9007199254740991 # 1)%Q in Qu.
  assert (2 ^ 52 * b <= a < 2 ^ 54 * b) as Ha by (unfold a; lia).
  destruct (Z.ltb_spec (Zpos mF) (5 * 2 ^ 50)) as [Hlt|Hge].
  - assert (Zdigits2 q = 53) as Dq.
    { apply Zdigits2_eq; [lia|]. split.
      - apply Z.div_le_lower_bound; lia.
      - apply Z.div_lt_upper_bound; unfold a; lia. }
    assert (inject_Z (Zpos mF) <= inject_Z (5 * 2 ^ 50 - 1))%Q as Qu'
      by (rewrite <- Zle_Qle; lia).
    change (inject_Z (5 * 2 ^ 50 - 1)) with (5629499534213119 # 1)%Q in Qu'.
    assert (round_half_even (x * bpow (eF - 4 - (eF - 4))) =
            round_half_even (8 * Zpos mF # 5)) as EN.
    { apply round_half_even_ext. replace (eF - 4 - (eF - 4)) with 0 by lia.
      change (bpow 0) with 1%Q. rewrite Qmake_mul. lra. }
    rewrite (binary_round_aux_exact false q (eF - 4) (new_location b r) x Hq0 Hx);
      rewrite ?Dq, ?fexp64;
      replace (Z.max (53 + (eF - 4) - 53) (-1074)) with (eF - 4) by lia;
      try lia.
    + rewrite EN. reflexivity.
    + rewrite EN.
      assert (inject_Z (2 ^ 52) <= 8 * Zpos mF # 5)%Q as B1.
      { rewrite Qmake_mul. change (inject_Z (2 ^ 52)) with (4503599627370496 # 1)%Q. lra. }
      assert (8 * Zpos mF # 5 <= inject_Z (2 ^ 53 - 1))%Q as B2.
      { rewrite Qmake_mul. change (inject_Z (2 ^ 53 - 1)) with (9007199254740991 # 1)%Q. lra. }
      pose proof (round_half_even_between _ _ _ B1 B2). lia.
  - assert (Zdigits2 q = 54) as Dq.
    { apply Zdigits2_eq; [lia|]. split.
      - apply Z.div_le_lower_bound; unfold a; lia.
      - apply Z.div_lt_upper_bound; lia. }
    assert (inject_Z (5 * 2 ^ 50) <= inject_Z (Zpos mF))%Q as Ql'
      by (rewrite <- Zle_Qle; lia).
    change (inject_Z (5 * 2 ^ 50)) with (5629499534213120 # 1)%Q in Ql'.
    assert (round_half_even (x * bpow (eF - 4 - (eF - 3))) =
            round_half_even (4 * Zpos mF # 5)) as EN.
    { apply round_half_even_ext. replace (eF - 4 - (eF - 3)) with (-1) by lia.
      change (bpow (-1)) with (1 # 2)%Q. rewrite Qmake_mul. lra. }
    rewrite (binary_round_aux_exact false q (eF - 4) (new_location b r) x Hq0 Hx);
      rewrite ?Dq, ?fexp64;
      replace (Z.max (54 + (eF - 4) - 53) (-1074)) with (eF - 3) by lia;
      try lia.
    + rewrite EN. reflexivity.
    + rewrite EN.
      assert (inject_Z (2 ^ 52) <= 4 * Zpos mF # 5)%Q as B1.
      { rewrite Qmake_mul. change (inject_Z (2 ^ 52)) with (4503599627370496 # 1)%Q. lra. }
      assert (4 * Zpos mF # 5 <= inject_Z (2 ^ 53 - 1))%Q as B2.
      { rewrite Qmake_mul. change (inject_Z (2 ^ 53 - 1)) with (9007199254740991 # 1)%Q. lra. }
      pose proof (round_half_even_between _ _ _ B1 B2). lia.
Qed.

Lemma round_half_even_le b q :
  (q < inject_Z b + (1 # 2))%Q -> round_half_even q <= b.
Proof.
  intros U.
  assert (Qfloor q <= b) as Fb.
  { assert (Qfloor q < b + 1); [|lia]. rewrite Zlt_Qlt, inject_Z_plus.
    change (inject_Z 1) with 1%Q. pose proof (Qfloor_le q). lra. }
  unfold round_half_even.
  destruct (Z.eq_dec (Qfloor q) b) as [E|NE].
  - rewrite E.
    assert ((q - inject_Z b ?= 1 # 2)%Q = Lt) as -> by (apply -> Qlt_alt; lra). lia.
  - destruct (q - inject_Z (Qfloor q) ?= 1 # 2)%Q; [destruct (Z.even (Qfloor q))| |]; lia.
Qed.

Lemma round_half_even_ge a q :
  (inject_Z a <= q)%Q -> a <= round_half_even q.
Proof.
  intros L.
  assert (a <= Qfloor q) as Fa by (rewrite <- (Qfloor_Z a); apply Qfloor_resp_le; assumption).
  unfold round_half_even.
  destruct (q - inject_Z (Qfloor q) ?= 1 # 2)%Q; [destruct (Z.even (Qfloor q))| |]; lia.
Qed.

Lemma mul_ten_exact N e1 :
  2 ^ 52 <= Zpos N < 2 ^ 53 -> -1074 <= e1 <= 968 ->
  (2 ^ 55 <= 5 * Zpos N -> e1 <= 967) ->
  mul (S754_finite false N e1) (ofZ 10) =
  if 5 * Zpos N <? 2 ^ 55
  then S754_finite false (Z.to_pos (round_half_even (5 * Zpos N # 4))) (e1 + 3)
  else S754_finite false (Z.to_pos (round_half_even (5 * Zpos N # 8))) (e1 + 4).
Proof.
  intros HN He He'. rewrite ofZ_10. unfold mul, prec, emax. cbn [SFmul xorb].
  set (P := Zpos (N * 5629499534213120)).
  assert (P = Zpos N * (5 * 2 ^ 50)) as EP by (unfold P; rewrite Pos2Z.inj_mul; reflexivity).
  assert (inject_Z P == inject_Z (Zpos N) * (5629499534213120 # 1))%Q as QP
    by (rewrite EP, inject_Z_mult; reflexivity).
  assert (inject_Z (2 ^ 52) <= inject_Z (Zpos N) /\
          inject_Z (Zpos N) <= inject_Z (2 ^ 53 - 1))%Q as [Ql Qu]
    by (rewrite <- !Zle_Qle; lia).
  change (inject_Z (2 ^ 52)) with (4503599627370496 # 1)%Q in Ql.
  change (inject_Z (2 ^ 53 - 1)) with (9007199254740991 # 1)%Q in Qu.
  pose proof (inbetween_exact P) as Hx.
  destruct (Z.ltb_spec (5 * Zpos N) (2 ^ 55)) as [Hlt|Hge].
  - assert (Zdigits2 P = 105) as DP by (apply Zdigits2_eq; lia).
    assert (inject_Z (5 * Zpos N) <= inject_Z (2 ^ 55 - 3))%Q as Q5
      by (rewrite <- Zle_Qle; lia).
    rewrite inject_Z_mult in Q5.
    change (inject_Z 5) with 5%Q in Q5.
    change (inject_Z (2 ^ 55 - 3)) with (36028797018963965 # 1)%Q in Q5.
    assert (round_half_even (inject_Z P * bpow (e1 + -49 - (e1 + 3))) =
            round_half_even (5 * Zpos N # 4)) as EN.
    { apply round_half_even_ext. replace (e1 + -49 - (e1 + 3)) with (-52) by lia.
      change (bpow (-52)) with (1 # 4503599627370496)%Q. rewrite QP, Qmake_mul. lra. }
    rewrite (binary_round_aux_exact false P (e1 + -49) loc_Exact (inject_Z P) ltac:(lia) Hx);
      rewrite ?DP, ?fexp64;
      replace (Z.max (105 + (e1 + -49) - 53) (-1074)) with (e1 + 3) by lia;
      try lia.
    + rewrite EN. reflexivity.
    + rewrite EN.
      assert (round_half_even (5 * Zpos N # 4) <= 2 ^ 53 - 1).
      { apply round_half_even_le. rewrite Qmake_mul.
        change (inject_Z (2 ^ 53 - 1)) with (9007199254740991 # 1)%Q. lra. }
      assert (2 ^ 52 <= round_half_even (5 * Zpos N # 4)).
      { apply round_half_even_ge. rewrite Qmake_mul.
        change (inject_Z (2 ^ 52)) with (4503599627370496 # 1)%Q. lra. }
      lia.
  - specialize (He' Hge).
    assert (Zdigits2 P = 106) as DP by (apply Zdigits2_eq; lia).
    assert (inject_Z (2 ^ 55) <= inject_Z (5 * Zpos N))%Q as Q5
      by (rewrite <- Zle_Qle; lia).
    rewrite inject_Z_mult in Q5.
    change (inject_Z 5) with 5%Q in Q5.
    change (inject_Z (2 ^ 55)) with (36028797018963968 # 1)%Q in Q5.
    assert (round_half_even (inject_Z P * bpow (e1 + -49 - (e1 + 4))) =
            round_half_even (5 * Zpos N # 8)) as EN.
    { apply round_half_even_ext. replace (e1 + -49 - (e1 + 4)) with (-53) by lia.
      change (bpow (-53)) with (1 # 9007199254740992)%Q. rewrite QP, Qmake_mul. lra. }
    rewrite (binary_round_aux_exact false P (e1 + -49) loc_Exact (inject_Z P) ltac:(lia) Hx);
      rewrite ?DP, ?fexp64;
      replace (Z.max (106 + (e1 + -49) - 53) (-1074)) with (e1 + 4) by lia;
      try lia.
    + rewrite EN. reflexivity.
    + rewrite EN.
      assert (round_half_even (5 * Zpos N # 8) <= 2 ^ 53 - 1).
      { apply round_half_even_le. rewrite Qmake_mul.
        change (inject_Z (2 ^ 53 - 1)) with (9007199254740991 # 1)%Q. lra. }
      assert (2 ^ 52 <= round_half_even (5 * Zpos N # 8)).
      { apply round_half_even_ge. rewrite Qmake_mul.
        change (inject_Z (2 ^ 52)) with (4503599627370496 # 1)%Q. lra. }
      lia.
Qed.

(** *** Truncation is idempotent *)

Lemma round_half_even_ratio_near a d n :
  2 * a - 2 * Zpos d * n < Zpos d -> 2 * Zpos d * n - 2 * a < Zpos d ->
  round_half_even (a # d) = n.
Proof.
  intros H1 H2. apply round_half_even_near.
  - unfold Qlt. cbn [Qnum Qden Qminus Qplus Qopp Qmult inject_Z].
    rewrite ?Pos.mul_1_l. cbn [Z.opp]. nia.
  - unfold Qlt. cbn [Qnum Qden Qminus Qplus Qopp Qmult inject_Z].
    rewrite ?Pos.mul_1_l. nia.
Qed.

Lemma round_half_even_ratio_tie a d n :
  2 * a = Zpos d * (2 * n + 1) ->
  round_half_even (a # d) = if Z.even n then n else n + 1.
Proof.
  intros H. apply round_half_even_tie.
  unfold Qeq. cbn [Qnum Qden Qminus Qplus Qopp Qmult inject_Z].
  rewrite ?Pos.mul_1_l. nia.
Qed.

Lemma integral_exponent m e : canon m e -> integral m e -> -52 <= e.
Proof.
  intros (Hm & _ & _) [He|Hd]; [lia|].
  destruct (Z_le_gt_dec (-52) e); [assumption|exfalso].
  assert (2 ^ 53 <= 2 ^ (- e)) by (apply Z.pow_le_mono_r; lia).
  rewrite Z.mod_small in Hd; lia.
Qed.

Lemma integral_odd m e : integral m e -> Z.even (Zpos m) = false -> 0 <= e.
Proof.
  intros [He|Hd] Hodd; [assumption|].
  destruct (Z_le_gt_dec 0 e); [assumption|exfalso].
  apply Z.mod_divide in Hd; [|apply Z.pow_nonzero; lia].
  assert ((2 | 2 ^ (- e))) as H2.
  { exists (2 ^ (- e - 1)). rewrite Z.mul_comm, <- Z.pow_succ_r by lia. f_equal. lia. }
  pose proof (Z.divide_trans _ _ _ H2 Hd) as [k Hk].
  rewrite Hk, Z.even_mul in Hodd. cbn in Hodd. rewrite orb_true_r in Hodd. discriminate.
Qed.

Lemma Floor_integral m e :
  canon m e -> integral m e -> Floor (S754_finite false m e) = S754_finite false m e.
Proof.
  intros Hc Hi. unfold Floor.
  destruct (Z.leb_spec 0 e) as [He|He]; [reflexivity|].
  destruct Hi as [?|Hd]; [lia|]. cbn [cond_Zopp].
  set (n := Zpos m / 2 ^ (- e)).
  assert (0 < 2 ^ (- e)) as Hp by (apply Z.pow_pos_nonneg; lia).
  assert (Zpos m = n * 2 ^ (- e)) as En.
  { pose proof (Z.div_mod (Zpos m) (2 ^ (- e)) ltac:(lia)). unfold n. lia. }
  pose proof (canon_mantissa_lt _ _ Hc) as Hm.
  assert (0 < n < 2 ^ 53) as Hn by nia.
  destruct (ofZ_exact n ltac:(lia)) as (m' & e' & -> & Hc' & V').
  replace (n <? 0) with false by (symmetry; apply Z.ltb_ge; lia).
  replace (Z.abs n) with n in V' by lia.
  assert (valQ (Zpos m) e == inject_Z n)%Q as V.
  { rewrite En, valQ_shift by lia. replace (e + - e) with 0 by lia.
    unfold valQ. change (bpow 0) with 1%Q. ring. }
  destruct (canon_unique m' e' m e Hc' Hc ltac:(lra)) as [-> ->]. reflexivity.
Qed.

Lemma even_odd_cases n :
  (Z.even n = true /\ exists k, n = 2 * k) \/ (Z.even n = false /\ exists k, n = 2 * k + 1).
Proof.
  destruct (Z.even n) eqn:E.
  - left. split; [reflexivity|]. apply Z.even_spec in E. exact E.
  - right. split; [reflexivity|]. apply Z.odd_spec. rewrite <- Z.negb_even, E. reflexivity.
Qed.

Lemma truncate_div_ten m e :
  canon m e -> 2 ^ 52 <= Zpos m -> integral m e ->
  truncate (div (S754_finite false m e) (ofZ 10)) = div (S754_finite false m e) (ofZ 10).
Proof.
  intros Hc Hn Hi.
  pose proof (integral_exponent m e Hc Hi) as He.
  pose proof Hc as (Hm & _ & He').
  assert (forall R, Floor R = R -> div R (ofZ 10) = div (S754_finite false m e) (ofZ 10) ->
            mul (div (S754_finite false m e) (ofZ 10)) (ofZ 10) = R ->
            truncate (div (S754_finite false m e) (ofZ 10)) =
            div (S754_finite false m e) (ofZ 10)) as Close.
  { intros R HF HD HM. unfold truncate. rewrite HM, HF. exact HD. }
  pose proof (Floor_integral m e Hc Hi) as FF.
  pose proof (div_ten_exact m e ltac:(lia) ltac:(lia)) as HD.
  rewrite HD in Close |- *. revert HD Close.
  destruct (Z.ltb_spec (Zpos m) (5 * 2 ^ 50)) as [Hlt|Hge]; intros HD Close.
  - (* the quotient has mantissa [8m/5] *)
    pose proof (round_half_even_fifth (8 * Zpos m)) as Hd.
    set (N := round_half_even (8 * Zpos m # 5)) in *.
    assert (2 ^ 55 <= 5 * N) as H55 by lia.
    assert (N < 2 ^ 53) as HN by lia.
    apply (Close (S754_finite false m e)); [exact FF | exact HD |].
    destruct N as [|Np|Np] eqn:EN; try lia. cbn [Z.to_pos].
    rewrite (mul_ten_exact Np (e - 4)) by lia.
    destruct (Z.ltb_spec (5 * Zpos Np) (2 ^ 55)) as [?|_]; [lia|].
    rewrite (round_half_even_ratio_near (5 * Zpos Np) 8 (Zpos m)) by lia.
    cbn [Z.to_pos]. f_equal. lia.
  - (* the quotient has mantissa [4m/5] *)
    pose proof (round_half_even_fifth (4 * Zpos m)) as Hd.
    set (N := round_half_even (4 * Zpos m # 5)) in *.
    assert (2 ^ 52 <= N) as HN0 by lia.
    assert (5 * N < 2 ^ 55) as H55 by lia.
    destruct N as [|Np|Np] eqn:EN; try lia. cbn [Z.to_pos] in *.
    assert (mul (S754_finite false Np (e - 3)) (ofZ 10) =
            S754_finite false (Z.to_pos (round_half_even (5 * Zpos Np # 4))) e) as HM.
    { rewrite (mul_ten_exact Np (e - 3)) by lia.
      destruct (Z.ltb_spec (5 * Zpos Np) (2 ^ 55)) as [_|?]; [|lia].
      f_equal. lia. }
    destruct (Z.eq_dec (5 * Zpos Np - 4 * Zpos m) 2) as [D2|ND2];
      [|destruct (Z.eq_dec (5 * Zpos Np - 4 * Zpos m) (-2)) as [Dm2|NDm2]].
    + (* tie above [m] *)
      rewrite (round_half_even_ratio_tie (5 * Zpos Np) 4 (Zpos m)) in HM by lia.
      destruct (even_odd_cases (Zpos m)) as [[Ev _]|[Ev [k Hk]]]; rewrite Ev in HM.
      * apply (Close (S754_finite false m e)); [exact FF | exact HD | exact HM].
      * pose proof (integral_odd m e Hi Ev) as He0.
        assert (Zpos m + 1 < 2 ^ 53) as Hm1 by lia.
        apply (Close (S754_finite false (Z.to_pos (Zpos m + 1)) e)); [| |exact HM].
        { unfold Floor. destruct (Z.leb_spec 0 e); [reflexivity|lia]. }
        replace (Z.pos m + 1) with (Zpos (m + 1)) by lia. cbn [Z.to_pos].
        rewrite (div_ten_exact (m + 1) e) by lia.
        destruct (Z.ltb_spec (Zpos (m + 1)) (5 * 2 ^ 50)) as [?|_]; [lia|].
        rewrite (round_half_even_ratio_near (4 * Zpos (m + 1)) 5 (Zpos Np)) by lia.
        reflexivity.
    + (* tie below [m] *)
      rewrite (round_half_even_ratio_tie (5 * Zpos Np) 4 (Zpos m - 1)) in HM by lia.
      destruct (even_odd_cases (Zpos m)) as [[Ev [k Hk]]|[Ev [k Hk]]].
      * assert (Z.even (Zpos m - 1) = false) as Ev'.
        { replace (Zpos m - 1) with (2 * (k - 1) + 1) by lia.
          rewrite Z.even_add, Z.even_mul. reflexivity. }
        rewrite Ev' in HM. replace (Zpos m - 1 + 1) with (Zpos m) in HM by lia.
        apply (Close (S754_finite false m e)); [exact FF | exact HD | exact HM].
      * assert (Z.even (Zpos m - 1) = true) as Ev'.
        { replace (Zpos m - 1) with (2 * k) by lia. rewrite Z.even_mul. reflexivity. }
        rewrite Ev' in HM.
        pose proof (integral_odd m e Hi Ev) as He0.
        assert (5 * 2 ^ 50 <= Zpos m - 1) as Hm1 by lia.
        apply (Close (S754_finite false (Z.to_pos (Zpos m - 1)) e)); [| |exact HM].
        { unfold Floor. destruct (Z.leb_spec 0 e); [reflexivity|lia]. }
        replace (Z.pos m - 1) with (Zpos (m - 1)) by lia. cbn [Z.to_pos].
        rewrite (div_ten_exact (m - 1) e) by lia.
        destruct (Z.ltb_spec (Zpos (m - 1)) (5 * 2 ^ 50)) as [?|_]; [lia|].
        rewrite (round_half_even_ratio_near (4 * Zpos (m - 1)) 5 (Zpos Np)) by lia.
        reflexivity.
    + (* no tie *)
      rewrite (round_half_even_ratio_near (5 * Zpos Np) 4 (Zpos m)) in HM by lia.
      apply (Close (S754_finite false m e)); [exact FF | exact HD | exact HM].
Qed.

Lemma integral_of_value m e n :
  canon m e -> (valQ (Zpos m) e == inject_Z n)%Q -> 1 <= n ->
  integral m e /\ 2 ^ 52 <= Zpos m.
Proof.
  intros Hc V Hn. pose proof Hc as (Hm & Hnorm & He).
  destruct (Z_le_gt_dec 0 e) as [H0|H0].
  - split; [left; assumption | lia].
  - assert (0 < 2 ^ (- e)) as Hp by (apply Z.pow_pos_nonneg; lia).
    assert (Zpos m = n * 2 ^ (- e)) as Em.
    { assert (valQ (n * 2 ^ (- e)) e == inject_Z n)%Q as V'.
      { rewrite valQ_shift by lia. replace (e + - e) with 0 by lia.
        unfold valQ. change (bpow 0) with 1%Q. ring. }
      apply Z.le_antisymm; apply valQ_le_inv with e; lra. }
    split.
    + right. rewrite Em. apply Z.mod_mul. lia.
    + destruct Hnorm as [->|?]; [exfalso|assumption].
      assert (2 ^ 53 <= 2 ^ (- -1074)) by (apply Z.pow_le_mono_r; lia). nia.
Qed.

Lemma truncate_fixed_after_Floor p :
  fin_valid p -> (0 < SF2Q p)%Q ->
  truncate (div (Floor p) (ofZ 10)) = div (Floor p) (ofZ 10).
Proof.
  intros Hf Hp.
  destruct (fin_valid_nonneg p Hf ltac:(lra)) as [[s ->]|(m & e & -> & Hc)];
    [cbn [SF2Q] in Hp; lra|].
  unfold Floor. destruct (Z.leb_spec 0 e) as [He|He].
  - apply truncate_div_ten; [assumption | | left; assumption].
    destruct Hc as (_ & [->|?] & _); lia.
  - cbn [cond_Zopp]. set (n := Zpos m / 2 ^ (- e)).
    pose proof (canon_mantissa_lt _ _ Hc) as Hm.
    assert (0 < 2 ^ (- e)) as Hpw by (apply Z.pow_pos_nonneg; lia).
    assert (0 <= n < 2 ^ 53) as Hn.
    { unfold n. split; [apply Z.div_pos; lia|].
      apply Z.div_lt_upper_bound; nia. }
    destruct (Z.eq_dec n 0) as [->|Hn0]; [reflexivity|].
    destruct (ofZ_exact n ltac:(lia)) as (m' & e' & -> & Hc' & V').
    replace (n <? 0) with false by (symmetry; apply Z.ltb_ge; lia).
    replace (Z.abs n) with n in V' by lia.
    destruct (integral_of_value m' e' n Hc' V' ltac:(lia)) as [Hi Hnorm].
    apply truncate_div_ten; assumption.
Qed.

Lemma truncate_truncate c :
  valid c = true -> le (ofZ 0) c = true -> truncate (truncate c) = truncate c.
Proof.
  intros Hv Hle. change (ofZ 0) with (S754_zero false) in Hle. unfold le in Hle.
  destruct c as [s|s| |s m e]; try discriminate.
  - destruct s; reflexivity.
  - destruct s; [discriminate | reflexivity].
  - destruct s; [discriminate|]. apply valid_finite_canon in Hv.
    unfold truncate at 2 3. rewrite ofZ_10.
    assert (canon 1 (-1074)) as Cm by (apply bounded_canon; reflexivity).
    pose proof (mul_rounded false m e false _ _ Hv canon_10) as R.
    assert (valQ 1 (-1074) <= valQ (Zpos m) e * valQ (Zpos 5629499534213120) (-49))%Q as Hlow.
    { pose proof (canon_ge_min m e Hv) as G. pose proof valQ_10 as V10.
      assert (valQ 1 (-1074) == bpow (-1074))%Q as -> by (unfold valQ; ring).
      pose proof (bpow_pos (-1074)). rewrite V10. lra. }
    destruct (rounded_lower _ _ _ 1 (-1074) Cm Hlow R) as [E|(mp & ep & E & Hcp & Hl)];
      unfold mul, prec, emax; rewrite E.
    + reflexivity.
    + rewrite <- ofZ_10. apply truncate_fixed_after_Floor; [exact Hcp|].
      cbn [SF2Q cond_Zopp xorb]. apply valQ_pos. lia.
Qed.

(** *** The truncated reading is a one-decimal literal *)

Lemma ofZ_integer_float m e :
  canon m e -> 0 <= e -> ofZ (Zpos m * 2 ^ e) = S754_finite false m e.
Proof.
  intros Hc He. unfold ofZ.
  assert (0 < 2 ^ e) as Hp by (apply Z.pow_pos_nonneg; lia).
  pose proof (binary_normalize_rounded (Zpos m * 2 ^ e) 0) as R.
  destruct (Zpos m * 2 ^ e) as [|n|n] eqn:En; try lia.
  apply rounded_representable; [assumption|].
  apply rounded_ext with (2 := R).
  rewrite <- En, valQ_shift by assumption. replace (0 + e) with e by lia. reflexivity.
Qed.

Lemma Floor_ofZ m e :
  canon m e -> Floor (S754_finite false m e) = ofZ (Qfloor (valQ (Zpos m) e)).
Proof.
  intros Hc. unfold Floor. destruct (Z.leb_spec 0 e) as [He|He].
  - assert (Qfloor (valQ (Zpos m) e) = Zpos m * 2 ^ e) as ->.
    { rewrite <- (Qfloor_Z (Zpos m * 2 ^ e)). apply Qfloor_comp. apply valQ_integer. assumption. }
    symmetry. apply ofZ_integer_float; assumption.
  - rewrite Qfloor_valQ by assumption. reflexivity.
Qed.

Lemma truncate_is_dec1 c :
  valid c = true -> le (ofZ 0) c = true ->
  is_finite (mul c (ofZ 10)) = true -> c <> S754_zero true ->
  truncate c = dec1 (Qfloor (SF2Q (mul c (ofZ 10)))).
Proof.
  intros Hv Hle Hfin Hnz. change (ofZ 0) with (S754_zero false) in Hle. unfold le in Hle.
  destruct c as [s|s| |s m e]; try discriminate.
  - destruct s; [congruence | reflexivity].
  - destruct s; [discriminate|]. apply valid_finite_canon in Hv.
    unfold truncate, dec1. f_equal. revert Hfin. rewrite ofZ_10.
    assert (canon 1 (-1074)) as Cm by (apply bounded_canon; reflexivity).
    pose proof (mul_rounded false m e false _ _ Hv canon_10) as R.
    assert (valQ 1 (-1074) <= valQ (Zpos m) e * valQ (Zpos 5629499534213120) (-49))%Q as Hlow.
    { pose proof (canon_ge_min m e Hv) as G. pose proof valQ_10 as V10.
      assert (valQ 1 (-1074) == bpow (-1074))%Q as -> by (unfold valQ; ring).
      pose proof (bpow_pos (-1074)). rewrite V10. lra. }
    destruct (rounded_lower _ _ _ 1 (-1074) Cm Hlow R) as [E|(mp & ep & E & Hcp & Hl)];
      unfold mul, prec, emax; rewrite E; [discriminate|].
    intros _. cbn [xorb SF2Q cond_Zopp]. apply Floor_ofZ. assumption.
Qed.

(** * Further properties of the lookup *)

(** *** One-decimal readings are fixed points of the truncation *)

Lemma ofZ_positive_shape k :
  0 < k ->
  ofZ k = S754_infinity false \/
  exists m e, ofZ k = S754_finite false m e /\ canon m e /\ integral m e /\ 2 ^ 52 <= Zpos m.
Proof.
  intros Hk. destruct (Z_lt_le_dec k (2 ^ 53)) as [Hs|Hb].
  - right. destruct (ofZ_exact k ltac:(lia)) as (m & e & E & Hc & V).
    replace (k <? 0) with false in E by (symmetry; apply Z.ltb_ge; lia).
    replace (Z.abs k) with k in V by lia.
    destruct (integral_of_value m e k Hc V ltac:(lia)) as [Hi Hn].
    exists m, e. auto.
  - pose proof (binary_normalize_rounded k 0) as R. unfold ofZ, prec, emax.
    destruct k as [|p|p]; try lia.
    assert (canon 4503599627370496 1) as CT by (apply bounded_canon; reflexivity).
    assert (valQ (Zpos 4503599627370496) 1 <= valQ (Zpos p) 0)%Q as HT.
    { change (valQ (Zpos 4503599627370496) 1) with (inject_Z (2 ^ 53)).
      unfold valQ. change (bpow 0) with 1%Q. rewrite Qmult_1_r, <- Zle_Qle. assumption. }
    destruct (rounded_lower _ _ _ _ _ CT HT R) as [->|(m & e & -> & Hc & Hl)];
      [left; reflexivity | right].
    exists m, e. split; [reflexivity|]. split; [assumption|].
    assert (0 < e) as He.
    { destruct (Z_lt_le_dec 0 e) as [|Hle]; [assumption|exfalso].
      pose proof (canon_below_binade m e (2 ^ 52) 1 Hc ltac:(lia) ltac:(lia)) as C.
      change (valQ (2 ^ 52) 1) with (valQ (Zpos 4503599627370496) 1) in C. lra. }
    split; [left; lia|]. destruct Hc as (_ & [->|?] & _); lia.
Qed.

Lemma truncate_dec1_fixed k : 0 <= k -> truncate (dec1 k) = dec1 k.
Proof.
  intros Hk. destruct (Z.eq_dec k 0) as [->|Hn]; [reflexivity|].
  unfold dec1.
  destruct (ofZ_positive_shape k ltac:(lia)) as [E|(m & e & E & Hc & Hi & Hn52)]; rewrite E.
  - reflexivity.
  - apply truncate_div_ten; assumption.
Qed.

(** *** The sub-index stays in the AQI range of the matched tier *)

Lemma add_lower p n :
  fin_valid p -> (0 <= SF2Q p)%Q -> 0 <= n < 2 ^ 53 ->
  fin_valid (add p (ofZ n)) -> (inject_Z n <= SF2Q (add p (ofZ n)))%Q.
Proof.
  intros Hp Hp0 Hn.
  destruct (Z.eq_dec n 0) as [->|Hn0].
  - change (ofZ 0) with (S754_zero false). change (inject_Z 0) with 0%Q.
    destruct (fin_valid_nonneg p Hp Hp0) as [[s ->]|(mp & ep & -> & Hcp)].
    + intros _. destruct s; cbn; lra.
    + intros _. exact Hp0.
  - destruct (ofZ_exact n ltac:(lia)) as (mn & en & En & Hcn & Vn).
    replace (n <? 0) with false in En by (symmetry; apply Z.ltb_ge; lia).
    replace (Z.abs n) with n in Vn by lia. rewrite En.
    destruct (fin_valid_nonneg p Hp Hp0) as [[s ->]|(mp & ep & -> & Hcp)].
    + intros _. change (add (S754_zero s) (S754_finite false mn en))
        with (S754_finite false mn en). cbn [SF2Q cond_Zopp]. lra.
    + destruct (add_finite false mp ep false mn en) as (k & -> & V).
      cbn [SF2Q cond_Zopp] in *.
      pose proof (valQ_pos (Zpos mp) ep ltac:(lia)) as Pp.
      pose proof (valQ_pos (Zpos mn) en ltac:(lia)) as Pn.
      pose proof (binary_normalize_rounded k (Z.min ep en)) as R.
      destruct k as [|q|q].
      * exfalso. change (valQ 0 (Z.min ep en)) with (0 * bpow (Z.min ep en))%Q in V. lra.
      * assert (valQ (Zpos mn) en <= valQ (Zpos q) (Z.min ep en))%Q as Hv by lra.
        destruct (rounded_lower _ _ _ mn en Hcn Hv R) as [->|(m & e & -> & Hc & Hb)].
        -- intros [].
        -- intros _. cbn [SF2Q cond_Zopp]. lra.
      * exfalso. pose proof (valQ_pos (Zpos q) (Z.min ep en) ltac:(lia)) as P.
        pose proof (valQ_opp (Zpos q) (Z.min ep en)) as O. cbn [Z.opp] in O. lra.
Qed.

Lemma tier_product bp tc :
  tier_ok bp = true -> valid tc = true -> in_tier tc bp = true ->
  fin_valid (mul (tier_slope bp) (sub tc (ConcLow bp))) /\
  (0 <= SF2Q (mul (tier_slope bp) (sub tc (ConcLow bp))))%Q.
Proof.
  unfold tier_ok. rewrite !andb_true_iff.
  intros (((((((((((((Vlo & Nlo) & Vhi) & Fhi) & Vs) & Ps) & I0) & I1) & K1a) & K1b)
            & K2a) & K2b) & K3b) & K3c) Vtc Hin.
  apply Z.ltb_lt in K1a, K1b, K2a, K2b.
  assert (fin_valid (ConcLow bp) /\ (0 <= SF2Q (ConcLow bp))%Q) as [Flo Plo].
  { destruct (ConcLow bp) as [s|s| |s m e]; try discriminate.
    - split; [exact I | cbn; lra].
    - destruct s; [discriminate|]. split; [apply bounded_canon; exact Vlo|].
      cbn [SF2Q cond_Zopp]. apply Qlt_le_weak, valQ_pos. lia. }
  pose proof (valid_is_finite _ Vhi Fhi) as Fh.
  destruct (in_tier_bounds tc bp Vtc Flo Fh Hin) as (Ftc & Htc).
  destruct (dyadic_representable (tier_K1 bp) (-6) ltac:(lia) ltac:(lia)) as (m1 & e1 & C1 & V1).
  destruct (dyadic_representable (tier_K2 bp) (-6) ltac:(lia) ltac:(lia)) as (m2 & e2 & C2 & V2).
  pose proof (Qle_ceiling ((SF2Q (ConcHigh bp) - SF2Q (ConcLow bp)) * inject_Z 64)) as B1.
  fold (tier_K1 bp) in B1.
  pose proof (Qle_ceiling (SF2Q (tier_slope bp) * inject_Z (tier_K1 bp))) as B2.
  fold (tier_K2 bp) in B2.
  rewrite valQ_64 in V1, V2.
  change (inject_Z 64) with 64%Q in *.
  destruct (sub_bounded tc (ConcLow bp) m1 e1 Ftc Flo Plo ltac:(lra)) as (Fd & Bd);
    [rewrite V1; lra | assumption |].
  destruct (tier_slope bp) as [s|s| |s ms es] eqn:Es; try discriminate.
  destruct s; [discriminate|]. apply valid_finite_canon in Vs.
  cbn [SF2Q cond_Zopp] in B2.
  pose proof (valQ_pos (Zpos ms) es ltac:(lia)) as Pslope.
  destruct (mul_bounded ms es _ _ m2 e2 Vs Fd Bd) as (Fp & Bp); [|assumption|].
  { rewrite V1, V2.
    setoid_replace (valQ (Zpos ms) es * (inject_Z (tier_K1 bp) * (1 # 64)))%Q
      with ((valQ (Zpos ms) es * inject_Z (tier_K1 bp)) * (1 # 64))%Q by ring.
    lra. }
  split; [assumption | lra].
Qed.

Lemma tier_result_range bp tc :
  tier_ok bp = true -> valid tc = true -> in_tier tc bp = true ->
  AQILow bp <= toInt (Round (interpolate tc bp)) <= AQIHigh bp.
Proof.
  intros Hok Vtc Hin.
  destruct (tier_result bp tc Hok Vtc Hin) as [E [_ Hhi]]. split; [|assumption].
  destruct (tier_interpolate bp tc Hok Vtc Hin) as (Fa & Ba).
  destruct (tier_product bp tc Hok Vtc Hin) as (Fp & Bp).
  assert (0 <= AQILow bp < 2 ^ 53) as Hn.
  { unfold tier_ok in Hok. rewrite !andb_true_iff in Hok.
    destruct Hok as ((((((((_ & I0) & I1) & _) & _) & _) & _) & _) & _).
    apply Z.leb_le in I0. apply Z.ltb_lt in I1. lia. }
  unfold interpolate in *. fold (tier_slope bp) in *.
  pose proof (add_lower _ (AQILow bp) Fp Bp Hn Fa) as L.
  rewrite E. unfold round_half_away.
  match goal with |- context [Qle_bool 0 ?v] =>
    assert (Qle_bool 0 v = true) as -> by (apply Qle_bool_iff; lra) end.
  rewrite <- (Qfloor_Z (AQILow bp)) at 1. apply Qfloor_resp_le. lra.
Qed.

(** *** The scan of an ordered table *)

Lemma tiers_sorted_cons bp rest :
  tiers_sorted (bp :: rest) = true ->
  fin_valid (ConcLow bp) /\ fin_valid (ConcHigh bp) /\
  (SF2Q (ConcLow bp) <= SF2Q (ConcHigh bp))%Q /\
  (forall bp', In bp' rest -> lt (ConcHigh bp) (ConcLow bp') = true) /\
  tiers_sorted rest = true.
Proof.
  cbn [tiers_sorted]. rewrite !andb_true_iff.
  intros ((((((Vl & Fl) & Vh) & Fh) & Hle) & Hall) & Hrest).
  pose proof (valid_is_finite _ Vl Fl) as Flo.
  pose proof (valid_is_finite _ Vh Fh) as Fhi.
  repeat split; try assumption.
  - apply SFleb_Q; assumption.
  - intros bp' Hin. rewrite forallb_forall in Hall. auto.
Qed.

Lemma tiers_sorted_fin bps bp :
  tiers_sorted bps = true -> In bp bps ->
  fin_valid (ConcLow bp) /\ fin_valid (ConcHigh bp) /\
  (SF2Q (ConcLow bp) <= SF2Q (ConcHigh bp))%Q.
Proof.
  induction bps as [|b rest IH]; intros Hs Hin; [destruct Hin|].
  destruct (tiers_sorted_cons b rest Hs) as (Fl & Fh & Hle & _ & Hrest).
  destruct Hin as [<-|Hin]; [auto | exact (IH Hrest Hin)].
Qed.

Lemma in_tier_fin tc bp :
  valid tc = true -> fin_valid (ConcLow bp) -> fin_valid (ConcHigh bp) ->
  in_tier tc bp = true ->
  fin_valid tc /\ (SF2Q (ConcLow bp) <= SF2Q tc <= SF2Q (ConcHigh bp))%Q.
Proof. apply in_tier_bounds. Qed.

Lemma lt_values x y :
  fin_valid x -> fin_valid y -> lt x y = true -> (SF2Q x < SF2Q y)%Q.
Proof. intros Hx Hy H. apply SFltb_Q; assumption. Qed.

(** In an ordered table at most one tier contains a given reading. *)
Lemma in_tier_unique bps tc bp1 bp2 :
  tiers_sorted bps = true -> valid tc = true ->
  In bp1 bps -> In bp2 bps ->
  in_tier tc bp1 = true -> in_tier tc bp2 = true -> bp1 = bp2.
Proof.
  intros Hs Hv. revert bp1 bp2.
  induction bps as [|b rest IH]; intros bp1 bp2 H1 H2 T1 T2; [destruct H1|].
  destruct (tiers_sorted_cons b rest Hs) as (Fl & Fh & Hle & Hall & Hrest).
  assert (forall bp', In bp' rest -> in_tier tc b = true -> in_tier tc bp' = true -> False)
    as Excl.
  { intros bp' Hin Tb Tb'.
    destruct (tiers_sorted_fin rest bp' Hrest Hin) as (Fl' & Fh' & _).
    destruct (in_tier_bounds tc b Hv Fl Fh Tb) as (Ftc & B).
    destruct (in_tier_bounds tc bp' Hv Fl' Fh' Tb') as (_ & B').
    pose proof (lt_values _ _ Fh Fl' (Hall bp' Hin)). lra. }
  destruct H1 as [<-|H1], H2 as [<-|H2].
  - reflexivity.
  - exfalso. eauto.
  - exfalso. eauto.
  - exact (IH Hrest bp1 bp2 H1 H2 T1 T2).
Qed.

Lemma find_tier_iff bps tc bp :
  tiers_sorted bps = true -> valid tc = true ->
  (find_tier tc bps = Some bp <-> In bp bps /\ in_tier tc bp = true).
Proof.
  intros Hs Hv. split.
  - intros H. apply find_some in H. exact H.
  - intros [Hin Ht]. unfold find_tier.
    destruct (find (in_tier tc) bps) as [bp'|] eqn:F.
    + apply find_some in F. destruct F as [Hin' Ht'].
      f_equal. exact (in_tier_unique bps tc bp' bp Hs Hv Hin' Hin Ht' Ht).
    + pose proof (find_none _ _ F bp Hin) as C. congruence.
Qed.

Lemma pm25_sorted : tiers_sorted pm25Breakpoints = true.
Proof. vm_compute. reflexivity. Qed.

Lemma pm10_sorted : tiers_sorted pm10Breakpoints = true.
Proof. vm_compute. reflexivity. Qed.

(** A reading strictly between two consecutive tiers of an ordered table
    matches no tier. *)
Lemma gap_no_tier pre bp1 bp2 post tc :
  tiers_sorted (pre ++ bp1 :: bp2 :: post) = true -> valid tc = true ->
  lt (ConcHigh bp1) tc = true -> lt tc (ConcLow bp2) = true ->
  Forall (fun bp => in_tier tc bp = false) (pre ++ bp1 :: bp2 :: post).
Proof.
  intros Hs Hv H1 H2.
  assert (In bp1 (pre ++ bp1 :: bp2 :: post)) as I1
    by (apply in_or_app; right; left; reflexivity).
  assert (In bp2 (pre ++ bp1 :: bp2 :: post)) as I2
    by (apply in_or_app; right; right; left; reflexivity).
  destruct (tiers_sorted_fin _ _ Hs I1) as (Fl1 & Fh1 & L1).
  destruct (tiers_sorted_fin _ _ Hs I2) as (Fl2 & Fh2 & L2).
  assert (fin_valid tc) as Ftc.
  { destruct (valid_fin_valid tc Hv) as [?|[->|[s ->]]]; [assumption|exfalso|exfalso].
    - destruct (ConcHigh bp1); discriminate.
    - destruct s.
      + destruct (ConcHigh bp1); try contradiction; discriminate.
      + destruct (ConcLow bp2); try contradiction; discriminate. }
  pose proof (lt_values _ _ Fh1 Ftc H1) as V1.
  pose proof (lt_values _ _ Ftc Fl2 H2) as V2.
  assert (forall bp, fin_valid (ConcLow bp) -> fin_valid (ConcHigh bp) ->
            (SF2Q (ConcHigh bp) <= SF2Q (ConcHigh bp1))%Q \/
            (SF2Q (ConcLow bp2) <= SF2Q (ConcLow bp))%Q ->
            in_tier tc bp = false) as Out.
  { intros bp Fl Fh Hside. destruct (in_tier tc bp) eqn:T; [exfalso|reflexivity].
    destruct (in_tier_bounds tc bp Hv Fl Fh T) as (_ & B). destruct Hside; lra. }
  clear I1 I2. revert Hs. induction pre as [|b pre IH]; intros Hs.
  - cbn [app] in *.
    destruct (tiers_sorted_cons _ _ Hs) as (_ & _ & _ & Hall1 & Hs2).
    destruct (tiers_sorted_cons _ _ Hs2) as (_ & _ & _ & Hall2 & Hs3).
    constructor; [apply Out; try assumption; left; lra|].
    constructor; [apply Out; try assumption; right; lra|].
    apply Forall_forall. intros bp Hin.
    destruct (tiers_sorted_fin _ _ Hs3 Hin) as (Fl & Fh & L).
    apply Out; try assumption. right.
    pose proof (lt_values _ _ Fh2 Fl (Hall2 bp Hin)). lra.
  - cbn [app] in *.
    destruct (tiers_sorted_cons _ _ Hs) as (Flb & Fhb & Lb & Hallb & Hs').
    constructor; [|exact (IH Hs')].
    apply Out; try assumption. left.
    assert (In bp1 (pre ++ bp1 :: bp2 :: post)) as I1
      by (apply in_or_app; right; left; reflexivity).
    pose proof (lt_values _ _ Fhb Fl1 (Hallb bp1 I1)). lra.
Qed.

(** *** The sub-index stays within the matched tier *)

Lemma calculateAQI_tier_range c bps bp :
  forallb tier_ok bps = true -> valid c = true ->
  find_tier (truncate c) bps = Some bp ->
  AQILow bp <= calculateAQI c bps <= AQIHigh bp.
Proof.
  intros Hok Hv Hf. unfold calculateAQI. rewrite scan_find_tier, Hf.
  apply find_some in Hf. destruct Hf as [Hin Ht].
  rewrite forallb_forall in Hok.
  exact (tier_result_range bp _ (Hok _ Hin) (valid_truncate _ Hv) Ht).
Qed.

(** *** Readings above the last tier *)

Lemma truncate_at_least_Z K c :
  0 < K -> 10 * K < 2 ^ 53 ->
  at_least (inject_Z K) c -> at_least (inject_Z K) (truncate c).
Proof.
  intros HK HK10 Hc. unfold truncate. rewrite ofZ_10.
  destruct (Z_representable (10 * K) ltac:(lia)) as (m1 & e1 & C1 & V1).
  destruct (Z_representable K ltac:(lia)) as (m2 & e2 & C2 & V2).
  rewrite inject_Z_mult in V1. change (inject_Z 10) with 10%Q in V1.
  pose proof valQ_10 as V10. pose proof canon_10 as C10.
  assert (0 < inject_Z K)%Q as PK
    by (change 0%Q with (inject_Z 0); rewrite <- Zlt_Qlt; assumption).
  assert (at_least (valQ (Zpos m1) e1)
            (mul c (S754_finite false 5629499534213120 (-49)))) as H1.
  { apply (mul_at_least (inject_Z K) c _ _ m1 e1); try assumption.
    rewrite V1, V10. lra. }
  assert (at_least (inject_Z (10 * K))
            (Floor (mul c (S754_finite false 5629499534213120 (-49))))) as H2.
  { apply Floor_at_least. apply at_least_weaken with (2 := H1).
    rewrite inject_Z_mult. change (inject_Z 10) with 10%Q. lra. }
  apply at_least_weaken with (valQ (Zpos m2) e2); [lra|].
  apply (div_at_least (inject_Z (10 * K)) _ _ _ m2 e2); try assumption.
  - rewrite inject_Z_mult. change (inject_Z 10) with 10%Q. lra.
  - rewrite V2, V10, inject_Z_mult. change (inject_Z 10) with 10%Q. lra.
Qed.

(** A truncated reading that is at least the upper bound of the last tier of
    the PM10 table gets 500: at the bound from the last tier, above it from
    the fall-through of the loop. *)
Lemma pm10_last_tier tc :
  at_least (inject_Z 604) tc -> scan tc pm10Breakpoints = 500.
Proof.
  intros [->|[Hf Hv]]; [reflexivity|].
  destruct (Qlt_le_dec (inject_Z 604) (SF2Q tc)) as [Hgt|Hle].
  - apply scan_no_tier.
    repeat constructor;
      (apply at_least_not_in_tier with (T := SF2Q tc);
       [right; split; [assumption | lra]
       | apply valid_is_finite; reflexivity
       | apply Qle_lt_trans with (2 := Hgt); vm_compute; discriminate]).
  - assert (SF2Q tc == inject_Z 604)%Q as E by lra.
    destruct (ofZ_exact 604 ltac:(cbn; lia)) as (m & e & Eo & Hc & V).
    cbn [Z.abs] in V. rewrite <- E in V.
    assert (tc = ofZ 604) as ->; [|reflexivity].
    rewrite Eo. change (604 <? 0) with false.
    destruct tc as [s|s| |s mt et]; cbn [fin_valid] in Hf; try tauto.
    + cbn [SF2Q] in V. pose proof (valQ_pos (Zpos m) e ltac:(lia)). lra.
    + destruct s; cbn [SF2Q cond_Zopp] in V.
      * change (Zneg mt) with (- Zpos mt) in V. rewrite valQ_opp in V.
        pose proof (valQ_pos (Zpos m) e ltac:(lia)).
        pose proof (valQ_pos (Zpos mt) et ltac:(lia)). lra.
      * destruct (canon_unique mt et m e Hf Hc ltac:(lra)) as [-> ->]. reflexivity.
Qed.

Lemma pm10_above c :
  valid c = true -> le (ofZ 604) c = true -> calculateAQI c pm10Breakpoints = 500.
Proof.
  intros Hv Hle.
  assert (fin_valid (ofZ 604)) as Hf by (apply valid_is_finite; reflexivity).
  pose proof (le_at_least _ _ Hf Hv Hle) as H0.
  destruct (SF2Q_ofZ 604 ltac:(cbn; lia)) as [_ E].
  apply at_least_weaken with (T' := inject_Z 604) in H0; [|rewrite E; apply Qle_refl].
  apply pm10_last_tier. apply truncate_at_least_Z; [lia | lia | exact H0].
Qed.

Lemma pm25_above c :
  valid c = true -> le (dec1 5005) c = true -> calculateAQI c pm25Breakpoints = 500.
Proof.
  intros Hv Hle.
  assert (fin_valid (dec1 5005)) as Hf by (apply valid_is_finite; reflexivity).
  pose proof (le_at_least _ _ Hf Hv Hle) as H0.
  apply at_least_weaken with (T' := (1001 # 2)%Q) in H0; [|vm_compute; discriminate].
  apply truncate_at_least in H0. unfold calculateAQI.
  apply scan_no_tier.
  repeat constructor;
    (apply at_least_not_in_tier with (T := (1001 # 2)%Q);
     [assumption | apply valid_is_finite; reflexivity | vm_compute; reflexivity]).
Qed.

(** * Monotonicity of the truncation *)

(** *** Rounding to nearest is monotone *)

Lemma round_half_even_close q :
  (inject_Z (round_half_even q) - (1 # 2) <= q /\
   q <= inject_Z (round_half_even q) + (1 # 2))%Q.
Proof.
  unfold round_half_even.
  pose proof (Qfloor_le q) as L. pose proof (Qlt_floor q) as U.
  rewrite inject_Z_plus in U. change (inject_Z 1) with 1%Q in U.
  destruct (q - inject_Z (Qfloor q) ?= 1 # 2)%Q eqn:C.
  - apply Qeq_alt in C.
    destruct (Z.even (Qfloor q)); rewrite ?inject_Z_plus;
      change (inject_Z 1) with 1%Q; lra.
  - apply Qlt_alt in C. lra.
  - apply Qgt_alt in C. rewrite inject_Z_plus. change (inject_Z 1) with 1%Q. lra.
Qed.

Lemma round_half_even_mono q q' :
  (q <= q')%Q -> round_half_even q <= round_half_even q'.
Proof.
  intros H.
  destruct (Z_le_gt_dec (round_half_even q) (round_half_even q')) as [|Hgt];
    [assumption|exfalso].
  destruct (round_half_even_close q) as [L _].
  destruct (round_half_even_close q') as [_ U].
  assert (inject_Z (round_half_even q') + 1 <= inject_Z (round_half_even q))%Q as G.
  { change 1%Q with (inject_Z 1). rewrite <- inject_Z_plus, <- Zle_Qle. lia. }
  assert (q == q')%Q as E by lra.
  rewrite (round_half_even_ext _ _ E) in Hgt. lia.
Qed.

Lemma bpow_cancel v e : (v * bpow (- e) * bpow e == v)%Q.
Proof.
  rewrite <- Qmult_assoc, <- bpow_add. replace (- e + e) with 0 by lia.
  change (bpow 0) with 1%Q. ring.
Qed.

Lemma nearest_ext s v w r : (v == w)%Q -> nearest s v r -> nearest s w r.
Proof.
  intros E (e1 & H1 & H2 & H3 & H4 & H5). exists e1.
  split; [assumption|]. split; [rewrite <- E; assumption|].
  split; [rewrite <- E; assumption|].
  split; [destruct H4 as [?|H4]; [left; assumption | right; rewrite <- E; assumption]|].
  rewrite H5. f_equal. apply round_half_even_ext. rewrite E. reflexivity.
Qed.

Lemma binary_round_aux_nearest s m e l x :
  0 <= m -> inbetween m l x -> e <= fexp 53 1024 (Zdigits2 m + e) ->
  nearest s (x * bpow e) (binary_round_aux 53 1024 s m e l).
Proof.
  intros Hm Hx He. unfold binary_round_aux.
  destruct (shr_fexp_exact m e l x Hm Hx He) as (E1 & I1 & B1 & N1).
  destruct (shr_fexp 53 1024 m e l) as [r1 e1']. cbn [fst snd] in *. subst e1'.
  set (e1 := fexp 53 1024 (Zdigits2 m + e)) in *.
  rewrite (round_nearest_even_inbetween _ _ _ I1).
  set (y := (x * bpow (e - e1))%Q) in *.
  assert (-1074 <= e1) as Hmin by (unfold e1; rewrite fexp64; lia).
  destruct (inbetween_bounds _ _ _ I1) as [Ly Uy].
  destruct (inbetween_bounds _ _ _ Hx) as [Lx _].
  set (m1 := shr_m r1) in *.
  assert (inject_Z 0 <= inject_Z m)%Q as Pm by (rewrite <- Zle_Qle; assumption).
  change (inject_Z 0) with 0%Q in Pm.
  assert (x * bpow e * bpow (- e1) == y)%Q as Ey.
  { unfold y. rewrite <- Qmult_assoc, <- bpow_add.
    replace (e + - e1) with (e - e1) by lia. reflexivity. }
  assert (m1 <= round_half_even y <= m1 + 1) as HN.
  { apply round_half_even_between; [assumption|].
    rewrite inject_Z_plus. change (inject_Z 1) with 1%Q. lra. }
  exists e1. split; [assumption|]. split.
  { pose proof (bpow_pos e). apply Qmult_le_0_compat; lra. }
  split.
  { rewrite Ey. apply Qlt_le_trans with (1 := Uy).
    change 1%Q with (inject_Z 1). rewrite <- inject_Z_plus, <- Zle_Qle. lia. }
  split.
  { destruct N1 as [?|N1]; [left; assumption|right]. rewrite Ey.
    apply Qle_trans with (2 := Ly). rewrite <- Zle_Qle. assumption. }
  rewrite (round_half_even_ext _ _ Ey).
  set (N := round_half_even y) in *.
  destruct (shr_fexp_renorm N e1 ltac:(lia) Hmin) as (_ & S3 & S3').
  unfold round_pack.
  destruct (Z.eqb_spec N (2 ^ 53)) as [Eq|Ne].
  - destruct (S3' Eq) as [M3 E3].
    destruct (shr_fexp 53 1024 N e1 loc_Exact) as [r3 e3]. cbn [fst snd] in *.
    rewrite M3, E3. reflexivity.
  - destruct (S3 ltac:(lia)) as [M3 E3].
    destruct (shr_fexp 53 1024 N e1 loc_Exact) as [r3 e3]. cbn [fst snd] in *.
    rewrite M3, E3. reflexivity.
Qed.

Lemma mul_nearest sx mx ex sy my ey :
  canon mx ex -> canon my ey ->
  nearest (xorb sx sy) (valQ (Zpos mx) ex * valQ (Zpos my) ey)
          (SFmul 53 1024 (S754_finite sx mx ex) (S754_finite sy my ey)).
Proof.
  intros (Hx1 & Hx2 & Hx3) (Hy1 & Hy2 & Hy3). cbn [SFmul].
  apply nearest_ext with (inject_Z (Zpos (mx * my)) * bpow (ex + ey))%Q.
  { unfold valQ. rewrite Pos2Z.inj_mul, inject_Z_mult, bpow_add. ring. }
  apply binary_round_aux_nearest; [lia | apply inbetween_exact |].
  rewrite fexp64.
  destruct (Z_le_gt_dec (ex + ey) (-1074)) as [|Hgt]; [lia|].
  assert (2 ^ 52 <= Zpos (mx * my)) as Hm.
  { rewrite Pos2Z.inj_mul. destruct Hx2 as [->|Hx2]; [destruct Hy2 as [->|Hy2]; [lia|]|]; nia. }
  pose proof (Zdigits2_ge _ 52 ltac:(lia) Hm). lia.
Qed.

Lemma div_nearest sx mx ex sy my ey :
  nearest (xorb sx sy) (valQ (Zpos mx) ex / valQ (Zpos my) ey)
          (SFdiv 53 1024 (S754_finite sx mx ex) (S754_finite sy my ey)).
Proof.
  cbn [SFdiv]. unfold SFdiv_core_binary. rewrite fexp64. cbn [Zdigits2].
  pose proof (digits2_pos_bounds mx) as [Hxl Hxu].
  pose proof (digits2_pos_bounds my) as [Hyl Hyu].
  set (d1 := Zpos (digits2_pos mx)) in *. set (d2 := Zpos (digits2_pos my)) in *.
  set (e' := Z.min (Z.max (d1 + ex - (d2 + ey) - 53) (-1074)) (ex - ey)).
  set (s := ex - ey - e').
  assert (0 <= s) as Hs by (unfold s, e'; lia).
  assert (match s with Z.pos _ => Z.shiftl (Zpos mx) s | 0 => Zpos mx | Z.neg _ => 0 end
          = Zpos mx * 2 ^ s) as ->.
  { destruct s; [lia | rewrite Z.shiftl_mul_pow2; lia | lia]. }
  pose proof (Z_div_mod (Zpos mx * 2 ^ s) (Zpos my) ltac:(lia)) as DM.
  destruct (Z.div_eucl (Zpos mx * 2 ^ s) (Zpos my)) as [q r]. destruct DM as [DM Hr].
  assert (0 < 2 ^ s) as Hps by (apply Z.pow_pos_nonneg; lia).
  assert (0 <= q) as Hq by nia.
  assert (0 < inject_Z (Zpos my))%Q as Py
    by (change 0%Q with (inject_Z 0); rewrite <- Zlt_Qlt; lia).
  apply nearest_ext with ((inject_Z q + inject_Z r / inject_Z (Zpos my)) * bpow e')%Q.
  { unfold valQ.
    assert (bpow ex == bpow s * bpow e' * bpow ey)%Q as Eb.
    { rewrite <- !bpow_add. replace (s + e' + ey) with ex by (unfold s; lia). reflexivity. }
    assert (inject_Z (Zpos mx) * bpow s == inject_Z (Zpos my) * inject_Z q + inject_Z r)%Q as Em.
    { rewrite bpow_Z by assumption. rewrite <- !inject_Z_mult, <- inject_Z_plus, DM.
      reflexivity. }
    pose proof (bpow_pos ey). rewrite Eb.
    setoid_replace (inject_Z (Zpos mx) * (bpow s * bpow e' * bpow ey))%Q
      with ((inject_Z (Zpos mx) * bpow s) * bpow e' * bpow ey)%Q by ring.
    rewrite Em. field. split; lra. }
  apply binary_round_aux_nearest; [assumption | apply new_location_inbetween; lia |].
  rewrite fexp64.
  destruct (Z_le_gt_dec e' (-1074)) as [|Hgt]; [lia|].
  assert (d2 + 52 <= d1 + s - 1) as Hd by (unfold s, e' in *; lia).
  assert (2 ^ 52 <= q) as Hq52.
  { replace q with ((Zpos mx * 2 ^ s) / Zpos my)
      by (symmetry; apply Z.div_unique with r; [lia | assumption]).
    apply Z.div_le_lower_bound; [lia|].
    assert (2 ^ (d2 + 52) <= 2 ^ (d1 + s - 1)) as Hp by (apply Z.pow_le_mono_r; lia).
    rewrite Z.pow_add_r in Hp by lia.
    replace (d1 + s - 1) with ((d1 - 1) + s) in Hp by lia. rewrite Z.pow_add_r in Hp by lia.
    nia. }
  pose proof (Zdigits2_ge q 52 ltac:(lia) Hq52). lia.
Qed.

(** *** Order of rounded values *)

Lemma round_pack_norm s N e1 :
  0 <= N <= 2 ^ 53 -> -1074 <= e1 -> (e1 = -1074 \/ 2 ^ 52 <= N) ->
  exists M E,
    0 <= M < 2 ^ 53 /\ -1074 <= E /\ (E = -1074 \/ 2 ^ 52 <= M) /\
    (valQ M E == valQ N e1)%Q /\
    round_pack s N e1 =
    match M with
    | Z0 => S754_zero s
    | Zpos p => if E <=? 971 then S754_finite s p E else S754_infinity s
    | Zneg _ => S754_nan
    end.
Proof.
  intros HN He Hn. unfold round_pack.
  destruct (Z.eqb_spec N (2 ^ 53)) as [->|Ne].
  - exists (2 ^ 52), (e1 + 1). split; [lia|]. split; [lia|]. split; [right; lia|].
    split; [|reflexivity].
    unfold valQ. rewrite bpow_add. change (bpow 1) with 2%Q.
    change (inject_Z (2 ^ 53)) with (2 * inject_Z (2 ^ 52))%Q. ring.
  - exists N, e1. split; [lia|]. split; [lia|]. split; [assumption|].
    split; reflexivity.
Qed.

Lemma nearest_shape v e1 :
  -1074 <= e1 -> (0 <= v)%Q -> (v * bpow (- e1) < inject_Z (2 ^ 53))%Q ->
  (e1 = -1074 \/ (inject_Z (2 ^ 52) <= v * bpow (- e1))%Q) ->
  0 <= round_half_even (v * bpow (- e1)) <= 2 ^ 53 /\
  (e1 = -1074 \/ 2 ^ 52 <= round_half_even (v * bpow (- e1))).
Proof.
  intros He Hv Hu Hl.
  assert (0 <= v * bpow (- e1))%Q as Hy
    by (pose proof (bpow_pos (- e1)); apply Qmult_le_0_compat; lra).
  split.
  - apply round_half_even_between; [exact Hy | lra].
  - destruct Hl as [?|Hl]; [left; assumption | right].
    apply round_half_even_ge. assumption.
Qed.

Lemma nearest_nonneg v r : nearest false v r -> nonneg r.
Proof.
  intros (e1 & He & Hv & Hu & Hl & ->).
  destruct (nearest_shape v e1 He Hv Hu Hl) as (HN & Hn).
  destruct (round_pack_norm false _ e1 HN He Hn) as (M & E & HM & HE & Hnorm & _ & ->).
  destruct M as [|p|p]; [exact I| |lia].
  destruct (Z.leb_spec E 971); [|exact I].
  cbn [nonneg]. unfold canon. lia.
Qed.

Lemma nearest_mono v r v' r' :
  nearest false v r -> nearest false v' r' -> (v <= v')%Q -> SFleb r r' = true.
Proof.
  intros (e1 & He & Hv & Hu & Hl & ->) (e1' & He' & Hv' & Hu' & Hl' & ->) Hle.
  destruct (nearest_shape v e1 He Hv Hu Hl) as (HN & Hn).
  destruct (nearest_shape v' e1' He' Hv' Hu' Hl') as (HN' & Hn').
  set (y := (v * bpow (- e1))%Q) in *. set (y' := (v' * bpow (- e1'))%Q) in *.
  pose proof (bpow_cancel v e1) as Ev. pose proof (bpow_cancel v' e1') as Ev'.
  fold y in Ev. fold y' in Ev'.
  pose proof (bpow_pos e1) as P1. pose proof (bpow_pos e1') as P1'.
  change (inject_Z (2 ^ 53)) with (9007199254740992 # 1)%Q in *.
  change (inject_Z (2 ^ 52)) with (4503599627370496 # 1)%Q in *.
  assert (e1 <= e1') as Hee.
  { destruct (Z_le_gt_dec e1 e1') as [|Hgt]; [assumption|exfalso].
    destruct Hl as [?|Hl]; [lia|].
    assert (bpow e1 == 2 * bpow (e1 - 1))%Q as B2.
    { replace e1 with (1 + (e1 - 1)) at 1 by lia. rewrite bpow_add. reflexivity. }
    assert (bpow e1' <= bpow (e1 - 1))%Q as B1 by (apply bpow_le; lia).
    pose proof (bpow_pos (e1 - 1)) as P0.
    assert (0 <= y')%Q as Hy' by (unfold y'; pose proof (bpow_pos (- e1'));
                                  apply Qmult_le_0_compat; lra).
    assert (v' < (4503599627370496 # 1) * bpow e1)%Q.
    { rewrite <- Ev'. apply Qle_lt_trans with (y' * bpow (e1 - 1))%Q.
      - apply Qmult_le_compat_nonneg; split; lra.
      - rewrite B2. nra. }
    assert ((4503599627370496 # 1) * bpow e1 <= v)%Q.
    { rewrite <- Ev. apply Qmult_le_compat_r; lra. }
    lra. }
  set (N := round_half_even y) in *. set (N' := round_half_even y') in *.
  assert (valQ N e1 <= valQ N' e1')%Q as HV.
  { destruct (Z.eq_dec e1 e1') as [<-|Hne].
    - apply valQ_le_mono. apply round_half_even_mono.
      unfold y, y'. apply Qmult_le_compat_r; [assumption|].
      apply Qlt_le_weak, bpow_pos.
    - destruct Hn' as [?|Hn']; [lia|].
      assert (bpow e1' == 2 * bpow (e1' - 1))%Q as B2.
      { replace e1' with (1 + (e1' - 1)) at 1 by lia. rewrite bpow_add. reflexivity. }
      assert (bpow e1 <= bpow (e1' - 1))%Q as B1 by (apply bpow_le; lia).
      pose proof (bpow_pos (e1' - 1)) as P0.
      assert (inject_Z N <= 9007199254740992 # 1)%Q as QN
        by (change (9007199254740992 # 1)%Q with (inject_Z (2 ^ 53)); rewrite <- Zle_Qle; lia).
      assert (0 <= inject_Z N)%Q as QN0
        by (change 0%Q with (inject_Z 0); rewrite <- Zle_Qle; lia).
      assert (4503599627370496 # 1 <= inject_Z N')%Q as QN'
        by (change (4503599627370496 # 1)%Q with (inject_Z (2 ^ 52)); rewrite <- Zle_Qle; lia).
      unfold valQ.
      apply Qle_trans with ((9007199254740992 # 1) * bpow (e1' - 1))%Q.
      + apply Qmult_le_compat_nonneg; split; lra.
      + rewrite B2.
        apply Qle_trans with ((4503599627370496 # 1) * (2 * bpow (e1' - 1)))%Q; [lra|].
        apply Qmult_le_compat_r; lra. }
  destruct (round_pack_norm false N e1 HN He Hn) as (M & E & HM & HE & Hnorm & VM & ->).
  destruct (round_pack_norm false N' e1' HN' He' Hn') as (M' & E' & HM' & HE' & Hnorm' & VM' & ->).
  rewrite <- VM, <- VM' in HV. clear VM VM'.
  destruct M as [|p|p]; [| |lia].
  - destruct M' as [|p'|p']; [reflexivity| |lia].
    destruct (E' <=? 971); reflexivity.
  - pose proof (valQ_pos (Zpos p) E ltac:(lia)) as Pp.
    destruct M' as [|p'|p']; [exfalso| |lia].
    { unfold valQ in HV at 2. change (inject_Z 0) with 0%Q in HV. lra. }
    destruct (Z.leb_spec E' 971) as [HE1'|HE1'].
    + assert (canon p' E') as C' by (unfold canon; lia).
      destruct (Z.leb_spec E 971) as [HE1|HE1].
      * assert (canon p E) as C by (unfold canon; lia).
        apply (SFleb_Q (S754_finite false p E) (S754_finite false p' E')); assumption.
      * exfalso.
        assert (valQ (Zpos p') E' < valQ (Zpos p) E)%Q
          by (apply canon_below_binade; [assumption | lia | lia]).
        lra.
    + destruct (E <=? 971); reflexivity.
Qed.

(** *** The operations of the truncation on nonnegative readings *)

Lemma le_zero_nonneg s r : nonneg r -> SFleb (S754_zero s) r = true.
Proof. destruct r as [s'|[|]| |[|] m e]; cbn [nonneg]; try tauto; reflexivity. Qed.

Lemma le_nonneg_infinity r : nonneg r -> SFleb r (S754_infinity false) = true.
Proof. destruct r as [s'|[|]| |[|] m e]; cbn [nonneg]; try tauto; reflexivity. Qed.

Lemma nonneg_of_le a b :
  valid a = true -> valid b = true ->
  le (ofZ 0) a = true -> le a b = true -> nonneg a /\ nonneg b.
Proof.
  intros Va Vb H0 Hab. change (ofZ 0) with (S754_zero false) in H0. unfold le in *.
  destruct a as [sa|[|]| |[|] ma ea]; try discriminate;
    destruct b as [sb|[|]| |[|] mb eb]; try discriminate;
    cbn [nonneg]; (split; [first [exact I | exact (valid_finite_canon _ _ _ Va)]
                          | first [exact I | exact (valid_finite_canon _ _ _ Vb)]]).
Qed.

Lemma nonneg_fin_valid r : fin_valid r -> (0 <= SF2Q r)%Q -> nonneg r.
Proof.
  intros Hf Hv. destruct (fin_valid_nonneg r Hf Hv) as [[s ->]|(m & e & -> & Hc)];
    [exact I | exact Hc].
Qed.

Lemma mul_nonneg x mc ec :
  nonneg x -> canon mc ec -> nonneg (mul x (S754_finite false mc ec)).
Proof.
  intros Hx Hc. destruct x as [s|[|]| |[|] m e]; cbn [nonneg] in Hx; try tauto.
  exact (nearest_nonneg _ _ (mul_nearest false m e false mc ec Hx Hc)).
Qed.

Lemma mul_nonneg_mono x y mc ec :
  nonneg x -> nonneg y -> canon mc ec -> le x y = true ->
  le (mul x (S754_finite false mc ec)) (mul y (S754_finite false mc ec)) = true.
Proof.
  intros Hx Hy Hc Hle.
  pose proof (mul_nonneg x mc ec Hx Hc) as Nx.
  pose proof (mul_nonneg y mc ec Hy Hc) as Ny.
  unfold le in *.
  destruct x as [sx|[|]| |[|] mx ex]; cbn [nonneg] in Hx; try tauto;
    destruct y as [sy|[|]| |[|] my ey]; cbn [nonneg] in Hy; try tauto;
    try discriminate;
    try (apply le_zero_nonneg; assumption);
    try (apply le_nonneg_infinity; assumption).
  apply (nearest_mono _ _ _ _ (mul_nearest false mx ex false mc ec Hx Hc)
                              (mul_nearest false my ey false mc ec Hy Hc)).
  apply (SFleb_Q (S754_finite false mx ex) (S754_finite false my ey)) in Hle;
    try assumption.
  cbn [SF2Q cond_Zopp] in Hle.
  pose proof (valQ_pos (Zpos mc) ec ltac:(lia)).
  apply Qmult_le_compat_r; lra.
Qed.

Lemma div_nonneg x mc ec :
  nonneg x -> nonneg (div x (S754_finite false mc ec)).
Proof.
  intros Hx. destruct x as [s|[|]| |[|] m e]; cbn [nonneg] in Hx; try tauto.
  exact (nearest_nonneg _ _ (div_nearest false m e false mc ec)).
Qed.

Lemma div_nonneg_mono x y mc ec :
  nonneg x -> nonneg y -> le x y = true ->
  le (div x (S754_finite false mc ec)) (div y (S754_finite false mc ec)) = true.
Proof.
  intros Hx Hy Hle.
  pose proof (div_nonneg x mc ec Hx) as Nx.
  pose proof (div_nonneg y mc ec Hy) as Ny.
  unfold le in *.
  destruct x as [sx|[|]| |[|] mx ex]; cbn [nonneg] in Hx; try tauto;
    destruct y as [sy|[|]| |[|] my ey]; cbn [nonneg] in Hy; try tauto;
    try discriminate;
    try (apply le_zero_nonneg; assumption);
    try (apply le_nonneg_infinity; assumption).
  apply (nearest_mono _ _ _ _ (div_nearest false mx ex false mc ec)
                              (div_nearest false my ey false mc ec)).
  apply (SFleb_Q (S754_finite false mx ex) (S754_finite false my ey)) in Hle;
    try assumption.
  cbn [SF2Q cond_Zopp] in Hle.
  pose proof (valQ_pos (Zpos mc) ec ltac:(lia)) as P.
  unfold Qdiv. apply Qmult_le_compat_r; [assumption|].
  apply Qlt_le_weak, Qinv_lt_0_compat. assumption.
Qed.

Lemma Floor_nonneg x : nonneg x -> nonneg (Floor x).
Proof.
  intros Hx. destruct x as [s|[|]| |[|] m e]; cbn [nonneg] in Hx; try tauto;
    try exact I.
  destruct (Floor_spec (S754_finite false m e) Hx) as [Hf V].
  apply nonneg_fin_valid; [assumption|]. rewrite V.
  change 0%Q with (inject_Z 0). rewrite <- Zle_Qle, <- (Qfloor_Z 0).
  apply Qfloor_resp_le. cbn [SF2Q cond_Zopp].
  apply Qlt_le_weak, valQ_pos. lia.
Qed.

Lemma Floor_nonneg_mono x y :
  nonneg x -> nonneg y -> le x y = true -> le (Floor x) (Floor y) = true.
Proof.
  intros Hx Hy Hle.
  pose proof (Floor_nonneg x Hx) as Nx. pose proof (Floor_nonneg y Hy) as Ny.
  unfold le in *.
  destruct x as [sx|[|]| |[|] mx ex]; cbn [nonneg] in Hx; try tauto;
    destruct y as [sy|[|]| |[|] my ey]; cbn [nonneg] in Hy; try tauto;
    try discriminate;
    try (apply le_zero_nonneg; assumption);
    try (apply le_nonneg_infinity; assumption).
  destruct (Floor_spec (S754_finite false mx ex) Hx) as [Fx Vx].
  destruct (Floor_spec (S754_finite false my ey) Hy) as [Fy Vy].
  apply SFleb_Q; try assumption. rewrite Vx, Vy, <- Zle_Qle.
  apply Qfloor_resp_le.
  apply (SFleb_Q (S754_finite false mx ex) (S754_finite false my ey)); assumption.
Qed.

Lemma truncate_nonneg c : nonneg c -> nonneg (truncate c).
Proof.
  intros H. unfold truncate. rewrite ofZ_10.
  apply div_nonneg, Floor_nonneg, mul_nonneg; [assumption | exact canon_10].
Qed.

Lemma truncate_nonneg_mono a b :
  nonneg a -> nonneg b -> le a b = true -> le (truncate a) (truncate b) = true.
Proof.
  intros Ha Hb Hle. unfold truncate. rewrite ofZ_10.
  apply div_nonneg_mono.
  - apply Floor_nonneg, mul_nonneg; [assumption | exact canon_10].
  - apply Floor_nonneg, mul_nonneg; [assumption | exact canon_10].
  - apply Floor_nonneg_mono.
    + apply mul_nonneg; [assumption | exact canon_10].
    + apply mul_nonneg; [assumption | exact canon_10].
    + apply mul_nonneg_mono; [assumption | assumption | exact canon_10 | assumption].
Qed.

(** *** Readings below a bound *)

(** Below a binary64 number there is nothing above its predecessor. *)
Lemma pred_le m e M E :
  canon m e -> canon M E -> 2 ^ 52 < Zpos M ->
  (valQ (Zpos m) e < valQ (Zpos M) E)%Q ->
  (valQ (Zpos m) e <= valQ (Zpos M - 1) E)%Q.
Proof.
  intros Hc HC HM Hlt.
  destruct (Z.lt_trichotomy e E) as [L|[->|G]].
  - apply Qlt_le_weak. apply canon_below_binade; [assumption | assumption | lia].
  - apply valQ_le_mono. apply valQ_lt_inv in Hlt. lia.
  - exfalso. destruct Hc as (Hm & Hn & He). pose proof HC as (_ & _ & HE).
    assert (2 ^ 52 <= Zpos m) as Hn' by (destruct Hn; [lia | assumption]).
    pose proof (canon_below_binade M E (Zpos m) e HC G Hn'). lra.
Qed.

Lemma valid_nonneg c : valid c = true -> le (ofZ 0) c = true -> nonneg c.
Proof.
  intros Hv Hle. change (ofZ 0) with (S754_zero false) in Hle. unfold le in Hle.
  destruct c as [s|[|]| |[|] m e]; try discriminate; cbn [nonneg]; try exact I.
  exact (valid_finite_canon _ _ _ Hv).
Qed.

Lemma nonneg_valid c : nonneg c -> valid c = true /\ le (ofZ 0) c = true.
Proof.
  destruct c as [s|[|]| |[|] m e]; cbn [nonneg]; try tauto; intros H;
    try (split; reflexivity).
  split; [apply bounded_canon; exact H | reflexivity].
Qed.

Lemma truncate_below_floor c M E mp ep K :
  nonneg c ->
  canon M E -> 2 ^ 52 < Zpos M ->
  lt c (S754_finite false M E) = true ->
  mul (S754_finite false (Pos.pred M) E) (ofZ 10) = S754_finite false mp ep ->
  Qfloor (valQ (Zpos mp) ep) = K ->
  0 <= Qfloor (SF2Q (mul c (ofZ 10))) <= K /\
  (c = S754_zero true \/ truncate c = dec1 (Qfloor (SF2Q (mul c (ofZ 10))))).
Proof.
  intros Hn HC HM Hlt Hmul HK.
  assert (Zpos (Pos.pred M) = Zpos M - 1) as EP.
  { rewrite Pos2Z.inj_pred; [lia|]. intros ->. lia. }
  assert (canon (Pos.pred M) E) as HP.
  { destruct HC as (H1 & H2 & H3). unfold canon. rewrite EP. lia. }
  assert (0 <= K) as HK0.
  { rewrite <- HK, <- (Qfloor_Z 0). apply Qfloor_resp_le.
    apply Qlt_le_weak. change (inject_Z 0) with 0%Q. apply valQ_pos. lia. }
  destruct (nonneg_valid c Hn) as [Hv H0].
  destruct c as [s|[|]| |[|] m e]; cbn [nonneg] in Hn; try tauto; try discriminate.
  - split; [exact (conj (Z.le_refl 0) HK0)|].
    destruct s; [left; reflexivity | right; reflexivity].
  - apply (SFltb_Q (S754_finite false m e) (S754_finite false M E)) in Hlt;
      try assumption.
    cbn [SF2Q cond_Zopp] in Hlt.
    pose proof (pred_le m e M E Hn HC HM Hlt) as Hle. rewrite <- EP in Hle.
    assert (le (S754_finite false m e) (S754_finite false (Pos.pred M) E) = true) as Hle'
      by (apply (SFleb_Q (S754_finite false m e) (S754_finite false (Pos.pred M) E));
          assumption).
    pose proof canon_10 as C10.
    pose proof (mul_nonneg_mono (S754_finite false m e)
                  (S754_finite false (Pos.pred M) E) _ _ Hn HP C10 Hle') as Hm.
    pose proof (mul_nonneg (S754_finite false m e) _ _ Hn C10) as Nm.
    rewrite <- ofZ_10, Hmul in Hm. rewrite <- ofZ_10 in Nm.
    assert (canon mp ep) as Cp.
    { pose proof (mul_nonneg (S754_finite false (Pos.pred M) E) _ _ HP C10) as Np.
      rewrite <- ofZ_10, Hmul in Np. exact Np. }
    set (p := mul (S754_finite false m e) (ofZ 10)) in *.
    assert (fin_valid p /\ (0 <= SF2Q p <= valQ (Zpos mp) ep)%Q) as [Fp Bp].
    { unfold le in Hm.
      destruct p as [sp|[|]| |[|] mq eq]; cbn [nonneg] in Nm; try tauto; try discriminate.
      - split; [exact I|]. cbn [SF2Q]. pose proof (valQ_pos (Zpos mp) ep ltac:(lia)). lra.
      - split; [exact Nm|].
        apply (SFleb_Q (S754_finite false mq eq) (S754_finite false mp ep)) in Hm;
          try assumption.
        cbn [SF2Q cond_Zopp] in *. pose proof (valQ_pos (Zpos mq) eq ltac:(lia)). lra. }
    split.
    + split.
      * rewrite <- (Qfloor_Z 0). apply Qfloor_resp_le. change (inject_Z 0) with 0%Q. lra.
      * rewrite <- HK. apply Qfloor_resp_le. lra.
    + right. apply truncate_is_dec1; try assumption; [|discriminate].
      fold p. destruct p as [sp|sp| |sp mq eq]; cbn [fin_valid] in Fp; try tauto; reflexivity.
Qed.

Lemma truncate_below c M E mp ep K :
  nonneg c ->
  canon M E -> 2 ^ 52 < Zpos M ->
  lt c (S754_finite false M E) = true ->
  mul (S754_finite false (Pos.pred M) E) (ofZ 10) = S754_finite false mp ep ->
  Qfloor (valQ (Zpos mp) ep) = K ->
  c = S754_zero true \/ exists k, 0 <= k <= K /\ truncate c = dec1 k.
Proof.
  intros Hn HC HM Hlt Hmul HK.
  destruct (truncate_below_floor c M E mp ep K Hn HC HM Hlt Hmul HK) as [Hk [H|H]];
    [left; exact H | right; eexists; split; [exact Hk | exact H]].
Qed.

Lemma pm25_truncate_below c :
  nonneg c -> lt c (dec1 5005) = true ->
  c = S754_zero true \/ exists k, 0 <= k <= 5004 /\ truncate c = dec1 k.
Proof.
  intros Hn Hlt.
  apply (truncate_below c 8804889115230208 (-44) 5503055697018879 (-40) 5004);
    try assumption.
  - apply bounded_canon. reflexivity.
  - reflexivity.
  - vm_compute. reflexivity.
  - vm_compute. reflexivity.
Qed.

(** *** One-decimal readings are ordered like their numerators *)

Lemma ofZ_nonneg k : 0 <= k < 2 ^ 53 -> nonneg (ofZ k).
Proof.
  intros Hk. destruct (SF2Q_ofZ k ltac:(lia)) as [Hf V].
  apply nonneg_fin_valid; [assumption|]. rewrite V.
  change 0%Q with (inject_Z 0). rewrite <- Zle_Qle. lia.
Qed.

Lemma dec1_mono j k : 0 <= j <= k -> k < 2 ^ 53 -> le (dec1 j) (dec1 k) = true.
Proof.
  intros Hj Hk. unfold dec1. rewrite ofZ_10.
  apply div_nonneg_mono; try (apply ofZ_nonneg; lia).
  destruct (SF2Q_ofZ j ltac:(lia)) as [Fj Vj].
  destruct (SF2Q_ofZ k ltac:(lia)) as [Fk Vk].
  apply SFleb_Q; try assumption. rewrite Vj, Vk, <- Zle_Qle. lia.
Qed.

Lemma in_tier_dec1 k L H bp :
  ConcLow bp = dec1 L -> ConcHigh bp = dec1 H ->
  0 <= L <= k -> k <= H -> H < 2 ^ 53 -> in_tier (dec1 k) bp = true.
Proof.
  intros EL EH HL HH HB. unfold in_tier, ge. rewrite EL, EH.
  rewrite !dec1_mono by lia. reflexivity.
Qed.

Lemma pm25_tier_of k :
  0 <= k <= 5004 -> exists bp, find_tier (dec1 k) pm25Breakpoints = Some bp.
Proof.
  intros Hk. unfold find_tier.
  destruct (find (in_tier (dec1 k)) pm25Breakpoints) as [bp|] eqn:F;
    [exists bp; reflexivity | exfalso].
  pose proof (find_none _ _ F) as N.
  assert (forall L H bp, In bp pm25Breakpoints ->
            ConcLow bp = dec1 L -> ConcHigh bp = dec1 H ->
            0 <= L <= k -> k <= H -> H < 2 ^ 53 -> False) as Tier.
  { intros L H bp Hin EL EH HL HH HB.
    specialize (N bp Hin). rewrite (in_tier_dec1 k L H bp) in N; congruence || assumption. }
  assert (k <= 120 \/ 121 <= k <= 354 \/ 355 <= k <= 554 \/ 555 <= k <= 1504 \/
          1505 <= k <= 2504 \/ 2505 <= k <= 3504 \/ 3505 <= k) as
      [C|[C|[C|[C|[C|[C|C]]]]]] by lia.
  - apply (Tier 0 120 (mkBP (dec1 0) (dec1 120) 0 50));
      [do 0 right; left; reflexivity | reflexivity | reflexivity | lia | lia | lia].
  - apply (Tier 121 354 (mkBP (dec1 121) (dec1 354) 51 100));
      [do 1 right; left; reflexivity | reflexivity | reflexivity | lia | lia | lia].
  - apply (Tier 355 554 (mkBP (dec1 355) (dec1 554) 101 150));
      [do 2 right; left; reflexivity | reflexivity | reflexivity | lia | lia | lia].
  - apply (Tier 555 1504 (mkBP (dec1 555) (dec1 1504) 151 200));
      [do 3 right; left; reflexivity | reflexivity | reflexivity | lia | lia | lia].
  - apply (Tier 1505 2504 (mkBP (dec1 1505) (dec1 2504) 201 300));
      [do 4 right; left; reflexivity | reflexivity | reflexivity | lia | lia | lia].
  - apply (Tier 2505 3504 (mkBP (dec1 2505) (dec1 3504) 301 400));
      [do 5 right; left; reflexivity | reflexivity | reflexivity | lia | lia | lia].
  - apply (Tier 3505 5004 (mkBP (dec1 3505) (dec1 5004) 401 500));
      [do 6 right; left; reflexivity | reflexivity | reflexivity | lia | lia | lia].
Qed.

Lemma pm25_covered c :
  nonneg c -> lt c (dec1 5005) = true ->
  exists bp, find_tier (truncate c) pm25Breakpoints = Some bp.
Proof.
  intros Hn Hlt.
  destruct (pm25_truncate_below c Hn Hlt) as [->|(k & Hk & ->)].
  - eexists. vm_compute. reflexivity.
  - apply pm25_tier_of. assumption.
Qed.

(** *** Addition and subtraction *)

Lemma binary_round_nearest s m e :
  nearest s (valQ (Zpos m) e) (binary_round 53 1024 s m e).
Proof.
  unfold binary_round, shl_align. rewrite fexp64.
  remember (Z.max (Zpos (digits2_pos m) + e - 53) (-1074) - e) as n eqn:En.
  destruct n as [|p|p].
  - apply nearest_ext with (inject_Z (Zpos m) * bpow e)%Q; [reflexivity|].
    apply binary_round_aux_nearest; [lia | apply inbetween_exact |].
    rewrite fexp64. cbn [Zdigits2]. lia.
  - apply nearest_ext with (inject_Z (Zpos m) * bpow e)%Q; [reflexivity|].
    apply binary_round_aux_nearest; [lia | apply inbetween_exact |].
    rewrite fexp64. cbn [Zdigits2]. lia.
  - destruct (digits2_pos_iter_xO m p) as [D V].
    apply nearest_ext with (inject_Z (Zpos (Pos.iter xO m p)) *
                            bpow (Z.max (Zpos (digits2_pos m) + e - 53) (-1074)))%Q.
    { rewrite V. fold (valQ (Zpos m * 2 ^ Zpos p) (Z.max (Zpos (digits2_pos m) + e - 53) (-1074))).
      rewrite valQ_shift by lia.
      replace (Z.max (Zpos (digits2_pos m) + e - 53) (-1074) + Zpos p) with e by lia.
      reflexivity. }
    apply binary_round_aux_nearest; [lia | apply inbetween_exact |].
    rewrite fexp64. cbn [Zdigits2]. rewrite D. lia.
Qed.

Lemma nearest_representable m e :
  canon m e -> nearest false (valQ (Zpos m) e) (S754_finite false m e).
Proof.
  intros (Hm & Hn & He). exists e.
  assert (valQ (Zpos m) e * bpow (- e) == inject_Z (Zpos m))%Q as Ey.
  { unfold valQ. rewrite <- Qmult_assoc, <- bpow_add.
    replace (e + - e) with 0 by lia. change (bpow 0) with 1%Q. ring. }
  split; [lia|]. split; [apply Qlt_le_weak, valQ_pos; lia|].
  split; [rewrite Ey, <- Zlt_Qlt; assumption|].
  split; [destruct Hn as [?|Hn]; [left; assumption | right; rewrite Ey, <- Zle_Qle; assumption]|].
  rewrite (round_half_even_ext _ _ Ey).
  assert (round_half_even (inject_Z (Zpos m)) = Zpos m) as -> by (apply round_half_even_near; lra).
  unfold round_pack.
  destruct (Z.eqb_spec (Zpos m) (2 ^ 53)) as [E|_]; [lia|].
  destruct (Z.leb_spec e 971); [reflexivity | lia].
Qed.

Lemma binary_normalize_nearest n e :
  0 < n -> nearest false (valQ n e) (binary_normalize 53 1024 n e false).
Proof.
  intros Hn. destruct n as [|p|p]; try lia. cbn [binary_normalize].
  apply binary_round_nearest.
Qed.

Lemma valQ_sign n e : (0 < valQ n e)%Q -> 0 < n.
Proof.
  intros H. apply valQ_lt_inv with e.
  unfold valQ at 1. change (inject_Z 0) with 0%Q. lra.
Qed.

Lemma le_refl_canon m e : canon m e -> SFleb (S754_finite false m e) (S754_finite false m e) = true.
Proof.
  intros Hc. apply (SFleb_Q (S754_finite false m e) (S754_finite false m e)); try assumption.
  apply Qle_refl.
Qed.

Lemma add_nonneg_mono p p' A :
  nonneg p -> nonneg p' -> fin_valid A -> (0 <= SF2Q A)%Q -> le p p' = true ->
  le (add p A) (add p' A) = true.
Proof.
  intros Hp Hp' HA VA Hle.
  destruct (fin_valid_nonneg A HA VA) as [[s ->]|(mA & eA & -> & CA)].
  - (* adding a zero *)
    unfold le in *.
    destruct p as [sp|[|]| |[|] mp ep]; cbn [nonneg] in Hp; try tauto;
      destruct p' as [sp'|[|]| |[|] mp' ep']; cbn [nonneg] in Hp'; try tauto;
      try discriminate; try exact Hle;
      try (destruct sp, s; reflexivity);
      try (destruct sp, sp', s; reflexivity).
  - pose proof (valQ_pos (Zpos mA) eA ltac:(lia)) as PA.
    assert (forall m e, canon m e ->
              nearest false (valQ (Zpos m) e + valQ (Zpos mA) eA)
                      (add (S754_finite false m e) (S754_finite false mA eA))) as Sum.
    { intros m e Hc. destruct (add_finite false m e false mA eA) as (n & -> & V).
      cbn [SF2Q cond_Zopp] in V.
      pose proof (valQ_pos (Zpos m) e ltac:(lia)) as Pm.
      apply nearest_ext with (1 := V). apply binary_normalize_nearest.
      apply valQ_sign with (Z.min e eA). lra. }
    pose proof (nearest_representable mA eA CA) as RA.
    unfold le in *.
    destruct p as [sp|[|]| |[|] mp ep]; cbn [nonneg] in Hp; try tauto;
      destruct p' as [sp'|[|]| |[|] mp' ep']; cbn [nonneg] in Hp'; try tauto;
      try discriminate; try reflexivity.
    + apply le_refl_canon. assumption.
    + apply (nearest_mono _ _ _ _ RA (Sum mp' ep' Hp')).
      pose proof (valQ_pos (Zpos mp') ep' ltac:(lia)). lra.
    + apply le_nonneg_infinity. exact (nearest_nonneg _ _ (Sum mp ep Hp)).
    + apply (nearest_mono _ _ _ _ (Sum mp ep Hp) (Sum mp' ep' Hp')).
      apply (SFleb_Q (S754_finite false mp ep) (S754_finite false mp' ep')) in Hle;
        try assumption.
      cbn [SF2Q cond_Zopp] in Hle. lra.
Qed.

Lemma sub_nonneg_mono x x' L :
  fin_valid x -> fin_valid x' -> fin_valid L ->
  (0 <= SF2Q L)%Q -> (SF2Q L <= SF2Q x)%Q -> (SF2Q x <= SF2Q x')%Q ->
  nonneg (sub x L) /\ nonneg (sub x' L) /\ le (sub x L) (sub x' L) = true.
Proof.
  intros Hx Hx' HL VL Vx Vx'.
  destruct (fin_valid_nonneg L HL VL) as [[s ->]|(mL & eL & -> & CL)].
  - (* subtracting a zero *)
    cbn [SF2Q] in Vx.
    destruct (fin_valid_nonneg x Hx Vx) as [[sx ->]|(m & e & -> & Hc)];
      (destruct (fin_valid_nonneg x' Hx' ltac:(lra)) as [[sx' ->]|(m' & e' & -> & Hc')]).
    + split; [destruct sx, s; exact I|]. split; [destruct sx', s; exact I|].
      destruct sx, sx', s; reflexivity.
    + split; [destruct sx, s; exact I|]. split; [exact Hc'|].
      destruct sx, s; reflexivity.
    + exfalso. cbn [SF2Q cond_Zopp] in Vx'.
      pose proof (valQ_pos (Zpos m) e ltac:(lia)). lra.
    + split; [exact Hc|]. split; [exact Hc'|].
      apply (SFleb_Q (S754_finite false m e) (S754_finite false m' e')); assumption.
  - cbn [SF2Q cond_Zopp] in Vx.
    pose proof (valQ_pos (Zpos mL) eL ltac:(lia)) as PL.
    assert (forall m e, canon m e -> (valQ (Zpos mL) eL <= valQ (Zpos m) e)%Q ->
              nonneg (sub (S754_finite false m e) (S754_finite false mL eL)) /\
              (sub (S754_finite false m e) (S754_finite false mL eL) = S754_zero false /\
               (valQ (Zpos m) e == valQ (Zpos mL) eL)%Q \/
               nearest false (valQ (Zpos m) e - valQ (Zpos mL) eL)
                       (sub (S754_finite false m e) (S754_finite false mL eL)))) as Diff.
    { intros m e Hc Hv. destruct (sub_finite false m e false mL eL) as (n & -> & V).
      cbn [SF2Q cond_Zopp] in V.
      destruct (Z.eq_dec n 0) as [->|Hn0].
      - split; [exact I|]. left. split; [reflexivity|].
        unfold valQ in V at 1. change (inject_Z 0) with 0%Q in V. lra.
      - assert (0 < n) as Hn.
        { assert (0 <= n); [|lia]. apply valQ_le_inv with (Z.min e eL).
          unfold valQ at 1. change (inject_Z 0) with 0%Q. lra. }
        assert (nearest false (valQ (Zpos m) e - valQ (Zpos mL) eL)
                  (binary_normalize 53 1024 n (Z.min e eL) false)) as Nr
          by (apply nearest_ext with (1 := V); apply binary_normalize_nearest; assumption).
        split; [exact (nearest_nonneg _ _ Nr) | right; exact Nr]. }
    destruct (fin_valid_nonneg x Hx ltac:(lra)) as [[sx ->]|(m & e & -> & Hc)];
      [cbn [SF2Q] in Vx; lra|].
    destruct (fin_valid_nonneg x' Hx' ltac:(lra)) as [[sx' ->]|(m' & e' & -> & Hc')].
    { exfalso. cbn [SF2Q cond_Zopp] in Vx, Vx'. lra. }
    cbn [SF2Q cond_Zopp] in Vx, Vx'.
    destruct (Diff m e Hc Vx) as [N1 D1].
    destruct (Diff m' e' Hc' ltac:(lra)) as [N2 D2].
    split; [exact N1|]. split; [exact N2|].
    destruct D1 as [[-> E1]|D1].
    + apply le_zero_nonneg. exact N2.
    + destruct D2 as [[-> E2]|D2].
      * assert (nearest false 0 (S754_zero false)) as Z0.
        { exists (-1074). split; [lia|]. split; [lra|].
          split; [vm_compute; reflexivity|]. split; [left; reflexivity|].
          reflexivity. }
        apply (nearest_mono _ _ _ _ D1 Z0). lra.
      * apply (nearest_mono _ _ _ _ D1 D2). lra.
Qed.

Lemma mul_comm x y : mul x y = mul y x.
Proof.
  unfold mul.
  destruct x as [sx|sx| |sx mx ex], y as [sy|sy| |sy my ey]; cbn [SFmul];
    try reflexivity; try (f_equal; apply xorb_comm).
  rewrite (xorb_comm sx sy), (Pos.mul_comm mx my), (Z.add_comm ex ey). reflexivity.
Qed.

Lemma round_half_away_mono q q' :
  (0 <= q)%Q -> (q <= q')%Q -> round_half_away q <= round_half_away q'.
Proof.
  intros H0 Hle. unfold round_half_away.
  assert (Qle_bool 0 q = true) as -> by (apply Qle_bool_iff; assumption).
  assert (Qle_bool 0 q' = true) as -> by (apply Qle_bool_iff; lra).
  apply Qfloor_resp_le. lra.
Qed.

(** *** The interpolation is monotone *)

Lemma interpolate_mono bp ta tb :
  tier_ok bp = true -> valid ta = true -> valid tb = true ->
  in_tier ta bp = true -> in_tier tb bp = true -> le ta tb = true ->
  toInt (Round (interpolate ta bp)) <= toInt (Round (interpolate tb bp)).
Proof.
  intros Hok Va Vb Ia Ib Hle.
  destruct (tier_interpolate bp ta Hok Va Ia) as (Fa & Ba).
  destruct (tier_interpolate bp tb Hok Vb Ib) as (Fb & Bb).
  destruct (tier_result bp ta Hok Va Ia) as [-> _].
  destruct (tier_result bp tb Hok Vb Ib) as [-> _].
  apply round_half_away_mono; [lra|].
  apply SFleb_Q; try assumption. clear Fa Ba Fb Bb.
  unfold tier_ok in Hok. rewrite !andb_true_iff in Hok.
  destruct Hok as (((((((((((((Vlo & Nlo) & Vhi) & Fhi) & Vs) & Ps) & I0) & I1) & _) & _)
                      & _) & _) & _) & _).
  apply Z.leb_le in I0. apply Z.ltb_lt in I1.
  assert (fin_valid (ConcLow bp) /\ (0 <= SF2Q (ConcLow bp))%Q) as [Flo Plo].
  { destruct (ConcLow bp) as [s|s| |s m e]; try discriminate.
    - split; [exact I | cbn; lra].
    - destruct s; [discriminate|]. split; [apply bounded_canon; exact Vlo|].
      cbn [SF2Q cond_Zopp]. apply Qlt_le_weak, valQ_pos. lia. }
  pose proof (valid_is_finite _ Vhi Fhi) as Fhi'.
  destruct (in_tier_bounds ta bp Va Flo Fhi' Ia) as (Fta & Bta).
  destruct (in_tier_bounds tb bp Vb Flo Fhi' Ib) as (Ftb & Btb).
  assert (SF2Q ta <= SF2Q tb)%Q as Vab by (apply SFleb_Q; assumption).
  destruct (sub_nonneg_mono ta tb (ConcLow bp) Fta Ftb Flo Plo ltac:(lra) Vab)
    as (Na & Nb & Hsub).
  unfold interpolate. fold (tier_slope bp).
  destruct (tier_slope bp) as [s|s| |s ms es]; try discriminate.
  destruct s; [discriminate|]. apply valid_finite_canon in Vs.
  destruct (SF2Q_ofZ (AQILow bp) ltac:(lia)) as [FL VL].
  assert (0 <= SF2Q (ofZ (AQILow bp)))%Q as PL.
  { rewrite VL. change 0%Q with (inject_Z 0). rewrite <- Zle_Qle. assumption. }
  rewrite (mul_comm _ (sub ta (ConcLow bp))), (mul_comm _ (sub tb (ConcLow bp))).
  apply add_nonneg_mono; try assumption.
  - apply mul_nonneg; assumption.
  - apply mul_nonneg; assumption.
  - apply mul_nonneg_mono; assumption.
Qed.

Lemma indices_sorted_cons bp rest :
  indices_sorted (bp :: rest) = true ->
  (forall bp', In bp' rest -> AQIHigh bp <= AQILow bp') /\ indices_sorted rest = true.
Proof.
  cbn [indices_sorted]. rewrite andb_true_iff. intros [Hall Hrest].
  split; [|assumption]. intros bp' Hin. rewrite forallb_forall in Hall.
  apply Z.leb_le. auto.
Qed.

(** On a table whose tiers and index ranges are ordered, the results of two
    ordered readings that both match a tier are ordered. *)
Lemma matched_mono bps ta tb bpa bpb :
  tiers_sorted bps = true -> indices_sorted bps = true ->
  forallb tier_ok bps = true ->
  valid ta = true -> valid tb = true -> le ta tb = true ->
  In bpa bps -> in_tier ta bpa = true ->
  In bpb bps -> in_tier tb bpb = true ->
  toInt (Round (interpolate ta bpa)) <= toInt (Round (interpolate tb bpb)).
Proof.
  intros Hs Hi Hok Va Vb Hle. revert bpa bpb.
  induction bps as [|b rest IH]; intros bpa bpb Ha Ta Hb Tb; [destruct Ha|].
  destruct (tiers_sorted_cons b rest Hs) as (Fl & Fh & Hlh & Hall & Hs').
  destruct (indices_sorted_cons b rest Hi) as (Hidx & Hi').
  cbn [forallb] in Hok. apply andb_true_iff in Hok. destruct Hok as [Hok1 Hok2].
  pose proof Hok2 as Hok2'. rewrite forallb_forall in Hok2'.
  destruct Ha as [<-|Ha], Hb as [<-|Hb].
  - apply interpolate_mono; assumption.
  - pose proof (tier_result_range b ta Hok1 Va Ta) as Ra.
    pose proof (tier_result_range bpb tb (Hok2' _ Hb) Vb Tb) as Rb.
    specialize (Hidx bpb Hb). lia.
  - exfalso.
    destruct (tiers_sorted_fin rest bpa Hs' Ha) as (Fl' & Fh' & _).
    destruct (in_tier_bounds ta bpa Va Fl' Fh' Ta) as (Fta & Bta).
    destruct (in_tier_bounds tb b Vb Fl Fh Tb) as (Ftb & Btb).
    assert (SF2Q ta <= SF2Q tb)%Q as Vab by (apply SFleb_Q; assumption).
    pose proof (lt_values _ _ Fh Fl' (Hall bpa Ha)). lra.
  - exact (IH Hs' Hi' Hok2 bpa bpb Ha Ta Hb Tb).
Qed.

Lemma pm25_indices_sorted : indices_sorted pm25Breakpoints = true.
Proof. reflexivity. Qed.

Lemma pm10_indices_sorted : indices_sorted pm10Breakpoints = true.
Proof. reflexivity. Qed.

Lemma calculateAQI_matched_mono bps a b bpa bpb :
  tiers_sorted bps = true -> indices_sorted bps = true ->
  forallb tier_ok bps = true ->
  nonneg a -> nonneg b -> le a b = true ->
  find_tier (truncate a) bps = Some bpa -> find_tier (truncate b) bps = Some bpb ->
  calculateAQI a bps <= calculateAQI b bps.
Proof.
  intros Hs Hi Hok Na Nb Hle Fa Fb.
  unfold calculateAQI. rewrite !scan_find_tier, Fa, Fb.
  apply find_some in Fa, Fb. destruct Fa as [Ia Ta], Fb as [Ib Tb].
  destruct (nonneg_valid a Na) as [Va _]. destruct (nonneg_valid b Nb) as [Vb _].
  apply (matched_mono bps); try assumption.
  - apply valid_truncate; assumption.
  - apply valid_truncate; assumption.
  - apply truncate_nonneg_mono; assumption.
Qed.

(** *** The PM2.5 sub-index is monotone *)

Lemma not_le_lt x y :
  fin_valid x -> nonneg y -> le x y = false -> lt y x = true.
Proof.
  intros Hx Hy Hle. unfold le, lt in *.
  assert (fin_valid y) as Fy.
  { destruct y as [s|[|]| |[|] m e]; cbn [nonneg] in Hy; try tauto.
    destruct x; try contradiction; discriminate. }
  apply SFltb_Q; try assumption.
  apply Qnot_le_lt. intros C. apply (SFleb_Q x y Hx Fy) in C. congruence.
Qed.

Lemma pm25_mono a b :
  nonneg a -> nonneg b -> le a b = true ->
  calculateAQI a pm25Breakpoints <= calculateAQI b pm25Breakpoints.
Proof.
  intros Na Nb Hle.
  destruct (nonneg_valid a Na) as [Va _]. destruct (nonneg_valid b Nb) as [Vb _].
  destruct (le (dec1 5005) b) eqn:Hb.
  - rewrite (pm25_above b Vb Hb).
    pose proof (calculateAQI_range a _ pm25_tiers_ok pm25_AQIHigh Va). lia.
  - assert (fin_valid (dec1 5005)) as FX by (apply valid_is_finite; reflexivity).
    pose proof (not_le_lt _ _ FX Nb Hb) as Lb.
    assert (lt a (dec1 5005) = true) as La.
    { unfold lt, le in *.
      assert (fin_valid b) as Fb.
      { destruct b as [s|[|]| |[|] m e]; cbn [nonneg] in Nb; try tauto; discriminate. }
      assert (fin_valid a) as Fa.
      { destruct a as [s|[|]| |[|] m e]; cbn [nonneg] in Na; try tauto.
        destruct b; try contradiction; discriminate. }
      apply SFltb_Q; try assumption.
      apply (SFltb_Q b _ Fb FX) in Lb. apply (SFleb_Q a b Fa Fb) in Hle. lra. }
    destruct (pm25_covered a Na La) as (bpa & Fa).
    destruct (pm25_covered b Nb Lb) as (bpb & Fb).
    exact (calculateAQI_matched_mono _ a b bpa bpb pm25_sorted pm25_indices_sorted
             pm25_tiers_ok Na Nb Hle Fa Fb).
Qed.

(** *** The tier of a reading, from the reading itself *)

Lemma nonneg_above L c : nonneg L -> valid c = true -> le L c = true -> nonneg c.
Proof.
  intros HL Hv Hle. unfold le in Hle.
  destruct L as [sl|[|]| |[|] ml el]; cbn [nonneg] in HL; try tauto;
    destruct c as [s|[|]| |[|] m e]; try discriminate; cbn [nonneg]; try exact I;
    exact (valid_finite_canon _ _ _ Hv).
Qed.

Lemma nonneg_fin x z : nonneg x -> fin_valid z -> le x z = true -> fin_valid x.
Proof.
  intros Hx Hz Hle. unfold le in Hle.
  destruct x as [s|[|]| |[|] m e]; cbn [nonneg] in Hx; try tauto.
  destruct z; try contradiction; discriminate.
Qed.

Lemma le_trans_fin x y z :
  nonneg x -> nonneg y -> fin_valid z ->
  le x y = true -> le y z = true -> le x z = true.
Proof.
  intros Hx Hy Hz Hxy Hyz.
  pose proof (nonneg_fin y z Hy Hz Hyz) as Fy.
  pose proof (nonneg_fin x y Hx Fy Hxy) as Fx.
  unfold le in *. apply SFleb_Q; try assumption.
  apply (SFleb_Q x y Fx Fy) in Hxy. apply (SFleb_Q y z Fy Hz) in Hyz. lra.
Qed.

Lemma le_pred c M E :
  nonneg c -> canon M E -> 2 ^ 52 < Zpos M ->
  lt c (S754_finite false M E) = true ->
  canon (Pos.pred M) E /\ le c (S754_finite false (Pos.pred M) E) = true.
Proof.
  intros Hn HC HM Hlt.
  assert (Zpos (Pos.pred M) = Zpos M - 1) as EP.
  { rewrite Pos2Z.inj_pred; [lia|]. intros ->. lia. }
  assert (canon (Pos.pred M) E) as HP.
  { destruct HC as (H1 & H2 & H3). unfold canon. rewrite EP. lia. }
  split; [assumption|]. unfold le, lt in *.
  destruct c as [s|[|]| |[|] m e]; cbn [nonneg] in Hn; try tauto; try discriminate.
  apply (SFltb_Q (S754_finite false m e) (S754_finite false M E)) in Hlt;
    try assumption.
  cbn [SF2Q cond_Zopp] in Hlt.
  pose proof (pred_le m e M E Hn HC HM Hlt) as Hle. rewrite <- EP in Hle.
  apply (SFleb_Q (S754_finite false m e) (S754_finite false (Pos.pred M) E));
    assumption.
Qed.

Lemma tier_by_reading bps bp c U M E :
  U = S754_finite false M E ->
  tiers_sorted bps = true -> In bp bps -> valid c = true ->
  nonneg (ConcLow bp) -> truncate (ConcLow bp) = ConcLow bp ->
  le (ConcLow bp) c = true ->
  canon M E -> 2 ^ 52 < Zpos M -> lt c U = true ->
  le (truncate (S754_finite false (Pos.pred M) E)) (ConcHigh bp) = true ->
  find_tier (truncate c) bps = Some bp.
Proof.
  intros -> Hs Hin Hv Nlo Tlo Hlo HC HM Hlt Hhi.
  pose proof (nonneg_above _ _ Nlo Hv Hlo) as Nc.
  apply find_tier_iff; [assumption | apply valid_truncate; assumption|].
  split; [assumption|].
  destruct (tiers_sorted_fin _ _ Hs Hin) as (Fl & Fh & _).
  destruct (le_pred c M E Nc HC HM Hlt) as [HP Hcp].
  unfold in_tier, ge. apply andb_true_iff. split.
  - rewrite <- Tlo. apply truncate_nonneg_mono; assumption.
  - apply le_trans_fin with (truncate (S754_finite false (Pos.pred M) E)); try assumption.
    + apply truncate_nonneg. assumption.
    + apply truncate_nonneg. exact HP.
    + apply truncate_nonneg_mono; [assumption | exact HP | assumption].
Qed.

Lemma pm25_tier_by_reading c i bp :
  valid c = true ->
  nth_error pm25Breakpoints i = Some bp ->
  le (ConcLow bp) c = true ->
  lt c (match nth_error pm25Breakpoints (S i) with
        | Some next => ConcLow next
        | None => dec1 5005
        end) = true ->
  find_tier (truncate c) pm25Breakpoints = Some bp.
Proof.
  intros Hv Hi Hlo Hlt.
  do 7 (destruct i as [|i];
        [cbn [nth_error pm25Breakpoints] in Hi; injection Hi as <-;
         cbn [nth_error pm25Breakpoints] in Hlt;
         (match type of Hlt with
          | lt _ ?u = true => eapply (tier_by_reading pm25Breakpoints _ c u)
          end;
          [ vm_compute; reflexivity
          | exact pm25_sorted
          | unfold pm25Breakpoints; cbn [In]; tauto
          | exact Hv
          | apply ofZ_nonneg || (apply valid_nonneg; reflexivity)
          | apply truncate_dec1_fixed; lia
          | exact Hlo
          | apply bounded_canon; reflexivity
          | reflexivity
          | exact Hlt
          | vm_compute; reflexivity ])|]).
  destruct i; discriminate.
Qed.

(** *** The truncation keeps a reading in its tier *)

Lemma keeps_tier bps bp c :
  tiers_sorted bps = true -> In bp bps -> valid c = true ->
  nonneg (ConcLow bp) ->
  truncate (ConcLow bp) = ConcLow bp -> truncate (ConcHigh bp) = ConcHigh bp ->
  in_tier c bp = true ->
  find_tier (truncate c) bps = Some bp.
Proof.
  intros Hs Hin Hv Nlo Tlo Thi Ht.
  apply find_tier_iff; [assumption | apply valid_truncate; assumption|].
  split; [assumption|].
  destruct (tiers_sorted_fin _ _ Hs Hin) as (Fl & Fh & Hlh).
  destruct (in_tier_bounds c bp Hv Fl Fh Ht) as (Fc & Bc).
  unfold in_tier, ge in Ht. apply andb_true_iff in Ht. destruct Ht as [H1 H2].
  pose proof (nonneg_above _ _ Nlo Hv H1) as Nc.
  assert (nonneg (ConcHigh bp)) as Nhi.
  { apply nonneg_fin_valid; [assumption|].
    destruct (nonneg_valid _ Nlo) as [_ H0]. unfold le in H0.
    apply (SFleb_Q (ofZ 0) (ConcLow bp) I Fl) in H0.
    change (SF2Q (ofZ 0)) with 0%Q in H0. lra. }
  unfold in_tier, ge. apply andb_true_iff. split.
  - rewrite <- Tlo. apply truncate_nonneg_mono; assumption.
  - rewrite <- Thi. apply truncate_nonneg_mono; assumption.
Qed.

Lemma pm25_bounds_fixed :
  Forall (fun bp => nonneg (ConcLow bp) /\ truncate (ConcLow bp) = ConcLow bp /\
                    truncate (ConcHigh bp) = ConcHigh bp) pm25Breakpoints.
Proof.
  repeat (apply Forall_cons;
          [split; [apply valid_nonneg; reflexivity | split; vm_compute; reflexivity]|]).
  apply Forall_nil.
Qed.

Lemma pm10_bounds_fixed :
  Forall (fun bp => nonneg (ConcLow bp) /\ truncate (ConcLow bp) = ConcLow bp /\
                    truncate (ConcHigh bp) = ConcHigh bp) pm10Breakpoints.
Proof.
  repeat (apply Forall_cons;
          [split; [apply valid_nonneg; reflexivity | split; vm_compute; reflexivity]|]).
  apply Forall_nil.
Qed.

(** *** Readings that are not numbers *)

Lemma find_all_false (f : AQIBreakpoint -> bool) bps :
  Forall (fun bp => f bp = false) bps -> find f bps = None.
Proof.
  induction 1 as [|bp rest Hbp _ IH]; cbn [find]; [reflexivity|].
  rewrite Hbp. exact IH.
Qed.

Lemma in_tier_nan bp : in_tier S754_nan bp = false.
Proof. unfold in_tier, ge, le. destruct (ConcLow bp); reflexivity. Qed.

Lemma scan_nan bps : scan S754_nan bps = 500.
Proof.
  apply scan_no_tier. induction bps as [|bp rest IH]; constructor;
    [apply in_tier_nan | exact IH].
Qed.

(** *** Agreement with exact arithmetic *)

Lemma agree_upto_spec n :
  agree_upto n = true ->
  forall k, 0 <= k < Z.of_nat n ->
    scan (dec1 k) pm25Breakpoints = exact_index (inject_Z k / 10) pm25Exact /\
    scan (dec1 k) pm10Breakpoints = exact_index (inject_Z k / 10) pm10Exact.
Proof.
  induction n as [|n IH]; intros H k Hk; [lia|].
  cbn [agree_upto] in H. rewrite !andb_true_iff in H. destruct H as [[H1 H2] H3].
  destruct (Z.eq_dec k (Z.of_nat n)) as [->|Hne].
  - apply Z.eqb_eq in H1, H2. split; assumption.
  - apply IH; [assumption | lia].
Qed.

Lemma agree_upto_6050 : agree_upto (Z.to_nat 6050) = true.
Proof. vm_compute. reflexivity. Qed.

Lemma truncate_below_605 c :
  nonneg c -> lt c (ofZ 605) = true ->
  0 <= Qfloor (SF2Q (mul c (ofZ 10))) <= 6049 /\
  (c = S754_zero true \/ truncate c = dec1 (Qfloor (SF2Q (mul c (ofZ 10))))).
Proof.
  intros Hn Hlt.
  apply (truncate_below_floor c 5321636278435840 (-43) 6652045348044799 (-40) 6049);
    try assumption.
  - apply bounded_canon. reflexivity.
  - reflexivity.
  - vm_compute. reflexivity.
  - vm_compute. reflexivity.
Qed.

(** *** The truncation against the exact one *)

Lemma floor_product_close m e :
  canon m e -> (valQ (Zpos m) e < inject_Z (2 ^ 49))%Q ->
  Qfloor (valQ (Zpos m) e * 10) <=
    Qfloor (SF2Q (mul (S754_finite false m e) (ofZ 10))) <=
  Qfloor (valQ (Zpos m) e * 10) + 1.
Proof.
  intros Hc Hb. rewrite ofZ_10.
  pose proof (mul_rounded false m e false _ _ Hc canon_10) as R0.
  cbn [xorb] in R0.
  assert (rounded false (valQ (Zpos m) e * 10)
            (SFmul 53 1024 (S754_finite false m e)
                   (S754_finite false 5629499534213120 (-49)))) as R.
  { apply rounded_ext with (2 := R0). rewrite valQ_10. reflexivity. }
  clear R0.
  pose proof (valQ_pos (Zpos m) e ltac:(lia)) as Pv.
  set (v := (valQ (Zpos m) e * 10)%Q) in *.
  set (n0 := Qfloor v).
  pose proof (Qfloor_le v) as L0. pose proof (Qlt_floor v) as U0. fold n0 in L0, U0.
  rewrite inject_Z_plus in U0. change (inject_Z 1) with 1%Q in U0.
  change (inject_Z (2 ^ 49)) with (562949953421312 # 1)%Q in Hb.
  assert (0 <= n0) as Hn0.
  { unfold n0. rewrite <- (Qfloor_Z 0). apply Qfloor_resp_le.
    change (inject_Z 0) with 0%Q. unfold v. lra. }
  assert (n0 + 1 < 2 ^ 53) as Hn1.
  { assert (inject_Z n0 < inject_Z (2 ^ 53 - 1))%Q as H; [|rewrite <- Zlt_Qlt in H; lia].
    change (inject_Z (2 ^ 53 - 1)) with (9007199254740991 # 1)%Q. unfold v in L0. lra. }
  destruct (Z_representable (n0 + 1) ltac:(lia)) as (mU & eU & CU & VU).
  rewrite inject_Z_plus in VU. change (inject_Z 1) with 1%Q in VU.
  unfold mul, prec, emax.
  set (r := SFmul 53 1024 (S754_finite false m e)
                  (S754_finite false 5629499534213120 (-49))) in *.
  destruct (rounded_upper false v r mU eU CU ltac:(lra) R) as [Er|(mr & er & Er & Cr & Vr)].
  - rewrite Er. cbn [SF2Q]. change (Qfloor 0) with 0.
    assert (n0 = 0); [|lia].
    destruct (Z.eq_dec n0 0) as [|Hne]; [assumption|exfalso].
    destruct (Z_representable n0 ltac:(lia)) as (mL & eL & CL & VL).
    destruct (rounded_lower false v r mL eL CL ltac:(lra) R) as [Ei|(m' & e' & E' & _)];
      congruence.
  - rewrite Er. cbn [SF2Q cond_Zopp]. split.
    + destruct (Z.eq_dec n0 0) as [->|Hne].
      * rewrite <- (Qfloor_Z 0). apply Qfloor_resp_le.
        change (inject_Z 0) with 0%Q. apply Qlt_le_weak, valQ_pos. lia.
      * destruct (Z_representable n0 ltac:(lia)) as (mL & eL & CL & VL).
        destruct (rounded_lower false v r mL eL CL ltac:(lra) R)
          as [Ei|(m' & e' & E' & _ & V')]; [congruence|].
        rewrite Er in E'. injection E' as <- <-.
        rewrite <- (Qfloor_Z n0). apply Qfloor_resp_le. lra.
    + replace (n0 + 1) with (Qfloor (inject_Z (n0 + 1))) by apply Qfloor_Z.
      apply Qfloor_resp_le. rewrite inject_Z_plus. change (inject_Z 1) with 1%Q. lra.
Qed.


(** *** A rounded value is a nearest binary64 number *)

Lemma round_half_even_floor y :
  (round_half_even y = Qfloor y /\ (y - inject_Z (Qfloor y) <= 1 # 2)%Q) \/
  (round_half_even y = Qfloor y + 1 /\ (1 # 2 <= y - inject_Z (Qfloor y))%Q).
Proof.
  unfold round_half_even.
  destruct (y - inject_Z (Qfloor y) ?= 1 # 2)%Q eqn:C.
  - apply Qeq_alt in C.
    destruct (Z.even (Qfloor y)); [left | right]; split; try reflexivity; lra.
  - apply Qlt_alt in C. left. split; [reflexivity | lra].
  - apply Qgt_alt in C. right. split; [reflexivity | lra].
Qed.

Lemma nearest_value v r :
  nearest false v r -> fin_valid r ->
  exists e1,
    -1074 <= e1 /\ (0 <= v)%Q /\
    (e1 = -1074 \/ (inject_Z (2 ^ 52) <= v * bpow (- e1))%Q) /\
    (SF2Q r == valQ (round_half_even (v * bpow (- e1))) e1)%Q.
Proof.
  intros (e1 & He & Hv & Hu & Hl & ->) Hf.
  destruct (nearest_shape v e1 He Hv Hu Hl) as (HN & Hn).
  exists e1. split; [assumption|]. split; [assumption|]. split; [assumption|].
  destruct (round_pack_norm false _ e1 HN He Hn) as (M & E & HM & HE & Hnorm & VM & EM).
  rewrite EM in Hf |- *. rewrite <- VM.
  destruct M as [|p|p]; [| |lia].
  - cbn [SF2Q]. unfold valQ. change (inject_Z 0) with 0%Q. ring.
  - destruct (E <=? 971); [reflexivity | contradiction].
Qed.

Lemma nearest_closest v r x :
  nearest false v r -> fin_valid r -> fin_valid x ->
  (Qabs (v - SF2Q r) <= Qabs (v - SF2Q x))%Q.
Proof.
  intros Hr Fr Fx.
  destruct (nearest_value v r Hr Fr) as (e1 & He & Hv & Hl & VR).
  rewrite VR. clear VR Hr Fr r.
  set (y := (v * bpow (- e1))%Q) in *.
  pose proof (bpow_cancel v e1) as Ev. fold y in Ev.
  pose proof (bpow_pos e1) as Pb. set (b := bpow e1) in *.
  pose proof (bpow_pos (- e1)) as Pb'.
  assert (0 <= y)%Q as Hy by (unfold y; apply Qmult_le_0_compat; lra).
  set (m1 := Qfloor y).
  pose proof (Qfloor_le y) as L1. pose proof (Qlt_floor y) as U1. fold m1 in L1, U1.
  rewrite inject_Z_plus in U1. change (inject_Z 1) with 1%Q in U1.
  assert (0 <= m1) as Hm1.
  { unfold m1. rewrite <- (Qfloor_Z 0). apply Qfloor_resp_le. exact Hy. }
  assert (0 <= inject_Z m1)%Q as Qm1
    by (change 0%Q with (inject_Z 0); rewrite <- Zle_Qle; exact Hm1).
  assert (e1 = -1074 \/ 2 ^ 52 <= m1) as Hn1.
  { destruct Hl as [?|Hl]; [left; assumption | right].
    unfold m1. rewrite <- (Qfloor_Z (2 ^ 52)). apply Qfloor_resp_le. exact Hl. }
  set (N := round_half_even y).
  assert (valQ N e1 == inject_Z N * b)%Q as VN by reflexivity.
  assert (valQ m1 e1 == inject_Z m1 * b)%Q as Vm by reflexivity.
  assert (valQ (m1 + 1) e1 == (inject_Z m1 + 1) * b)%Q as Vm'.
  { unfold valQ. rewrite inject_Z_plus. reflexivity. }
  (* below: any number at most [m1 * b]; above: any number at least [(m1+1) * b] *)
  assert (forall X, (X <= inject_Z m1 * b)%Q ->
            (Qabs (v - valQ N e1) <= Qabs (v - X))%Q) as Below.
  { intros X HX.
    apply Qle_trans with (v - X)%Q; [|apply Qle_Qabs].
    apply Qabs_Qle_condition. rewrite VN, <- Ev.
    destruct (round_half_even_floor y) as [[E D]|[E D]]; fold N m1 in E, D; rewrite E.
    - split; nra.
    - rewrite inject_Z_plus. change (inject_Z 1) with 1%Q. split; nra. }
  assert (forall X, ((inject_Z m1 + 1) * b <= X)%Q ->
            (Qabs (v - valQ N e1) <= Qabs (v - X))%Q) as Above.
  { intros X HX.
    apply Qle_trans with (X - v)%Q.
    2:{ setoid_replace (v - X)%Q with (- (X - v))%Q by ring. rewrite Qabs_opp.
        apply Qle_Qabs. }
    apply Qabs_Qle_condition. rewrite VN, <- Ev.
    destruct (round_half_even_floor y) as [[E D]|[E D]]; fold N m1 in E, D; rewrite E.
    - split; nra.
    - rewrite inject_Z_plus. change (inject_Z 1) with 1%Q. split; nra. }
  destruct x as [s|s| |s mT eT]; cbn [fin_valid] in Fx; try contradiction.
  - cbn [SF2Q]. apply Below. nra.
  - cbn [SF2Q]. destruct s; cbn [cond_Zopp].
    + change (Zneg mT) with (- Zpos mT). rewrite valQ_opp.
      pose proof (valQ_pos (Zpos mT) eT ltac:(lia)). apply Below. nra.
    + destruct (Qlt_le_dec v (valQ (Zpos mT) eT)) as [Hgt|Hle].
      * destruct (Qeq_dec y (inject_Z m1)) as [Eint|Nint].
        -- (* the value is on the grid: it is returned *)
           assert (N = m1) as ->.
           { unfold N. rewrite (round_half_even_ext _ _ Eint).
             apply round_half_even_near; lra. }
           setoid_replace (v - valQ m1 e1)%Q with 0%Q.
           ++ apply Qabs_nonneg.
           ++ rewrite Vm, <- Ev, Eint. ring.
        -- apply Above. rewrite <- Vm'.
           apply (lattice_above mT eT m1 e1 y); try assumption.
           ++ destruct (Qlt_le_dec (inject_Z m1) y) as [|C]; [assumption|].
              exfalso. apply Nint. lra.
           ++ fold b. rewrite Ev. lra.
      * apply Below. rewrite <- Vm.
        apply (lattice_below mT eT m1 e1 y); try assumption.
        fold b. rewrite Ev. exact Hle.
Qed.

Lemma dec1_nearest k :
  0 < k < 2 ^ 53 -> nearest false (inject_Z k / 10) (dec1 k).
Proof.
  intros Hk. destruct (ofZ_exact k ltac:(lia)) as (m & e & E & Hc & V).
  replace (k <? 0) with false in E by (symmetry; apply Z.ltb_ge; lia).
  replace (Z.abs k) with k in V by lia.
  unfold dec1. rewrite E, ofZ_10.
  apply nearest_ext with (valQ (Zpos m) e / valQ (Zpos 5629499534213120) (-49))%Q.
  { rewrite V, valQ_10. reflexivity. }
  exact (div_nearest false m e false 5629499534213120 (-49)).
Qed.

(** *** The product [c*10] against the exact one *)



(** * Properties of the program *)

(** ** Evaluations on concrete readings *)

(** The expectations of [TestAQIBreakpointEdgeCases], all met. *)
Example TestAQIBreakpointEdgeCases_values :
  map (fun c => calculateAQI c pm25Breakpoints)
      [dec1 0; dec1 120; dec1 121; dec1 354; dec1 355; dec1 5004; ofZ 600] =
  [0; 50; 51; 100; 101; 500; 500].
Proof. vm_compute. reflexivity. Qed.

(** The readings of [TestAQICalculation], followed by the reading of the
    end-to-end test: the results are within the tolerance of the tests. *)
Example TestAQICalculation_values :
  map (fun p => computeAQI (fst p) (snd p))
      [(dec1 80, ofZ 20); (dec1 354, ofZ 50); (dec1 554, ofZ 100);
       (dec1 2504, ofZ 350); (ofZ 400, ofZ 500); (ofZ 10, ofZ 200);
       (dec1 357, ofZ 45)] =
  [33; 100; 150; 300; 434; 123; 101].
Proof. vm_compute. reflexivity. Qed.

(** The readings of [TestPM10BreakpointGap].  The test expects
    [48; 49; 50; 50; 51; 51; 73; 100; 100; 101]. *)
Example TestPM10BreakpointGap_values :
  map (fun c => calculateAQI c pm10Breakpoints)
      [ofZ 53; ofZ 54; dec1 545; dec1 549; ofZ 55; dec1 551; ofZ 100; ofZ 154;
       dec1 1545; ofZ 155] =
  [49; 50; 500; 500; 51; 51; 73; 100; 500; 101].
Proof. vm_compute. reflexivity. Qed.

(** C1. The test [TestPM10BreakpointGap] expects a PM10 reading of 54.5, which
    lies between the first tier (up to 54) and the second (from 55), to get
    the first tier's AQI 50.  The loop of [calculateAQI] matches no tier for
    it and the function returns the saturation value 500. *)
Theorem calculateAQI_pm10_gap_saturates :
  truncate (dec1 545) = dec1 545 /\
  find_tier (dec1 545) pm10Breakpoints = None /\
  calculateAQI (dec1 545) pm10Breakpoints = 500.
Proof. vm_compute. repeat split. Qed.

(** C2. PM10 readings 54.5 and 55.0 are ordered, but their sub-indices are
    500 and 51: on the PM10 table the sub-index decreases across the gap
    between two tiers. *)
Theorem calculateAQI_pm10_not_monotone :
  le (ofZ 0) (dec1 545) = true /\
  le (dec1 545) (ofZ 55) = true /\
  calculateAQI (dec1 545) pm10Breakpoints = 500 /\
  calculateAQI (ofZ 55) pm10Breakpoints = 51.
Proof. vm_compute. repeat split. Qed.

(** C5. [computeAQI] returns the maximum of the PM2.5 sub-index and the PM10
    sub-index, each obtained from [calculateAQI] with its own table. *)
Theorem computeAQI_is_max (a b : float64) :
  computeAQI a b =
  Z.max (calculateAQI a pm25Breakpoints) (calculateAQI b pm10Breakpoints).
Proof. exact (computeAQI_max a b). Qed.

(** C6. At the upper concentration bound of every tier of either table the
    sub-index is that tier's [AQIHigh]; PM2.5 readings 12.0 and 35.4 give 50
    and 100. *)
Theorem calculateAQI_at_ConcHigh :
  Forall (fun bp => calculateAQI (ConcHigh bp) pm25Breakpoints = AQIHigh bp)
         pm25Breakpoints /\
  Forall (fun bp => calculateAQI (ConcHigh bp) pm10Breakpoints = AQIHigh bp)
         pm10Breakpoints /\
  calculateAQI (dec1 120) pm25Breakpoints = 50 /\
  calculateAQI (dec1 354) pm25Breakpoints = 100.
Proof.
  repeat split; repeat (constructor; [vm_compute; reflexivity|]); constructor.
Qed.

(** ** Properties of [calculateAQI] and [computeAQI] *)

(** C3, as stated, fails.  For a PM10 reading of 389.5 the fifth tier is
    matched and the interpolated float64 value is exactly 250.5; the program
    returns 251, whereas rounding half to even gives 250. *)
Lemma round_half_even_refuted :
  ~ (forall c bp,
       valid c = true ->
       find_tier (truncate c) pm10Breakpoints = Some bp ->
       calculateAQI c pm10Breakpoints =
       round_half_even (SF2Q (interpolate (truncate c) bp))).
Proof.
  intros H.
  specialize (H (dec1 3895) (mkBP (ofZ 355) (ofZ 424) 201 300) eq_refl eq_refl).
  vm_compute in H. discriminate.
Qed.

(** C3, amended.  On either table, when the truncated reading matches a
    tier, the returned integer is the exact value of the interpolated
    float64 rounded to the nearest integer, ties going away from zero. *)
Theorem calculateAQI_rounds_half_away (c : float64) (bps : list AQIBreakpoint)
    (bp : AQIBreakpoint) :
  bps = pm25Breakpoints \/ bps = pm10Breakpoints ->
  valid c = true ->
  find_tier (truncate c) bps = Some bp ->
  calculateAQI c bps = round_half_away (SF2Q (interpolate (truncate c) bp)).
Proof.
  intros [-> | ->] Hv Hf.
  - exact (calculateAQI_tier c _ bp pm25_tiers_ok Hv Hf).
  - exact (calculateAQI_tier c _ bp pm10_tiers_ok Hv Hf).
Qed.

Lemma calculateAQI_rounds_half_away_witness :
  calculateAQI (dec1 3895) pm10Breakpoints =
  round_half_away
    (SF2Q (interpolate (truncate (dec1 3895)) (mkBP (ofZ 355) (ofZ 424) 201 300))).
Proof.
  apply (calculateAQI_rounds_half_away (dec1 3895) pm10Breakpoints);
    [right; reflexivity | reflexivity | reflexivity].
Defined.

(** C4. Every PM2.5 reading of at least 500.5 (including [+Inf]) gets the
    sub-index 500.  [calculateAQI] is a total function: it has a value on
    every float64, and for these readings that value is the saturation
    constant. *)
Theorem calculateAQI_pm25_saturates (c : float64) :
  valid c = true ->
  le (dec1 5005) c = true ->
  calculateAQI c pm25Breakpoints = 500.
Proof.
  intros Hv Hle.
  assert (fin_valid (dec1 5005)) as Hf by (apply valid_is_finite; reflexivity).
  pose proof (le_at_least _ _ Hf Hv Hle) as H0.
  apply at_least_weaken with (T' := (1001 # 2)%Q) in H0; [|vm_compute; discriminate].
  apply truncate_at_least in H0.
  apply scan_no_tier.
  repeat constructor;
    (apply at_least_not_in_tier with (T := (1001 # 2)%Q);
     [assumption | apply valid_is_finite; reflexivity | vm_compute; reflexivity]).
Qed.

Lemma calculateAQI_pm25_saturates_witness :
  calculateAQI (ofZ 600) pm25Breakpoints = 500.
Proof. apply calculateAQI_pm25_saturates; reflexivity. Defined.




(** C8. For nonnegative readings, [computeAQI] returns an integer between
    0 and 500. *)
Theorem computeAQI_range (pm25 pm10 : float64) :
  valid pm25 = true -> valid pm10 = true ->
  le (ofZ 0) pm25 = true -> le (ofZ 0) pm10 = true ->
  0 <= computeAQI pm25 pm10 <= 500.
Proof.
  intros Ha Hb _ _. rewrite computeAQI_max.
  pose proof (calculateAQI_range pm25 _ pm25_tiers_ok pm25_AQIHigh Ha).
  pose proof (calculateAQI_range pm10 _ pm10_tiers_ok pm10_AQIHigh Hb).
  lia.
Qed.

Lemma computeAQI_range_witness : 0 <= computeAQI (dec1 357) (ofZ 45) <= 500.
Proof. apply computeAQI_range; reflexivity. Defined.

(** C9. The truncation of [calculateAQI] is idempotent on nonnegative
    readings (including [+Inf]): truncating an already truncated reading
    returns the same float64. *)
Theorem truncate_idempotent (c : float64) :
  valid c = true ->
  le (ofZ 0) c = true ->
  truncate (truncate c) = truncate c.
Proof. intros Hv Hle. exact (truncate_truncate c Hv Hle). Qed.

Lemma truncate_idempotent_witness :
  truncate (truncate (dec2 3549)) = truncate (dec2 3549).
Proof. apply truncate_idempotent; reflexivity. Defined.

(** C10. A negative reading (including [-Inf]) matches no tier of either
    table: [calculateAQI] raises nothing and returns 500, the value it also
    returns above the highest tier. *)
Theorem calculateAQI_negative (c : float64) :
  valid c = true ->
  lt c (ofZ 0) = true ->
  calculateAQI c pm25Breakpoints = 500 /\ calculateAQI c pm10Breakpoints = 500.
Proof.
  intros Hv Hlt.
  pose proof (truncate_negative c (lt_zero_neg c Hv Hlt)) as Hn.
  split; apply scan_no_tier; repeat constructor;
    (apply neg_not_in_tier with (1 := Hn); reflexivity).
Qed.

Lemma calculateAQI_negative_witness :
  calculateAQI (dec1 (-5)) pm25Breakpoints = 500 /\
  calculateAQI (dec1 (-5)) pm10Breakpoints = 500.
Proof. apply calculateAQI_negative; reflexivity. Defined.


(** ** Further properties of the truncation, the lookup and the aggregation *)

(** X1. For every integer [k >= 0], the binary64 value of [float64(k)/10]
    is left unchanged by the truncation [math.Floor(c*10) / 10] of
    [calculateAQI].  For [k < 2^53] that value is a binary64 number nearest
    to [k/10]: no finite binary64 number is closer to [k/10].  So a reading
    given with one decimal, [k/10] with [k < 2^53], is looked up as it is. *)
Theorem truncate_one_decimal (k : Z) :
  0 <= k ->
  truncate (dec1 k) = dec1 k /\
  (k < 2 ^ 53 ->
   valid (dec1 k) = true /\ is_finite (dec1 k) = true /\
   forall x, valid x = true -> is_finite x = true ->
     (Qabs (inject_Z k / 10 - SF2Q (dec1 k)) <= Qabs (inject_Z k / 10 - SF2Q x))%Q).
Proof.
  intros Hk. split; [exact (truncate_dec1_fixed k Hk)|]. intros Hk53.
  destruct (Z.eq_dec k 0) as [->|Hne].
  - split; [reflexivity|]. split; [reflexivity|]. intros x _ _.
    change (SF2Q (dec1 0)) with 0%Q.
    setoid_replace (inject_Z 0 / 10 - 0)%Q with 0%Q by reflexivity.
    apply Qabs_nonneg.
  - pose proof (dec1_nearest k ltac:(lia)) as Hn.
    assert (valid (dec1 k) = true) as Hv
      by (apply valid_div; apply valid_ofZ).
    assert (is_finite (dec1 k) = true) as Hf.
    { assert (0 < 10 * k < 2 ^ 57) as Hb by lia.
      pose proof (nearest_nonneg _ _ Hn) as Nn.
      assert (le (dec1 k) (ofZ k) = true) as Hle.
      { destruct (ofZ_exact k ltac:(lia)) as (m & e & E & Hc & V).
        replace (k <? 0) with false in E by (symmetry; apply Z.ltb_ge; lia).
        replace (Z.abs k) with k in V by lia.
        rewrite E. unfold le.
        apply (nearest_mono _ _ _ _ Hn (nearest_representable m e Hc)).
        rewrite V.
        assert (0 < inject_Z k)%Q
          by (change 0%Q with (inject_Z 0); rewrite <- Zlt_Qlt; lia).
        apply Qle_shift_div_r; lra. }
      destruct (SF2Q_ofZ k ltac:(lia)) as [Fk _].
      pose proof (nonneg_fin _ _ Nn Fk Hle) as Fd.
      destruct (dec1 k); try contradiction; reflexivity. }
    split; [exact Hv|]. split; [exact Hf|]. intros x Vx Fx.
    apply nearest_closest; [exact Hn | | ]; apply valid_is_finite; assumption.
Qed.

Lemma truncate_one_decimal_witness :
  truncate (dec1 354) = dec1 354 /\
  (354 < 2 ^ 53 ->
   valid (dec1 354) = true /\ is_finite (dec1 354) = true /\
   forall x, valid x = true -> is_finite x = true ->
     (Qabs (inject_Z 354 / 10 - SF2Q (dec1 354)) <= Qabs (inject_Z 354 / 10 - SF2Q x))%Q).
Proof. apply truncate_one_decimal. lia. Defined.

(** X2. On either table, when the truncated reading matches a tier, the
    sub-index returned by [calculateAQI] lies between that tier's [AQILow]
    and [AQIHigh]. *)
Theorem calculateAQI_within_tier (c : float64) (bps : list AQIBreakpoint)
    (bp : AQIBreakpoint) :
  bps = pm25Breakpoints \/ bps = pm10Breakpoints ->
  valid c = true ->
  find_tier (truncate c) bps = Some bp ->
  AQILow bp <= calculateAQI c bps <= AQIHigh bp.
Proof.
  intros [-> | ->] Hv Hf.
  - exact (calculateAQI_tier_range c _ bp pm25_tiers_ok Hv Hf).
  - exact (calculateAQI_tier_range c _ bp pm10_tiers_ok Hv Hf).
Qed.

Lemma calculateAQI_within_tier_witness :
  201 <= calculateAQI (dec1 3895) pm10Breakpoints <= 300.
Proof.
  apply (calculateAQI_within_tier (dec1 3895) pm10Breakpoints
           (mkBP (ofZ 355) (ofZ 424) 201 300));
    [right; reflexivity | reflexivity | reflexivity].
Defined.

(** X3. The tiers of either table are disjoint: the tier at which the loop
    of [calculateAQI] stops is the only tier of the table whose bounds
    contain the truncated reading, so the order of the scan does not
    matter. *)
Theorem find_tier_unique (tc : float64) (bps : list AQIBreakpoint)
    (bp : AQIBreakpoint) :
  bps = pm25Breakpoints \/ bps = pm10Breakpoints ->
  valid tc = true ->
  (find_tier tc bps = Some bp <-> In bp bps /\ in_tier tc bp = true).
Proof.
  intros [-> | ->] Hv.
  - exact (find_tier_iff _ tc bp pm25_sorted Hv).
  - exact (find_tier_iff _ tc bp pm10_sorted Hv).
Qed.

Lemma find_tier_unique_witness :
  find_tier (dec1 354) pm25Breakpoints = Some (mkBP (dec1 121) (dec1 354) 51 100) <->
  In (mkBP (dec1 121) (dec1 354) 51 100) pm25Breakpoints /\
  in_tier (dec1 354) (mkBP (dec1 121) (dec1 354) 51 100) = true.
Proof.
  apply (find_tier_unique (dec1 354) pm25Breakpoints);
    [left; reflexivity | reflexivity].
Defined.

(** X4. A PM10 reading whose truncation lies strictly between the upper
    bound of one tier and the lower bound of the next one matches no tier,
    and [calculateAQI] returns 500 for it. *)
Theorem calculateAQI_pm10_between_tiers (c : float64)
    (pre post : list AQIBreakpoint) (bp1 bp2 : AQIBreakpoint) :
  valid c = true ->
  pm10Breakpoints = pre ++ bp1 :: bp2 :: post ->
  lt (ConcHigh bp1) (truncate c) = true ->
  lt (truncate c) (ConcLow bp2) = true ->
  find_tier (truncate c) pm10Breakpoints = None /\
  calculateAQI c pm10Breakpoints = 500.
Proof.
  intros Hv Heq H1 H2.
  pose proof pm10_sorted as Hs. unfold calculateAQI, find_tier.
  rewrite Heq in *.
  pose proof (gap_no_tier pre bp1 bp2 post (truncate c) Hs (valid_truncate c Hv) H1 H2)
    as Hall.
  split; [apply find_all_false | apply scan_no_tier]; exact Hall.
Qed.

Lemma calculateAQI_pm10_between_tiers_witness :
  find_tier (truncate (dec1 545)) pm10Breakpoints = None /\
  calculateAQI (dec1 545) pm10Breakpoints = 500.
Proof.
  apply (calculateAQI_pm10_between_tiers (dec1 545) []
           [mkBP (ofZ 155) (ofZ 254) 101 150; mkBP (ofZ 255) (ofZ 354) 151 200;
            mkBP (ofZ 355) (ofZ 424) 201 300; mkBP (ofZ 425) (ofZ 504) 301 400;
            mkBP (ofZ 505) (ofZ 604) 401 500]
           (mkBP (ofZ 0) (ofZ 54) 0 50) (mkBP (ofZ 55) (ofZ 154) 51 100));
    reflexivity.
Defined.

(** X5. The PM2.5 table has no such gaps: every PM2.5 reading from 0 up to,
    but excluding, 500.5 matches a tier after truncation, and its sub-index
    lies in the index range of that tier. *)
Theorem calculateAQI_pm25_no_gap (c : float64) :
  valid c = true ->
  le (ofZ 0) c = true ->
  lt c (dec1 5005) = true ->
  exists bp,
    find_tier (truncate c) pm25Breakpoints = Some bp /\
    AQILow bp <= calculateAQI c pm25Breakpoints <= AQIHigh bp.
Proof.
  intros Hv H0 Hlt.
  destruct (pm25_covered c (valid_nonneg c Hv H0) Hlt) as (bp & Hf).
  exists bp. split; [exact Hf|].
  exact (calculateAQI_tier_range c _ bp pm25_tiers_ok Hv Hf).
Qed.

Lemma calculateAQI_pm25_no_gap_witness :
  exists bp,
    find_tier (truncate (dec2 3549)) pm25Breakpoints = Some bp /\
    AQILow bp <= calculateAQI (dec2 3549) pm25Breakpoints <= AQIHigh bp.
Proof. apply calculateAQI_pm25_no_gap; reflexivity. Defined.

(** X6. Every PM10 reading of at least 604, the upper bound of the last
    tier (including [+Inf]), gets the sub-index 500. *)
Theorem calculateAQI_pm10_saturates (c : float64) :
  valid c = true ->
  le (ofZ 604) c = true ->
  calculateAQI c pm10Breakpoints = 500.
Proof. intros Hv Hle. exact (pm10_above c Hv Hle). Qed.

Lemma calculateAQI_pm10_saturates_witness :
  calculateAQI (dec1 6045) pm10Breakpoints = 500.
Proof. apply calculateAQI_pm10_saturates; reflexivity. Defined.

(** X7. The truncation is monotone on nonnegative readings: of two ordered
    readings, the truncated ones are ordered in the same way. *)
Theorem truncate_monotone (a b : float64) :
  valid a = true -> valid b = true ->
  le (ofZ 0) a = true ->
  le a b = true ->
  le (truncate a) (truncate b) = true.
Proof.
  intros Va Vb H0 Hle.
  destruct (nonneg_of_le a b Va Vb H0 Hle) as [Na Nb].
  exact (truncate_nonneg_mono a b Na Nb Hle).
Qed.

Lemma truncate_monotone_witness :
  le (truncate (dec2 3549)) (truncate (dec1 355)) = true.
Proof. apply truncate_monotone; reflexivity. Defined.

(** X8. The PM2.5 sub-index is monotone: of two nonnegative PM2.5 readings,
    the larger one never gets the smaller sub-index. *)
Theorem calculateAQI_pm25_monotone (a b : float64) :
  valid a = true -> valid b = true ->
  le (ofZ 0) a = true ->
  le a b = true ->
  calculateAQI a pm25Breakpoints <= calculateAQI b pm25Breakpoints.
Proof.
  intros Va Vb H0 Hle.
  destruct (nonneg_of_le a b Va Vb H0 Hle) as [Na Nb].
  exact (pm25_mono a b Na Nb Hle).
Qed.

Lemma calculateAQI_pm25_monotone_witness :
  calculateAQI (dec2 3549) pm25Breakpoints <= calculateAQI (dec1 355) pm25Breakpoints.
Proof. apply calculateAQI_pm25_monotone; reflexivity. Defined.

(** X9. On either table the sub-index is monotone among the readings that
    match a tier: the only ordered pairs of nonnegative readings whose
    sub-indices are in the opposite order have a reading that falls through
    the loop. *)
Theorem calculateAQI_monotone_on_tiers (bps : list AQIBreakpoint) (a b : float64)
    (bpa bpb : AQIBreakpoint) :
  bps = pm25Breakpoints \/ bps = pm10Breakpoints ->
  valid a = true -> valid b = true ->
  le (ofZ 0) a = true ->
  le a b = true ->
  find_tier (truncate a) bps = Some bpa ->
  find_tier (truncate b) bps = Some bpb ->
  calculateAQI a bps <= calculateAQI b bps.
Proof.
  intros Hb Va Vb H0 Hle Fa Fb.
  destruct (nonneg_of_le a b Va Vb H0 Hle) as [Na Nb].
  destruct Hb as [-> | ->].
  - exact (calculateAQI_matched_mono _ a b bpa bpb pm25_sorted pm25_indices_sorted
             pm25_tiers_ok Na Nb Hle Fa Fb).
  - exact (calculateAQI_matched_mono _ a b bpa bpb pm10_sorted pm10_indices_sorted
             pm10_tiers_ok Na Nb Hle Fa Fb).
Qed.

Lemma calculateAQI_monotone_on_tiers_witness :
  calculateAQI (ofZ 54) pm10Breakpoints <= calculateAQI (dec1 551) pm10Breakpoints.
Proof.
  apply (calculateAQI_monotone_on_tiers pm10Breakpoints (ofZ 54) (dec1 551)
           (mkBP (ofZ 0) (ofZ 54) 0 50) (mkBP (ofZ 55) (ofZ 154) 51 100));
    [right; reflexivity | reflexivity ..].
Defined.

(** X10. The truncation never moves a reading out of its tier: on either
    table, a reading that lies within the bounds of a tier is looked up, once
    truncated, in that same tier. *)
Theorem truncate_keeps_tier (bps : list AQIBreakpoint) (bp : AQIBreakpoint)
    (c : float64) :
  bps = pm25Breakpoints \/ bps = pm10Breakpoints ->
  valid c = true ->
  In bp bps ->
  in_tier c bp = true ->
  find_tier (truncate c) bps = Some bp.
Proof.
  intros Hb Hv Hin Ht.
  destruct Hb as [-> | ->].
  - pose proof pm25_bounds_fixed as F. rewrite Forall_forall in F.
    destruct (F bp Hin) as (Nlo & Tlo & Thi).
    exact (keeps_tier _ bp c pm25_sorted Hin Hv Nlo Tlo Thi Ht).
  - pose proof pm10_bounds_fixed as F. rewrite Forall_forall in F.
    destruct (F bp Hin) as (Nlo & Tlo & Thi).
    exact (keeps_tier _ bp c pm10_sorted Hin Hv Nlo Tlo Thi Ht).
Qed.

Lemma truncate_keeps_tier_witness :
  find_tier (truncate (dec2 10037)) pm10Breakpoints =
  Some (mkBP (ofZ 55) (ofZ 154) 51 100).
Proof.
  apply truncate_keeps_tier;
    [right; reflexivity | reflexivity | right; left; reflexivity | reflexivity].
Defined.

(** X11. On the PM2.5 table the tier of a reading can be read off the
    reading itself: a reading that is at least the lower bound of a tier and
    below the lower bound of the next tier (below 500.5 for the last tier)
    is looked up in that tier.  In particular the binary64 arithmetic of the
    truncation never lifts a PM2.5 reading into the next tier. *)
Theorem calculateAQI_pm25_tier_of_reading (c : float64) (i : nat)
    (bp : AQIBreakpoint) :
  valid c = true ->
  nth_error pm25Breakpoints i = Some bp ->
  le (ConcLow bp) c = true ->
  lt c (match nth_error pm25Breakpoints (S i) with
        | Some next => ConcLow next
        | None => dec1 5005
        end) = true ->
  find_tier (truncate c) pm25Breakpoints = Some bp /\
  AQILow bp <= calculateAQI c pm25Breakpoints <= AQIHigh bp.
Proof.
  intros Hv Hi Hlo Hlt.
  pose proof (pm25_tier_by_reading c i bp Hv Hi Hlo Hlt) as Hf.
  split; [exact Hf|].
  exact (calculateAQI_tier_range c _ bp pm25_tiers_ok Hv Hf).
Qed.

Lemma calculateAQI_pm25_tier_of_reading_witness :
  find_tier (truncate (dec2 1209)) pm25Breakpoints =
    Some (mkBP (dec1 0) (dec1 120) 0 50) /\
  0 <= calculateAQI (dec2 1209) pm25Breakpoints <= 50.
Proof.
  apply (calculateAQI_pm25_tier_of_reading (dec2 1209) 0%nat
           (mkBP (dec1 0) (dec1 120) 0 50)); reflexivity.
Defined.

(** X12. [computeAQI] returns 500 as soon as one of the two readings is
    above its table: a PM2.5 reading of at least 500.5 or a PM10 reading of
    at least 604, whatever the other reading is. *)
Theorem computeAQI_saturates (pm25 pm10 : float64) :
  valid pm25 = true -> valid pm10 = true ->
  le (dec1 5005) pm25 = true \/ le (ofZ 604) pm10 = true ->
  computeAQI pm25 pm10 = 500.
Proof.
  intros Va Vb H. rewrite computeAQI_max.
  pose proof (calculateAQI_range pm25 _ pm25_tiers_ok pm25_AQIHigh Va).
  pose proof (calculateAQI_range pm10 _ pm10_tiers_ok pm10_AQIHigh Vb).
  destruct H as [H|H].
  - rewrite (pm25_above pm25 Va H) in *. lia.
  - rewrite (pm10_above pm10 Vb H) in *. lia.
Qed.

Lemma computeAQI_saturates_witness : computeAQI (dec1 80) (ofZ 700) = 500.
Proof. apply computeAQI_saturates; [reflexivity | reflexivity | right; reflexivity]. Defined.

(** X13. For a fixed PM10 reading, [computeAQI] is monotone in the PM2.5
    reading. *)
Theorem computeAQI_monotone_pm25 (a b pm10 : float64) :
  valid a = true -> valid b = true ->
  le (ofZ 0) a = true ->
  le a b = true ->
  computeAQI a pm10 <= computeAQI b pm10.
Proof.
  intros Va Vb H0 Hle. rewrite !computeAQI_max.
  destruct (nonneg_of_le a b Va Vb H0 Hle) as [Na Nb].
  pose proof (pm25_mono a b Na Nb Hle). lia.
Qed.

Lemma computeAQI_monotone_pm25_witness :
  computeAQI (dec2 3549) (ofZ 45) <= computeAQI (dec1 355) (ofZ 45).
Proof. apply computeAQI_monotone_pm25; reflexivity. Defined.

(** X14. [computeAQI] returns an integer between 0 and 500 for every pair
    of float64 readings, also for negative, infinite and NaN ones. *)
Theorem computeAQI_range_all (pm25 pm10 : float64) :
  valid pm25 = true -> valid pm10 = true ->
  0 <= computeAQI pm25 pm10 <= 500.
Proof.
  intros Va Vb. rewrite computeAQI_max.
  pose proof (calculateAQI_range pm25 _ pm25_tiers_ok pm25_AQIHigh Va).
  pose proof (calculateAQI_range pm10 _ pm10_tiers_ok pm10_AQIHigh Vb).
  lia.
Qed.

Lemma computeAQI_range_all_witness : 0 <= computeAQI (dec1 (-5)) S754_nan <= 500.
Proof. apply computeAQI_range_all; reflexivity. Defined.

(** X15. A NaN reading compares false with every bound, so it matches no
    tier of any table and [calculateAQI] returns 500; [computeAQI] then
    returns 500 whatever the other reading is. *)
Theorem computeAQI_nan (x : float64) (bps : list AQIBreakpoint) :
  valid x = true ->
  calculateAQI S754_nan bps = 500 /\
  computeAQI S754_nan x = 500 /\
  computeAQI x S754_nan = 500.
Proof.
  intros Hv.
  assert (forall l, calculateAQI S754_nan l = 500) as N by (intros l; apply scan_nan).
  split; [apply N|]. rewrite !computeAQI_max, !N.
  pose proof (calculateAQI_range x _ pm25_tiers_ok pm25_AQIHigh Hv).
  pose proof (calculateAQI_range x _ pm10_tiers_ok pm10_AQIHigh Hv).
  lia.
Qed.

Lemma computeAQI_nan_witness :
  calculateAQI S754_nan pm25Breakpoints = 500 /\
  computeAQI S754_nan (ofZ 20) = 500 /\
  computeAQI (ofZ 20) S754_nan = 500.
Proof. apply computeAQI_nan. reflexivity. Defined.

(** X16. Whatever [handleMessage] publishes goes to the output topic with
    QoS 1 and without the retained flag, and is the encoding of the decoded
    reading, unchanged, extended with the [computeAQI] of its fields
    [PM02Standard] and [PM10Standard]; that index is between 0 and 500.  In
    particular nothing is published when the message cannot be decoded or
    the result cannot be encoded. *)
Theorem handleMessage_published
    (Unmarshal : String.string -> SensorReading + String.string)
    (Marshal : AQIReading -> String.string + String.string)
    (PublishError : String.string -> Z -> bool -> String.string -> option String.string)
    (msg : Message) (outputTopic topic : String.string) (qos : Z) (retained : bool)
    (payload : String.string) :
  In (Publish topic qos retained payload)
     (handleMessage Unmarshal Marshal PublishError msg outputTopic) ->
  topic = outputTopic /\ qos = 1 /\ retained = false /\
  exists reading,
    Unmarshal (Payload msg) = inl reading /\
    Marshal (mkAQIReading reading
               (computeAQI (PM02Standard reading) (PM10Standard reading))) =
      inl payload /\
    (valid (PM02Standard reading) = true -> valid (PM10Standard reading) = true ->
     0 <= computeAQI (PM02Standard reading) (PM10Standard reading) <= 500).
Proof.
  unfold handleMessage. intros [H|H]; [discriminate|].
  destruct (Unmarshal (Payload msg)) as [reading|err] eqn:EU.
  - destruct (Marshal _) as [json|err] eqn:EM.
    + destruct H as [H|H].
      * injection H as <- <- <- <-. repeat split.
        exists reading. split; [reflexivity|]. split; [exact EM|].
        intros Va Vb. rewrite computeAQI_max.
        pose proof (calculateAQI_range _ _ pm25_tiers_ok pm25_AQIHigh Va).
        pose proof (calculateAQI_range _ _ pm10_tiers_ok pm10_AQIHigh Vb).
        lia.
      * destruct (PublishError _ _ _ _); destruct H as [H|[]]; discriminate.
    + destruct H as [H|[]]. discriminate.
  - destruct H as [H|[]]. discriminate.
Qed.

Lemma handleMessage_published_witness :
  "aqi"%string = "aqi"%string /\ 1 = 1 /\ false = false /\
  exists reading,
    testUnmarshal (Payload (mkMessage "airgradient/readings/d83bda1d7660"%string
                                      "{}"%string)) = inl reading /\
    testMarshal (mkAQIReading reading
                   (computeAQI (PM02Standard reading) (PM10Standard reading))) =
      inl "{}"%string /\
    (valid (PM02Standard reading) = true -> valid (PM10Standard reading) = true ->
     0 <= computeAQI (PM02Standard reading) (PM10Standard reading) <= 500).
Proof.
  apply (handleMessage_published testUnmarshal testMarshal testPublishError
           (mkMessage "airgradient/readings/d83bda1d7660"%string "{}"%string)
           "aqi"%string "aqi"%string 1 false "{}"%string).
  right. left. reflexivity.
Defined.

(** X17. The binary64 arithmetic of the interpolation never changes a
    result.  For a nonnegative reading below 605, let [k] be the integer
    [math.Floor(c*10)] of the program, so that the reading is looked up as
    [k/10]; on both tables [calculateAQI] returns the integer that the same
    loop and formula give in exact rational arithmetic for [k/10]. *)
Theorem calculateAQI_agrees_with_exact (c : float64) :
  valid c = true ->
  le (ofZ 0) c = true ->
  lt c (ofZ 605) = true ->
  calculateAQI c pm25Breakpoints =
    exact_index (inject_Z (Qfloor (SF2Q (mul c (ofZ 10)))) / 10) pm25Exact /\
  calculateAQI c pm10Breakpoints =
    exact_index (inject_Z (Qfloor (SF2Q (mul c (ofZ 10)))) / 10) pm10Exact.
Proof.
  intros Hv H0 Hlt.
  destruct (truncate_below_605 c (valid_nonneg c Hv H0) Hlt) as [Hk [->|Ht]].
  - vm_compute. split; reflexivity.
  - unfold calculateAQI. rewrite Ht.
    apply (agree_upto_spec _ agree_upto_6050).
    rewrite Z2Nat.id by lia. lia.
Qed.

Lemma calculateAQI_agrees_with_exact_witness :
  calculateAQI (dec2 3549) pm25Breakpoints =
    exact_index (inject_Z (Qfloor (SF2Q (mul (dec2 3549) (ofZ 10)))) / 10) pm25Exact /\
  calculateAQI (dec2 3549) pm10Breakpoints =
    exact_index (inject_Z (Qfloor (SF2Q (mul (dec2 3549) (ofZ 10)))) / 10) pm10Exact.
Proof. apply calculateAQI_agrees_with_exact; reflexivity. Defined.

(** The integer [math.Floor(c*10)] of the program can exceed the exact one:
    for the float64 just below 54.1 the product [c*10] rounds to 541. *)
Example floor_product_above_exact :
  Qfloor (SF2Q (S754_finite false 7613898120023244 (-47)) * 10) = 540 /\
  Qfloor (SF2Q (mul (S754_finite false 7613898120023244 (-47)) (ofZ 10))) = 541.
Proof. vm_compute. split; reflexivity. Qed.

(** X18. The truncation of the program against the exact one: for a
    nonnegative reading below [2^49], the integer [math.Floor(c*10)] computed
    in float64 is the floor of the exact product [10 c], or that floor plus
    one (when [c*10] rounds up to an integer); it is never smaller. *)
Theorem truncate_close_to_exact (c : float64) :
  valid c = true ->
  le (ofZ 0) c = true ->
  lt c (ofZ (2 ^ 49)) = true ->
  Qfloor (SF2Q c * 10) <= Qfloor (SF2Q (mul c (ofZ 10))) <= Qfloor (SF2Q c * 10) + 1.
Proof.
  intros Hv H0 Hlt.
  pose proof (valid_nonneg c Hv H0) as Hn.
  destruct c as [s|[|]| |[|] m e]; cbn [nonneg] in Hn; try tauto; try discriminate.
  - destruct s; vm_compute; split; discriminate.
  - assert (fin_valid (ofZ (2 ^ 49))) as FB by (apply valid_is_finite; reflexivity).
    apply (SFltb_Q (S754_finite false m e) _ Hn FB) in Hlt.
    destruct (SF2Q_ofZ (2 ^ 49) ltac:(cbn; lia)) as [_ VB]. rewrite VB in Hlt.
    cbn [SF2Q cond_Zopp] in *.
    exact (floor_product_close m e Hn Hlt).
Qed.

Lemma truncate_close_to_exact_witness :
  Qfloor (SF2Q (dec2 3549) * 10) <= Qfloor (SF2Q (mul (dec2 3549) (ofZ 10))) <=
  Qfloor (SF2Q (dec2 3549) * 10) + 1.
Proof. apply truncate_close_to_exact; reflexivity. Defined.
